(** * Big-map state engine of the indexer: history cache and diff engine

    A shallow embedding of [etl/cache/bigmap.go] (history snapshots and
    their cache) and of the big-map index ([BigmapIndex.ConnectBlock],
    [BigmapIndex.DeleteBlock]), with the properties of the engine that
    the specification states. *)

From Stdlib Require Import ZArith Lia Strings.Byte.
From stdpp Require Import base option list strings gmap.

Local Open Scope Z_scope.

(** ** Common data *)

Definition bytes := list byte.

(** Go run-time outcomes of an engine call: a normal return, a returned
    [error], or a run-time panic (nil dereference, index out of range). *)
Inductive result (A : Type) : Type :=
| Ok (a : A)
| Err (msg : string)
| Panic.
Arguments Ok {A} a.
Arguments Err {A} msg.
Arguments Panic {A}.

(** The hashing primitives come from outside the repository
    ([micheline.KeyHash], [mavryk.ExprHash]) or from the [model] package
    ([model.GetKeyId]); the engine only relies on their signatures. *)
Class Hashing := {
  ExprHash : Type;
  ExprHash_eq_dec :: EqDecision ExprHash;
  (** [micheline.KeyHash]: hash of the serialised key *)
  KeyHash : bytes → ExprHash;
  (** [ExprHash.IsValid] *)
  IsValid : ExprHash → bool;
  (** [model.GetKeyId]: 64-bit key id of a (big-map id, key hash) pair *)
  GetKeyId : Z → ExprHash → Z
}.

(** [model.BigmapValue]: one live key/value pair. *)
Record BigmapValue := mkValue {
  v_RowId : Z;
  v_BigmapId : Z;
  v_Height : Z;
  v_KeyId : Z;
  v_Key : bytes;
  v_Value : bytes
}.

(** [micheline.DiffAction] *)
Inductive DiffAction :=
| DiffActionUpdate
| DiffActionRemove
| DiffActionCopy
| DiffActionAlloc.

Global Instance DiffAction_eq_dec : EqDecision DiffAction.
Proof. solve_decision. Defined.

(** [model.BigmapUpdate]: one row of the update log. *)
Record BigmapUpdate := mkUpdate {
  u_RowId : Z;
  u_BigmapId : Z;
  u_KeyId : Z;
  u_Action : DiffAction;
  u_Height : Z;
  u_Key : bytes;
  u_Value : bytes;
  u_SourceId : Z
}.

(** Modelled from the spec: [BigmapUpdate.ToKV] of the [model] package,
    the live value synthesised from the payload of an update row; the
    store assigns the row id on insert. *)
Definition ToKV (u : BigmapUpdate) : BigmapValue :=
  {| v_RowId := 0;
     v_BigmapId := u_BigmapId u;
     v_Height := u_Height u;
     v_KeyId := u_KeyId u;
     v_Key := u_Key u;
     v_Value := u_Value u |}.

(** Fixed-width integers, with their wrap-around. *)
Definition wrap_u32 (z : Z) : Z := z mod 2 ^ 32.
Definition wrap_i64 (z : Z) : Z := (z + 2 ^ 63) mod 2 ^ 64 - 2 ^ 63.

(** Go indexing [l[i]]: out of range panics. *)
Definition index {A} (l : list A) (i : Z) : option A :=
  if i <? 0 then None else l !! Z.to_nat i.

(** Go slicing [d[a:b]] of a byte slice whose capacity is its length:
    panics unless [0 <= a <= b <= len d]. *)
Definition slice (d : bytes) (a b : Z) : option bytes :=
  if (0 <=? a) && (a <=? b) && (b <=? Z.of_nat (length d))
  then Some (take (Z.to_nat (b - a)) (drop (Z.to_nat a) d))
  else None.

(** ** History snapshots ([etl/cache/bigmap.go]) *)

Module Cache.

Record BigmapHistory := mkHistory {
  BigmapId : Z;
  Height : Z;
  KeyOffsets : list Z;
  ValueOffsets : list Z;
  Data : bytes
}.

Definition Len (h : BigmapHistory) : Z := Z.of_nat (length (KeyOffsets h)).

Section Snapshot.
Context `{Hashing}.

(** The decoding at the end of [BigmapHistory.Get], for the index
    [found] of the entry: the value ends at the next key's offset, or at
    the end of the buffer for the last entry. *)
Definition Get_item (h : BigmapHistory) (found : Z) : option BigmapValue :=
  kStart ← index (KeyOffsets h) found;
  vStart ← index (ValueOffsets h) found;
  vEnd ← (if found <? Len h - 1
          then index (KeyOffsets h) (found + 1)
          else Some (Z.of_nat (length (Data h))));
  key ← slice (Data h) kStart vStart;
  value ← slice (Data h) vStart vEnd;
  Some {| v_RowId := found + 1;
          v_BigmapId := BigmapId h;
          v_Height := 0;
          v_KeyId := GetKeyId (BigmapId h) (KeyHash key);
          v_Key := key;
          v_Value := value |}.

(** The body of the loop of [BigmapHistory.Range] for the loop index
    [i]; the guard compares [i+from] with [len(KeyOffsets)], not with
    [len(KeyOffsets)-1]. *)
Definition Range_item (h : BigmapHistory) (from i : Z) : option BigmapValue :=
  kStart ← index (KeyOffsets h) (i + from);
  vStart ← index (ValueOffsets h) (i + from);
  vEnd ← (if i + from <? Z.of_nat (length (KeyOffsets h))
          then index (KeyOffsets h) (i + from + 1)
          else Some (Z.of_nat (length (Data h))));
  key ← slice (Data h) kStart vStart;
  value ← slice (Data h) vStart vEnd;
  Some {| v_RowId := i + from + 1;
          v_BigmapId := BigmapId h;
          v_Height := 0;
          v_KeyId := GetKeyId (BigmapId h) (KeyHash key);
          v_Key := key;
          v_Value := value |}.

(** [BigmapHistory.Range]; [None] is a run-time panic, [Some []] the
    [nil] result. *)
Definition Range (h : BigmapHistory) (from to : Z) : option (list BigmapValue) :=
  let to := if (to <? 0) || (Len h <=? to) then Len h - 1 else to in
  if to <=? from then Some []
  else mapM (Range_item h from) (seqZ 0 (to - from)).

End Snapshot.

(** *** The snapshot cache

    [BigmapHistoryCache] wraps a two-queue cache keyed by the packed
    [int64] key; the operations below only use its [Keys] and [Get], so
    the cache is its finite map of entries (statistics counters and the
    recency order are left out). *)

(** [makeKey]: [id<<32 | height] on [int64]. *)
Definition makeKey (id height : Z) : Z :=
  Z.lor (wrap_i64 (Z.shiftl id 32)) height.

Definition Keys (c : gmap Z BigmapHistory) : list Z := (map_to_list c).*1.

(** [BigmapHistoryCache.Get] *)
Definition Get (c : gmap Z BigmapHistory) (id height : Z) : option BigmapHistory :=
  c !! makeKey id height.

(** One iteration of the loop of [GetBest] over the cache keys. *)
Definition GetBest_step (id height : Z) (bestHeight v : Z) : Z :=
  if decide (Z.shiftr v 32 ≠ id) then bestHeight
  else
    let keyHeight := Z.land v 4294967295 in
    if height <? keyHeight then bestHeight
    else if bestHeight <? keyHeight then keyHeight
    else bestHeight.

Definition GetBest_scan (id height : Z) (bestHeight : Z) (keys : list Z) : Z :=
  foldl (GetBest_step id height) bestHeight keys.

(** [BigmapHistoryCache.GetBest]; [None] is the miss [(nil, false)]. *)
Definition GetBest (c : gmap Z BigmapHistory) (id height : Z) : option BigmapHistory :=
  let bestHeight := GetBest_scan id height 0 (Keys c) in
  if bestHeight =? 0 then None else Get c id bestHeight.

(** *** Building and rolling forward a snapshot *)

(** The callback of the update-log scan of [Build] and [Update], on the
    transient [kvStore]: [Alloc] and [Copy] rows are ignored, [Update]
    inserts or replaces, [Remove] deletes. The [size] it accumulates is
    only the capacity of the buffer allocated afterwards. *)
Definition replay_step (kvStore : gmap Z BigmapValue) (upd : BigmapUpdate)
  : gmap Z BigmapValue :=
  match u_Action upd with
  | DiffActionAlloc | DiffActionCopy => kvStore
  | DiffActionUpdate => <[u_KeyId upd := ToKV upd]> kvStore
  | DiffActionRemove => delete (u_KeyId upd) kvStore
  end.

Definition replay (kvStore : gmap Z BigmapValue) (rows : list BigmapUpdate)
  : gmap Z BigmapValue :=
  foldl replay_step kvStore rows.

(** One iteration of the packing loop: the offsets are [uint32]
    conversions of the current buffer length. *)
Definition pack_step (st : list Z * list Z * bytes) (v : BigmapValue)
  : list Z * list Z * bytes :=
  let '(ks, vs, d) := st in
  let ks := ks ++ [wrap_u32 (Z.of_nat (length d))] in
  let d := d ++ v_Key v in
  let vs := vs ++ [wrap_u32 (Z.of_nat (length d))] in
  let d := d ++ v_Value v in
  (ks, vs, d).

(** "compile into compact cacheable form", over the values of the
    [kvStore] in the order the map iteration delivers them. *)
Definition pack (id height : Z) (vals : list BigmapValue) : BigmapHistory :=
  let '(ks, vs, d) := foldl pack_step ([], [], []) vals in
  {| BigmapId := id; Height := height;
     KeyOffsets := ks; ValueOffsets := vs; Data := d |}.

(** Go leaves the iteration order of a map unspecified: every use of
    [range kvStore] takes the order as a function, any enumeration of the
    values of the map. *)
Definition range_order := gmap Z BigmapValue → list BigmapValue.

Definition valid_order (order : range_order) : Prop :=
  ∀ m, order m ≡ₚ (map_to_list m).*2.

(** The rows a query of the update table streams, in ascending row-id
    order (the table keeps its rows in that order). *)
Definition Build_query (updates : list BigmapUpdate) (id height : Z)
  : list BigmapUpdate :=
  filter (λ u, u_BigmapId u = id ∧ u_Height u ≤ height) updates.

Definition Update_query (updates : list BigmapUpdate) (id from height : Z)
  : list BigmapUpdate :=
  filter (λ u, u_BigmapId u = id ∧ from < u_Height u ∧ u_Height u ≤ height)
         updates.

(** [r.Decode(upd)] under [WithFields("action", "key_id", "key",
    "value")]: the scan decodes these four fields into [upd], whose
    other fields keep their zero value. *)
Definition Decode_fields (row : BigmapUpdate) : BigmapUpdate :=
  {| u_RowId := 0; u_BigmapId := 0; u_KeyId := u_KeyId row;
     u_Action := u_Action row; u_Height := 0;
     u_Key := u_Key row; u_Value := u_Value row; u_SourceId := 0 |}.

(** [BigmapHistoryCache.Build]: the snapshot and the cache with the
    snapshot added (evictions of the two-queue cache are left out). *)
Definition Build (order : range_order) (c : gmap Z BigmapHistory)
    (updates : list BigmapUpdate) (id height : Z)
  : BigmapHistory * gmap Z BigmapHistory :=
  let kvStore := replay ∅ (Decode_fields <$> Build_query updates id height) in
  let hist := pack id height (order kvStore) in
  (hist, <[makeKey id height := hist]> c).

(** The update log is append-only and blocks are connected in height
    order: in row-id order the heights of the rows of one big-map never
    decrease. *)
Fixpoint ascending (l : list Z) : bool :=
  match l with
  | [] => true
  | x :: l' =>
      match l' with
      | [] => true
      | y :: _ => (x <=? y) && ascending l'
      end
  end.

Definition log_ascending (id : Z) (log : list BigmapUpdate) : bool :=
  ascending (u_Height <$> filter (λ u, u_BigmapId u = id) log).

Section Roll.
Context `{Hashing}.

(** The first loop of [Update]: unpack the cached entries into a
    [kvStore] keyed by the key id recomputed from the key bytes. The
    decoding of the entry [i] is the one of [Get]. *)
Definition Update_unpack (hist : BigmapHistory) : option (gmap Z BigmapValue) :=
  foldl (λ acc i,
           kvStore ← acc;
           item ← Get_item hist i;
           Some (<[v_KeyId item := item]> kvStore))
        (Some ∅) (seqZ 0 (Len hist)).

(** [BigmapHistoryCache.Update]; [None] is a run-time panic while
    unpacking. *)
Definition Update (order : range_order) (c : gmap Z BigmapHistory)
    (hist : BigmapHistory) (updates : list BigmapUpdate) (height : Z)
  : option (BigmapHistory * gmap Z BigmapHistory) :=
  kvStore ← Update_unpack hist;
  let kvStore :=
    replay kvStore
           (Decode_fields
              <$> Update_query updates (BigmapId hist) (Height hist) height) in
  let hist2 := pack (BigmapId hist) height (order kvStore) in
  Some (hist2, <[makeKey (BigmapId hist) height := hist2]> c).

(** The entry a packed snapshot decodes at an index: the pair packed
    there, under the key id recomputed from its key bytes. *)
Definition decoded (id : Z) (i : nat) (v : BigmapValue) : BigmapValue :=
  {| v_RowId := Z.of_nat i + 1;
     v_BigmapId := id;
     v_Height := 0;
     v_KeyId := GetKeyId id (KeyHash (v_Key v));
     v_Key := v_Key v;
     v_Value := v_Value v |}.

(** Every [Update] row of the big-map carries the key id of its key
    bytes, as [model.NewBigmapUpdate] writes it for a diff whose key
    hash is the hash of its key. *)
Definition key_ids_ok (id : Z) (log : list BigmapUpdate) : bool :=
  forallb (λ u, if decide (u_BigmapId u = id ∧ u_Action u = DiffActionUpdate)
                then bool_decide (u_KeyId u = GetKeyId id (KeyHash (u_Key u)))
                else true) log.

(** The store of a big-map keeps every pair under the key id of its key
    bytes. *)
Definition kv_wf (id : Z) (m : gmap Z BigmapValue) : Prop :=
  ∀ k v, m !! k = Some v → GetKeyId id (KeyHash (v_Key v)) = k.

(** The live key/value pairs a snapshot holds, decoded entry by entry. *)
Definition entries (hist : BigmapHistory) : option (list (bytes * bytes)) :=
  items ← mapM (Get_item hist) (seqZ 0 (Len hist));
  Some ((λ v, (v_Key v, v_Value v)) <$> items).

End Roll.

Section Lookup.
Context `{Hashing}.

(** The search loop of [BigmapHistory.Get] over the indices still to
    visit: [Some (Some i)] when the key of the entry [i] hashes to [key],
    [Some None] when the loop ends with [found = -1], [None] for a
    run-time panic (a value offset missing, a slice out of range). *)
Fixpoint History_Get_search (h : BigmapHistory) (key : ExprHash)
    (indices : list Z) : option (option Z) :=
  match indices with
  | [] => Some None
  | i :: indices =>
      kStart ← index (KeyOffsets h) i;
      kEnd ← index (ValueOffsets h) i;
      k ← slice (Data h) kStart kEnd;
      if decide (KeyHash k = key) then Some (Some i)
      else History_Get_search h key indices
  end.

(** [BigmapHistory.Get]: [Some None] is the [nil] result. *)
Definition History_Get (h : BigmapHistory) (key : ExprHash)
  : option (option BigmapValue) :=
  found ← History_Get_search h key (seqZ 0 (Len h));
  match found with
  | None => Some None
  | Some found => Some <$> Get_item h found
  end.

(** [BigmapHistory.Size] *)
Definition Size (h : BigmapHistory) : Z :=
  Z.of_nat (length (KeyOffsets h) + length (ValueOffsets h) + length (Data h)).

End Lookup.

(** Sizes and offsets of a packed list of values, for stating what
    [pack] lays out. *)
Definition kv_size (v : BigmapValue) : Z :=
  Z.of_nat (length (v_Key v)) + Z.of_nat (length (v_Value v)).

Definition data_size (l : list BigmapValue) : Z :=
  foldr (λ v n, kv_size v + n) 0 l.

Definition flat (l : list BigmapValue) : bytes :=
  l ≫= (λ v, v_Key v ++ v_Value v).

Fixpoint key_offsets (n : Z) (l : list BigmapValue) : list Z :=
  match l with
  | [] => []
  | v :: l => wrap_u32 n :: key_offsets (n + kv_size v) l
  end.

Fixpoint value_offsets (n : Z) (l : list BigmapValue) : list Z :=
  match l with
  | [] => []
  | v :: l =>
      wrap_u32 (n + Z.of_nat (length (v_Key v)))
        :: value_offsets (n + kv_size v) l
  end.

Definition payload (v : BigmapValue) : bytes * bytes := (v_Key v, v_Value v).

(** The layout invariant of a snapshot, as a check: as many key offsets
    as value offsets, [key_offsets[i] <= value_offsets[i] <=
    key_offsets[i+1]], and the last value ends within the buffer. *)
Fixpoint wf_offsets (ks vs : list Z) (len : Z) : bool :=
  match ks, vs with
  | [], [] => true
  | k :: ks', v :: vs' =>
      (0 <=? k) && (k <=? v) && (v <=? len)
      && match ks' with [] => true | k' :: _ => v <=? k' end
      && wf_offsets ks' vs' len
  | _, _ => false
  end.

Definition wf_hist (h : BigmapHistory) : bool :=
  wf_offsets (KeyOffsets h) (ValueOffsets h) (Z.of_nat (length (Data h))).

End Cache.

(** ** The big-map index ([BigmapIndex]) *)

(** Types of big-map keys and values are [micheline.Prim] trees; the
    engine compares them after [Typedef("").Unfold()], which comes from
    the [micheline] library. *)
Class Typing := {
  Prim : Type;
  Typedef : Type;
  Typedef_eq_dec :: EqDecision Typedef;
  Unfold : Prim → Typedef
}.

(** Rows of a table carry the primary key the store assigns
    ([pack.Item]: [ID] and [SetID]). *)
Class Row (A : Type) := {
  row_id : A → Z;
  set_row_id : Z → A → A
}.

Global Instance BigmapValue_Row : Row BigmapValue := {|
  row_id := v_RowId;
  set_row_id id v :=
    {| v_RowId := id; v_BigmapId := v_BigmapId v; v_Height := v_Height v;
       v_KeyId := v_KeyId v; v_Key := v_Key v; v_Value := v_Value v |}
|}.

Global Instance BigmapUpdate_Row : Row BigmapUpdate := {|
  row_id := u_RowId;
  set_row_id id u :=
    {| u_RowId := id; u_BigmapId := u_BigmapId u; u_KeyId := u_KeyId u;
       u_Action := u_Action u; u_Height := u_Height u; u_Key := u_Key u;
       u_Value := u_Value u; u_SourceId := u_SourceId u |}
|}.

(** [SetID] sets what [ID] reads. *)
Class RowOk (A : Type) `{Row A} : Prop :=
  row_id_set : ∀ id x, row_id (set_row_id id x) = id.

Global Instance BigmapValue_RowOk : RowOk BigmapValue.
Proof. by intros id x. Qed.

Global Instance BigmapUpdate_RowOk : RowOk BigmapUpdate.
Proof. by intros id x. Qed.

(** *** The durable store adapter

    A table keeps its rows in primary-key order together with the
    sequence the keys are drawn from: "row ids are assigned by the store
    on insert, strictly monotone per table". Store failures (I/O) are
    not part of the model. *)
Module Store.

Record Table (A : Type) := mkTable {
  rows : list A;
  sequence : Z
}.
Arguments mkTable {A} rows sequence.
Arguments rows {A} t.
Arguments sequence {A} t.

Definition no_rows {A} : Table A := mkTable [] 0.

Section Ops.
Context {A : Type} `{Row A}.

(** [Table.Insert] of one item: returns the table and the item with its
    key set. *)
Definition insert (t : Table A) (x : A) : Table A * A :=
  let id := sequence t + 1 in
  let x := set_row_id id x in
  (mkTable (rows t ++ [x]) id, x).

(** [Table.Insert] of a batch, in order. *)
Definition insert_all (t : Table A) (xs : list A) : Table A :=
  foldl (λ t x, (insert t x).1) t xs.

(** [Table.Update]: replaces the row of the same key. *)
Definition update (t : Table A) (x : A) : Table A :=
  mkTable ((λ r, if decide (row_id r = row_id x) then x else r) <$> rows t)
          (sequence t).

Definition update_all (t : Table A) (xs : list A) : Table A :=
  foldl update t xs.

(** [Table.DeleteIds] *)
Definition delete_ids (t : Table A) (ids : list Z) : Table A :=
  mkTable (filter (λ r, row_id r ∉ ids) (rows t)) (sequence t).

(** [Query.Delete]: deletes the rows the conditions select. *)
Definition delete_where (P : A → Prop) `{∀ r, Decision (P r)} (t : Table A)
  : Table A :=
  mkTable (filter (λ r, ¬ P r) (rows t)) (sequence t).

(** [Query.Stream] in ascending key order, and with [WithDesc]. *)
Definition stream (P : A → Prop) `{∀ r, Decision (P r)} (t : Table A)
  : list A :=
  filter P (rows t).

Definition stream_desc (P : A → Prop) `{∀ r, Decision (P r)} (t : Table A)
  : list A :=
  reverse (filter P (rows t)).

(** A stream callback that keeps the first row it accepts and ends the
    stream with [io.EOF]. *)
Definition first_where (P : A → Prop) `{∀ r, Decision (P r)} (l : list A)
  : option A :=
  head (filter P l).

(** The primary keys of a table: no key twice, and none above the
    sequence they are drawn from. *)
Definition keys_ok (t : Table A) : Prop :=
  NoDup (row_id <$> rows t) ∧ Forall (λ r, row_id r ≤ sequence t) (rows t).

(** A table after appends only: the rows of [t] in place and order,
    followed by rows that satisfy [P]. *)
Definition appended (P : A → Prop) (t t' : Table A) : Prop :=
  ∃ added, rows t' = rows t ++ added ∧ Forall P added.

End Ops.
End Store.

(** *** The rows and events of the [model] and [micheline] packages *)

Section Model.
Context `{Hashing} `{Typing}.

(** [model.BigmapAlloc]: the allocation record of one big-map; [a_Height]
    is the allocation height. *)
Record BigmapAlloc := mkAlloc {
  a_RowId : Z;
  a_BigmapId : Z;
  a_Height : Z;
  a_NUpdates : Z;
  a_NKeys : Z;
  a_Updated : Z;
  a_Deleted : Z;
  a_KeyType : Prim;
  a_ValueType : Prim
}.

Global Instance BigmapAlloc_Row : Row BigmapAlloc := {|
  row_id := a_RowId;
  set_row_id id a :=
    {| a_RowId := id; a_BigmapId := a_BigmapId a; a_Height := a_Height a;
       a_NUpdates := a_NUpdates a; a_NKeys := a_NKeys a;
       a_Updated := a_Updated a; a_Deleted := a_Deleted a;
       a_KeyType := a_KeyType a; a_ValueType := a_ValueType a |}
|}.

Global Instance BigmapAlloc_RowOk : RowOk BigmapAlloc.
Proof. by intros id x. Qed.

(** [micheline.BigmapEvent]: one diff of an operation. *)
Record BigmapEvent := mkEvent {
  e_Action : DiffAction;
  e_Id : Z;
  e_SourceId : Z;
  e_DestId : Z;
  e_KeyHash : ExprHash;
  e_KeyType : Prim;
  e_ValueType : Prim;
  e_Key : bytes;
  e_Value : bytes
}.

(** [model.Op], as far as the index reads it. [op_Script] is the result
    of [op.Contract.LoadScript()] followed by [script.BigmapTypes()]:
    the (key, value) type pairs of the big-maps of the script, or [None]
    when the script does not load. *)
Record Op := mkOp {
  op_Height : Z;
  op_IsInternal : bool;
  op_IsSuccess : bool;
  op_BigmapEvents : list BigmapEvent;
  op_Script : option (list (Prim * Prim))
}.

(** [model.Block]: height, protocol version ([block.Params.Version]) and
    operations in delivered order. *)
Record Block := mkBlock {
  b_Height : Z;
  b_Version : Z;
  b_Ops : list Op
}.

(** Modelled from the spec: the constructors and conversions of the
    [model] package, which is not part of the sources at hand. A stored
    row has the key hash of its key bytes; [key_id] is
    [GetKeyId big_map_id key_hash]; a new allocation starts at the
    height of its operation with no live keys and counts its own
    [Alloc] row (scenario 1 of the specification expects
    [n_updates_total >= 2] after one [Alloc] and one [Update]); rows
    leave these functions without a row id, which the store assigns on
    insert. *)
Definition v_GetKeyHash (v : BigmapValue) : ExprHash := KeyHash (v_Key v).
Definition u_GetKeyHash (u : BigmapUpdate) : ExprHash := KeyHash (u_Key u).

Definition NewBigmapAlloc (op : Op) (diff : BigmapEvent) : BigmapAlloc :=
  {| a_RowId := 0; a_BigmapId := e_Id diff; a_Height := op_Height op;
     a_NUpdates := 1; a_NKeys := 0; a_Updated := op_Height op;
     a_Deleted := 0;
     a_KeyType := e_KeyType diff; a_ValueType := e_ValueType diff |}.

Definition CopyBigmapAlloc (src : BigmapAlloc) (op : Op) (dst : Z) : BigmapAlloc :=
  {| a_RowId := 0; a_BigmapId := dst; a_Height := op_Height op;
     a_NUpdates := 0; a_NKeys := 0; a_Updated := op_Height op;
     a_Deleted := 0;
     a_KeyType := a_KeyType src; a_ValueType := a_ValueType src |}.

(** [BigmapAlloc.ToUpdate], [ToUpdateCopy] and [ToRemove]: the update
    rows that stand for the big-map as a whole; they carry no key. *)
Definition a_ToUpdate (a : BigmapAlloc) (op : Op) : BigmapUpdate :=
  {| u_RowId := 0; u_BigmapId := a_BigmapId a; u_KeyId := 0;
     u_Action := DiffActionAlloc; u_Height := op_Height op;
     u_Key := []; u_Value := []; u_SourceId := 0 |}.

Definition a_ToUpdateCopy (a : BigmapAlloc) (op : Op) (srcid : Z) : BigmapUpdate :=
  {| u_RowId := 0; u_BigmapId := a_BigmapId a; u_KeyId := 0;
     u_Action := DiffActionCopy; u_Height := op_Height op;
     u_Key := []; u_Value := []; u_SourceId := srcid |}.

Definition a_ToRemove (a : BigmapAlloc) (op : Op) : BigmapUpdate :=
  {| u_RowId := 0; u_BigmapId := a_BigmapId a; u_KeyId := 0;
     u_Action := DiffActionRemove; u_Height := op_Height op;
     u_Key := []; u_Value := []; u_SourceId := 0 |}.

Definition NewBigmapUpdate (op : Op) (diff : BigmapEvent) : BigmapUpdate :=
  {| u_RowId := 0; u_BigmapId := e_Id diff;
     u_KeyId := GetKeyId (e_Id diff) (e_KeyHash diff);
     u_Action := e_Action diff; u_Height := op_Height op;
     u_Key := e_Key diff; u_Value := e_Value diff; u_SourceId := 0 |}.

Definition NewBigmapValue (diff : BigmapEvent) (height : Z) : BigmapValue :=
  {| v_RowId := 0; v_BigmapId := e_Id diff; v_Height := height;
     v_KeyId := GetKeyId (e_Id diff) (e_KeyHash diff);
     v_Key := e_Key diff; v_Value := e_Value diff |}.

Definition CopyBigmapValue (v : BigmapValue) (dst height : Z) : BigmapValue :=
  {| v_RowId := 0; v_BigmapId := dst; v_Height := height;
     v_KeyId := GetKeyId dst (v_GetKeyHash v);
     v_Key := v_Key v; v_Value := v_Value v |}.

Definition v_ToUpdateCopy (v : BigmapValue) (op : Op) : BigmapUpdate :=
  {| u_RowId := 0; u_BigmapId := v_BigmapId v; u_KeyId := v_KeyId v;
     u_Action := DiffActionCopy; u_Height := op_Height op;
     u_Key := v_Key v; u_Value := v_Value v; u_SourceId := 0 |}.

Definition v_ToUpdateRemove (v : BigmapValue) (op : Op) : BigmapUpdate :=
  {| u_RowId := 0; u_BigmapId := v_BigmapId v; u_KeyId := v_KeyId v;
     u_Action := DiffActionRemove; u_Height := op_Height op;
     u_Key := v_Key v; u_Value := []; u_SourceId := 0 |}.

End Model.

(** *** The diff application engine *)

Global Instance result_bind : MBind result := λ A B f r,
  match r with
  | Ok a => f a
  | Err msg => Err msg
  | Panic => Panic
  end.

Module Index.
Section Engine.
Context `{Hashing} `{Typing}.

(** The three tables and the allocation cache of [BigmapIndex], and the
    messages written to the log. The cache is an LRU of 32k entries that
    holds pointers to allocation records: a record mutated after
    [loadAlloc] is the cached one, so every mutation below is written to
    the cache entry as well (evictions are left out). *)
Record State := mkState {
  allocTable : Store.Table BigmapAlloc;
  updateTable : Store.Table BigmapUpdate;
  valueTable : Store.Table BigmapValue;
  allocCache : gmap Z BigmapAlloc;
  logs : list string
}.

Definition with_allocTable (st : State) t :=
  mkState t (updateTable st) (valueTable st) (allocCache st) (logs st).
Definition with_updateTable (st : State) t :=
  mkState (allocTable st) t (valueTable st) (allocCache st) (logs st).
Definition with_valueTable (st : State) t :=
  mkState (allocTable st) (updateTable st) t (allocCache st) (logs st).
Definition with_allocCache (st : State) c :=
  mkState (allocTable st) (updateTable st) (valueTable st) c (logs st).
Definition log_msg (st : State) (msg : string) :=
  mkState (allocTable st) (updateTable st) (valueTable st) (allocCache st)
          (logs st ++ [msg]).

(** [InMemoryBigmap]: the scratch of a temporary big-map. *)
Record InMemoryBigmap := mkInMemory {
  bm_Alloc : BigmapAlloc;
  bm_Updates : list BigmapUpdate;
  bm_Live : list BigmapValue
}.

Definition NewInMemoryBigmap (alloc : BigmapAlloc) : InMemoryBigmap :=
  mkInMemory alloc [] [].

(** [BigmapIndex.loadAlloc]: from the cache, or from the allocation
    table by [bigmap_id], filling the cache. Modelled from the spec: the
    store adapter, whose code is not at hand, reports a point lookup
    without a row as an error (a missing allocation is fatal to the
    block). *)
Definition loadAlloc (st : State) (id : Z) : result (BigmapAlloc * State) :=
  match allocCache st !! id with
  | Some alloc => Ok (alloc, st)
  | None =>
      match Store.first_where (λ a, a_BigmapId a = id)
                              (Store.rows (allocTable st)) with
      | Some alloc =>
          Ok (alloc, with_allocCache st (<[id := alloc]> (allocCache st)))
      | None => Err "etl.bigmap.alloc decode"
      end
  end.

(** The allocation record behind the pointer [alloc] changes: so does the
    cache entry that holds the pointer. *)
Definition mutate_alloc (st : State) (id : Z) (alloc : BigmapAlloc) : State :=
  with_allocCache st (<[id := alloc]> (allocCache st)).

Definition set_counters (a : BigmapAlloc) (nkeys nupdates updated deleted : Z)
  : BigmapAlloc :=
  {| a_RowId := a_RowId a; a_BigmapId := a_BigmapId a; a_Height := a_Height a;
     a_NUpdates := nupdates; a_NKeys := nkeys;
     a_Updated := updated; a_Deleted := deleted;
     a_KeyType := a_KeyType a; a_ValueType := a_ValueType a |}.

Definition set_types (diff : BigmapEvent) (kt vt : Prim) : BigmapEvent :=
  {| e_Action := e_Action diff; e_Id := e_Id diff;
     e_SourceId := e_SourceId diff; e_DestId := e_DestId diff;
     e_KeyHash := e_KeyHash diff; e_KeyType := kt; e_ValueType := vt;
     e_Key := e_Key diff; e_Value := e_Value diff |}.

(** The type lookup at the head of the [Alloc] case: under the guard
    [block.Params.Version >= 13 && diff.Id > 0] the declared types are
    replaced by the first pair of the script whose unfolded types equal
    the unfolded declared ones; without a match the error is logged and
    the diff stays as it is. *)
Definition reconcile_types (block : Block) (op : Op) (st : State)
    (diff : BigmapEvent) : result (BigmapEvent * State) :=
  if (13 <=? b_Version block) && (0 <? e_Id diff) then
    match op_Script op with
    | None => Err "etl.bigmap_alloc.load_type"
    | Some bigmapTypes =>
        let kt := Unfold (e_KeyType diff) in
        let vt := Unfold (e_ValueType diff) in
        match Store.first_where
                (λ btyp : Prim * Prim, Unfold btyp.1 = kt ∧ Unfold btyp.2 = vt)
                bigmapTypes with
        | Some btyp => Ok (set_types diff btyp.1 btyp.2, st)
        | None => Ok (diff, log_msg st "No type match found for bigmap")
        end
    end
  else Ok (diff, st).

(** [case micheline.DiffActionAlloc] *)
Definition apply_Alloc (block : Block) (op : Op)
    (st : State) (tmp : gmap Z InMemoryBigmap) (diff : BigmapEvent)
  : result (State * gmap Z InMemoryBigmap) :=
  '(diff, st) ← reconcile_types block op st diff;
  if e_Id diff <? 0 then
    let alloc := NewBigmapAlloc op diff in
    Ok (st, <[e_Id diff := NewInMemoryBigmap alloc]> tmp)
  else
    let '(at', alloc) := Store.insert (allocTable st) (NewBigmapAlloc op diff) in
    let st := with_allocTable st at' in
    let st := with_allocCache st (<[a_BigmapId alloc := alloc]> (allocCache st)) in
    let st := with_updateTable st
                (Store.insert (updateTable st) (a_ToUpdate alloc op)).1 in
    Ok (st, tmp).

(** The loop that copies the live keys of the source: a copied live
    value and its [Copy] update row per key. *)
Definition copy_live (op : Op) (dst : Z) (source : list BigmapValue)
  : list BigmapValue * list BigmapUpdate :=
  let live := (λ v, CopyBigmapValue v dst (op_Height op)) <$> source in
  (live, (λ copied, v_ToUpdateCopy copied op) <$> live).

(** [case micheline.DiffActionCopy] *)
Definition apply_Copy (op : Op)
    (st : State) (tmp : gmap Z InMemoryBigmap) (diff : BigmapEvent)
  : result (State * gmap Z InMemoryBigmap) :=
  '(alloc, updates, live, st) ←
    (if e_SourceId diff <? 0 then
       match tmp !! e_SourceId diff with
       | None => Err "etl.bigmap.copy: missing temporary bigmap"
       | Some bm =>
           let alloc := CopyBigmapAlloc (bm_Alloc bm) op (e_DestId diff) in
           let '(live, copies) := copy_live op (e_DestId diff) (bm_Live bm) in
           let updates := a_ToUpdateCopy alloc op (e_SourceId diff) :: copies in
           let n := Z.of_nat (length live) in
           Ok (set_counters alloc n n (a_Updated alloc) (a_Deleted alloc),
               updates, live, st)
       end
     else
       match loadAlloc st (e_SourceId diff) with
       | Ok (srcAlloc, st) =>
           let alloc := CopyBigmapAlloc srcAlloc op (e_DestId diff) in
           let source :=
             Store.stream (λ v, v_BigmapId v = e_SourceId diff) (valueTable st) in
           let '(live, copies) := copy_live op (e_DestId diff) source in
           let updates := a_ToUpdateCopy alloc op (e_SourceId diff) :: copies in
           let n := Z.of_nat (length live) in
           Ok (set_counters alloc n n (a_Updated alloc) (a_Deleted alloc),
               updates, live, st)
       | Err _ => Err "etl.bigmap.copy"
       | Panic => Panic
       end);
  if e_DestId diff <? 0 then
    Ok (st, <[e_DestId diff := mkInMemory alloc updates live]> tmp)
  else
    let '(at', alloc) := Store.insert (allocTable st) alloc in
    let st := with_allocTable st at' in
    let st := with_allocCache st (<[a_BigmapId alloc := alloc]> (allocCache st)) in
    let st := with_valueTable st (Store.insert_all (valueTable st) live) in
    let st := with_updateTable st (Store.insert_all (updateTable st) updates) in
    Ok (st, tmp).

(** The live row of a durable big-map for the key of a diff: the
    candidates are selected by [bigmap_id] and [key_id] in descending
    row-id order, and the callback accepts the first one whose big-map
    id and full key hash match ("additional check for hash collision
    safety"). *)
Definition find_live (st : State) (diff : BigmapEvent) : option BigmapValue :=
  Store.first_where
    (λ source, v_BigmapId source = e_Id diff
               ∧ v_GetKeyHash source = e_KeyHash diff)
    (Store.stream_desc
       (λ v, v_BigmapId v = e_Id diff
             ∧ v_KeyId v = GetKeyId (e_Id diff) (e_KeyHash diff))
       (valueTable st)).

(** [case micheline.DiffActionRemove] *)
Definition apply_Remove (op : Op)
    (st : State) (tmp : gmap Z InMemoryBigmap) (diff : BigmapEvent)
  : result (State * gmap Z InMemoryBigmap) :=
  if negb (IsValid (e_KeyHash diff)) then
    (* full bigmap removal *)
    if e_Id diff <? 0 then
      (* [bm := tmp[diff.Id]] is nil for a missing scratch and
         [bm.Alloc] dereferences it *)
      match tmp !! e_Id diff with
      | None => Panic
      | Some bm =>
          let st := with_updateTable st
                      (Store.insert (updateTable st) (a_ToRemove (bm_Alloc bm) op)).1 in
          Ok (st, delete (e_Id diff) tmp)
      end
    else
      match loadAlloc st (e_Id diff) with
      | Ok (alloc, st) =>
          let source :=
            Store.stream (λ v, v_BigmapId v = e_Id diff) (valueTable st) in
          let ids := v_RowId <$> source in
          let updates := (λ v, v_ToUpdateRemove v op) <$> source in
          let alloc :=
            set_counters alloc 0 (a_NUpdates alloc + Z.of_nat (length updates))
                         (op_Height op) (op_Height op) in
          let st := mutate_alloc st (e_Id diff) alloc in
          let st := with_updateTable st
                      (Store.insert (updateTable st) (a_ToRemove alloc op)).1 in
          let st := with_allocTable st (Store.update (allocTable st) alloc) in
          let st := with_updateTable st
                      (Store.insert_all (updateTable st) updates) in
          let st := with_valueTable st (Store.delete_ids (valueTable st) ids) in
          Ok (st, tmp)
      | Err _ => Err "etl.bigmap.empty"
      | Panic => Panic
      end
  else if e_Id diff <? 0 then
    (* single key removal from temp bigmap *)
    match tmp !! e_Id diff with
    | None => Err "etl.bigmap.remove: missing temporary bigmap"
    | Some bm =>
        let '(st, bm) :=
          match list_find (λ v, v_GetKeyHash v = e_KeyHash diff) (bm_Live bm) with
          | Some (pos, v) =>
              let st := with_updateTable st
                          (Store.insert (updateTable st) (v_ToUpdateRemove v op)).1 in
              let a := bm_Alloc bm in
              (st, mkInMemory
                     (set_counters a (a_NKeys a - 1) (a_NUpdates a)
                                   (a_Updated a) (a_Deleted a))
                     (bm_Updates bm) (delete pos (bm_Live bm)))
          | None => (st, bm)
          end in
        let bm :=
          match list_find (λ u, u_GetKeyHash u = e_KeyHash diff) (bm_Updates bm) with
          | Some (pos, _) =>
              mkInMemory (bm_Alloc bm) (delete pos (bm_Updates bm)) (bm_Live bm)
          | None => bm
          end in
        Ok (st, <[e_Id diff := bm]> tmp)
    end
  else
    (* single key removal from regular bigmap *)
    match loadAlloc st (e_Id diff) with
    | Ok (alloc, st) =>
        let prev := find_live st diff in
        let '(st, nkeys) :=
          match prev with
          | Some prev =>
              (with_valueTable st
                 (Store.delete_ids (valueTable st) [v_RowId prev]),
               a_NKeys alloc - 1)
          | None => (st, a_NKeys alloc)
          end in
        let alloc :=
          set_counters alloc nkeys (a_NUpdates alloc + 1) (op_Height op)
                       (a_Deleted alloc) in
        let st := mutate_alloc st (e_Id diff) alloc in
        let st := with_updateTable st
                    (Store.insert (updateTable st) (NewBigmapUpdate op diff)).1 in
        let st := with_allocTable st (Store.update (allocTable st) alloc) in
        Ok (st, tmp)
    | Err _ => Err "etl.bigmap.remove"
    | Panic => Panic
    end.

(** [case micheline.DiffActionUpdate] *)
Definition apply_Update (op : Op)
    (st : State) (tmp : gmap Z InMemoryBigmap) (diff : BigmapEvent)
  : result (State * gmap Z InMemoryBigmap) :=
  if e_Id diff <? 0 then
    (* update on temp bigmap *)
    match tmp !! e_Id diff with
    | None => Err "etl.bigmap.update: missing temporary bigmap"
    | Some bm =>
        let a := bm_Alloc bm in
        (* the appended update row is the one inserted into the update
           table, which sets its row id in place *)
        let '(ut, upd) :=
          Store.insert (updateTable st) (NewBigmapUpdate op diff) in
        let bm :=
          match list_find (λ v, v_GetKeyHash v = e_KeyHash diff) (bm_Live bm) with
          | None =>
              mkInMemory
                (set_counters a (a_NKeys a + 1) (a_NUpdates a + 1)
                              (a_Updated a) (a_Deleted a))
                (bm_Updates bm ++ [upd])
                (bm_Live bm ++ [NewBigmapValue diff (op_Height op)])
          | Some (pos, _) =>
              mkInMemory
                (set_counters a (a_NKeys a) (a_NUpdates a + 1)
                              (a_Updated a) (a_Deleted a))
                (bm_Updates bm ++ [upd])
                (<[pos := NewBigmapValue diff (op_Height op)]> (bm_Live bm))
          end in
        Ok (with_updateTable st ut, <[e_Id diff := bm]> tmp)
    end
  else
    (* regular bigmaps *)
    match loadAlloc st (e_Id diff) with
    | Ok (alloc, st) =>
        let prev := find_live st diff in
        let live := NewBigmapValue diff (op_Height op) in
        let '(st, nkeys) :=
          match prev with
          | Some prev =>
              (with_valueTable st
                 (Store.update (valueTable st) (set_row_id (v_RowId prev) live)),
               a_NKeys alloc)
          | None =>
              (with_valueTable st (Store.insert (valueTable st) live).1,
               a_NKeys alloc + 1)
          end in
        let alloc :=
          set_counters alloc nkeys (a_NUpdates alloc + 1) (op_Height op)
                       (a_Deleted alloc) in
        let st := mutate_alloc st (e_Id diff) alloc in
        let st := with_updateTable st
                    (Store.insert (updateTable st) (NewBigmapUpdate op diff)).1 in
        let st := with_allocTable st (Store.update (allocTable st) alloc) in
        Ok (st, tmp)
    | Err _ => Err "etl.bigmap.update: load alloc"
    | Panic => Panic
    end.

(** The body of the loop over the diffs of an operation. *)
Definition apply_diff (block : Block) (op : Op)
    (st : State) (tmp : gmap Z InMemoryBigmap) (diff : BigmapEvent)
  : result (State * gmap Z InMemoryBigmap) :=
  match e_Action diff with
  | DiffActionAlloc => apply_Alloc block op st tmp diff
  | DiffActionCopy => apply_Copy op st tmp diff
  | DiffActionRemove => apply_Remove op st tmp diff
  | DiffActionUpdate => apply_Update op st tmp diff
  end.

Definition apply_diffs (block : Block) (op : Op)
    (st : State) (tmp : gmap Z InMemoryBigmap) (diffs : list BigmapEvent)
  : result (State * gmap Z InMemoryBigmap) :=
  foldl (λ acc diff, '(st, tmp) ← acc; apply_diff block op st tmp diff)
        (Ok (st, tmp)) diffs.

(** The body of the loop over the operations of a block: the scratch map
    is emptied when a non-internal operation comes, and operations
    without events or without success are skipped. *)
Definition apply_op (block : Block)
    (st : State) (tmp : gmap Z InMemoryBigmap) (op : Op)
  : result (State * gmap Z InMemoryBigmap) :=
  let tmp :=
    if negb (op_IsInternal op) && (0 <? Z.of_nat (size tmp)) then ∅ else tmp in
  if (Z.of_nat (length (op_BigmapEvents op)) =? 0) || negb (op_IsSuccess op)
  then Ok (st, tmp)
  else apply_diffs block op st tmp (op_BigmapEvents op).

Definition apply_ops (block : Block)
    (st : State) (tmp : gmap Z InMemoryBigmap) (ops : list Op)
  : result (State * gmap Z InMemoryBigmap) :=
  foldl (λ acc op, '(st, tmp) ← acc; apply_op block st tmp op)
        (Ok (st, tmp)) ops.

(** [BigmapIndex.ConnectBlock]: the scratch map lives for the call. *)
Definition ConnectBlock (st : State) (block : Block) : result State :=
  '(st, _) ← apply_ops block st ∅ (b_Ops block); Ok st.

(** *** Rollback *)

(** [prev] of [DeleteBlock]: the update rows of the same big-map and key
    id with a smaller row id and a height in [[alloc.Height, height]]
    are streamed (in the ascending order a query has without
    [WithDesc]), and the callback keeps the first one whose key hash is
    [hash]. *)
Definition find_prev (st : State) (v : BigmapUpdate) (key : Z) (hash : ExprHash)
    (height : Z) (alloc : BigmapAlloc) : option BigmapUpdate :=
  Store.first_where
    (λ source, u_GetKeyHash source = hash)
    (Store.stream
       (λ u, u_BigmapId u = u_BigmapId v ∧ u_KeyId u = key
             ∧ u_RowId u < u_RowId v
             ∧ u_Height u ≤ height ∧ a_Height alloc ≤ u_Height u)
       (updateTable st)).

(** [live] of [DeleteBlock]: the current live row of the key. *)
Definition find_current (st : State) (v : BigmapUpdate) (key : Z)
    (hash : ExprHash) : option BigmapValue :=
  Store.first_where
    (λ source, v_GetKeyHash source = hash)
    (Store.stream (λ r, v_BigmapId r = u_BigmapId v ∧ v_KeyId r = key)
                  (valueTable st)).

(** The record behind [alloc] is shared by the cache and by the map
    [allocs] of the rollback. *)
Definition mutate_rollback (st : State) (allocs : gmap Z BigmapAlloc)
    (id : Z) (alloc : BigmapAlloc) : State * gmap Z BigmapAlloc :=
  (mutate_alloc st id alloc, <[id := alloc]> allocs).

(** "beware of same-block updates when resetting alloc update" *)
Definition raise_Updated (alloc : BigmapAlloc) (prev : BigmapUpdate)
    (height : Z) : BigmapAlloc :=
  if u_Height prev <? height
  then set_counters alloc (a_NKeys alloc) (a_NUpdates alloc)
                    (Z.max (a_Updated alloc) (u_Height prev)) (a_Deleted alloc)
  else alloc.

Definition add_counters (alloc : BigmapAlloc) (dkeys dupdates : Z) : BigmapAlloc :=
  set_counters alloc (a_NKeys alloc + dkeys) (a_NUpdates alloc + dupdates)
               (a_Updated alloc) (a_Deleted alloc).

(** The body of the loop of [DeleteBlock] over the update rows of the
    block. *)
Definition rollback_step (height : Z)
    (st : State) (allocs : gmap Z BigmapAlloc) (v : BigmapUpdate)
  : result (State * gmap Z BigmapAlloc) :=
  let hash := u_GetKeyHash v in
  let key := GetKeyId (u_BigmapId v) hash in
  let id := u_BigmapId v in
  (* load alloc first *)
  '(alloc, st, allocs) ←
    match allocs !! id with
    | Some alloc => Ok (alloc, st, allocs)
    | None =>
        match loadAlloc st id with
        | Ok (alloc, st) =>
            let alloc := set_counters alloc (a_NKeys alloc) (a_NUpdates alloc)
                                      0 (a_Deleted alloc) in
            let '(st, allocs) := mutate_rollback st allocs id alloc in
            Ok (alloc, st, allocs)
        | Err _ => Err "rollback: missing alloc for bigmap"
        | Panic => Panic
        end
    end;
  let prev := find_prev st v key hash height alloc in
  match u_Action v with
  | DiffActionRemove =>
      match prev with
      | None =>
          Ok (log_msg st "rollback: missing previous update for bigmap", allocs)
      | Some prev =>
          let '(st, alloc) :=
            if decide (u_Action prev ≠ DiffActionUpdate) then
              (* just skip if this was a double remove *)
              (st, add_counters alloc 0 (-1))
            else
              (* remove after update, insert previous live key *)
              (with_valueTable st (Store.insert (valueTable st) (ToKV prev)).1,
               add_counters alloc 1 (-1)) in
          Ok (mutate_rollback st allocs id (raise_Updated alloc prev height))
      end
  | DiffActionUpdate | DiffActionCopy =>
      let live := find_current st v key hash in
      match prev with
      | None =>
          match live with
          | None =>
              Ok (log_msg st "rollback: missing live key in bigmap", allocs)
          | Some live =>
              (* first-time insert, delete current live key *)
              let st := with_valueTable st
                          (Store.delete_ids (valueTable st) [v_RowId live]) in
              Ok (mutate_rollback st allocs id (add_counters alloc (-1) (-1)))
          end
      | Some prev =>
          '(st, alloc) ←
            (if decide (u_Action prev = DiffActionRemove) then
               (* insert after remove: [live.RowId] without a check *)
               match live with
               | None => Panic
               | Some live =>
                   Ok (with_valueTable st
                         (Store.delete_ids (valueTable st) [v_RowId live]),
                       add_counters alloc (-1) (-1))
               end
             else
               match live with
               | None => Err "rollback: missing live key in bigmap"
               | Some live =>
                   (* update after update, replace current live key *)
                   let lastLive := set_row_id (v_RowId live) (ToKV prev) in
                   Ok (with_valueTable st (Store.update (valueTable st) lastLive),
                       add_counters alloc 0 (-1))
               end);
          Ok (mutate_rollback st allocs id (raise_Updated alloc prev height))
      end
  | DiffActionAlloc => Ok (st, allocs)
  end.

(** [BigmapIndex.DeleteBlock]. After the loop the update rows of the
    block are deleted, the allocations collected in [upd] are written
    back — the loop that collects them skips every allocation whose
    height differs from [height] — and the allocations of the block are
    deleted. *)
Definition DeleteBlock (st : State) (height : Z) : result State :=
  let updates := Store.stream_desc (λ u, u_Height u = height) (updateTable st) in
  '(st, allocs) ←
    foldl (λ acc v, '(st, allocs) ← acc; rollback_step height st allocs v)
          (Ok (st, ∅)) updates;
  (* delete all updates at height *)
  let st := with_updateTable st
              (Store.delete_where (λ u, u_Height u = height) (updateTable st)) in
  (* update rolled back allocs *)
  let upd := filter (λ v, ¬ a_Height v ≠ height) (map_to_list allocs).*2 in
  let st := with_allocTable st (Store.update_all (allocTable st) upd) in
  (* delete all allocs from this block *)
  let st := with_allocTable st
              (Store.delete_where (λ a, a_Height a = height) (allocTable st)) in
  Ok st.

(** [BigmapIndex.DisconnectBlock] *)
Definition DisconnectBlock (st : State) (block : Block) : result State :=
  DeleteBlock (with_allocCache st ∅) (b_Height block).

Definition init : State :=
  mkState Store.no_rows Store.no_rows Store.no_rows ∅ [].

(** The conditions under which the rollback of the update row [v] of
    the block [height] accepts the update row [p] as [prev]. *)
Definition prev_candidate (st : State) (v : BigmapUpdate) (height : Z)
    (alloc : BigmapAlloc) (p : BigmapUpdate) : Prop :=
  p ∈ Store.rows (updateTable st)
  ∧ u_BigmapId p = u_BigmapId v
  ∧ u_KeyId p = GetKeyId (u_BigmapId v) (u_GetKeyHash v)
  ∧ u_RowId p < u_RowId v
  ∧ a_Height alloc ≤ u_Height p ≤ height
  ∧ u_GetKeyHash p = u_GetKeyHash v.

(** No temporary big-map in the allocation table, in the live-value
    table or in the allocation cache: every row and every cache entry
    carries a non-negative big-map id. *)
Definition no_temp (st : State) : Prop :=
  Forall (λ a, 0 ≤ a_BigmapId a) (Store.rows (allocTable st))
  ∧ Forall (λ v, 0 ≤ v_BigmapId v) (Store.rows (valueTable st))
  ∧ map_Forall (λ k a, 0 ≤ k ∧ 0 ≤ a_BigmapId a) (allocCache st).

(** The three tables have sound primary keys. *)
Definition store_ok (st : State) : Prop :=
  Store.keys_ok (allocTable st) ∧ Store.keys_ok (updateTable st)
  ∧ Store.keys_ok (valueTable st).

(** The number of live rows of a big-map. *)
Definition live_count (st : State) (id : Z) : Z :=
  Z.of_nat (length (filter (λ v, v_BigmapId v = id)
                           (Store.rows (valueTable st)))).

(** Every allocation row counts the live rows of its big-map. *)
Definition counted (st : State) : Prop :=
  ∀ a, a ∈ Store.rows (allocTable st) → a_NKeys a = live_count st (a_BigmapId a).

(** One allocation row per big-map, and the cache holds rows of the
    table under their big-map id. *)
Definition coherent (st : State) : Prop :=
  store_ok st
  ∧ NoDup (a_BigmapId <$> Store.rows (allocTable st))
  ∧ map_Forall (λ id a, a ∈ Store.rows (allocTable st) ∧ a_BigmapId a = id)
               (allocCache st).

(** A big-map id without allocation row and without live rows. *)
Definition fresh (st : State) (id : Z) : Prop :=
  Forall (λ a, a_BigmapId a ≠ id) (Store.rows (allocTable st))
  ∧ live_count st id = 0.

(** Two states with the same tables and the same log, whatever their
    allocation caches hold. *)
Definition same_tables (st1 st2 : State) : Prop :=
  allocTable st1 = allocTable st2 ∧ updateTable st1 = updateTable st2
  ∧ valueTable st1 = valueTable st2 ∧ logs st1 = logs st2.

(** The key of a live row: its big-map and the hash of its key bytes. *)
Definition key_of (v : BigmapValue) : Z * ExprHash :=
  (v_BigmapId v, v_GetKeyHash v).

(** Every live row is stored under the key id of its key, and no key of
    a big-map has two live rows. *)
Definition keyed (st : State) : Prop :=
  Forall (λ v, v_KeyId v = GetKeyId (v_BigmapId v) (v_GetKeyHash v))
         (Store.rows (valueTable st))
  ∧ NoDup (key_of <$> Store.rows (valueTable st)).

(** A scratch holds every key once. *)
Definition scratch_keyed (bm : InMemoryBigmap) : Prop :=
  NoDup (v_GetKeyHash <$> bm_Live bm).

(** The entry a scratch holds for a key hash: the first one the search
    of its [Live] list meets. *)
Definition scratch_get (bm : InMemoryBigmap) (h : ExprHash)
  : option BigmapValue :=
  snd <$> list_find (λ v, v_GetKeyHash v = h) (bm_Live bm).

(** The [Update] diffs of the block carry the hash of their key. *)
Definition hashed (block : Block) : Prop :=
  ∀ op diff, op ∈ b_Ops block → diff ∈ op_BigmapEvents op →
             e_Action diff = DiffActionUpdate →
             KeyHash (e_Key diff) = e_KeyHash diff.

(** What an update row written for the diff [diff] of the operation
    [op] carries: the height of the operation, and, when its action is
    [Update], the big-map, the key and the value of the diff. *)
Definition added_by (op : Op) (diff : BigmapEvent) (u : BigmapUpdate) : Prop :=
  u_Height u = op_Height op
  ∧ (u_Action u = DiffActionUpdate →
     e_Action diff = DiffActionUpdate ∧ u_BigmapId u = e_Id diff
     ∧ u_KeyId u = GetKeyId (e_Id diff) (e_KeyHash diff)
     ∧ u_Key u = e_Key diff ∧ u_Value u = e_Value diff).

(** An update row written for a diff of a successful operation of the
    block. *)
Definition added_in (block : Block) (u : BigmapUpdate) : Prop :=
  ∃ op diff, op ∈ b_Ops block ∧ op_IsSuccess op = true
             ∧ diff ∈ op_BigmapEvents op ∧ added_by op diff u.

(** The durable big-map a diff creates: the id of an [Alloc], the
    destination of a [Copy], unless it is a temporary. *)
Definition allocates (diff : BigmapEvent) : list Z :=
  match e_Action diff with
  | DiffActionAlloc => if e_Id diff <? 0 then [] else [e_Id diff]
  | DiffActionCopy => if e_DestId diff <? 0 then [] else [e_DestId diff]
  | _ => []
  end.

(** The durable big-maps the successful operations of a block create,
    in the order of the diffs. *)
Definition op_allocates (op : Op) : list Z :=
  if op_IsSuccess op then op_BigmapEvents op ≫= allocates else [].

Definition allocated (block : Block) : list Z := b_Ops block ≫= op_allocates.

(** The durable big-map whose live rows and allocation a diff works on:
    the destination of a [Copy], the big-map of every other diff. *)
Definition target (diff : BigmapEvent) : Z :=
  match e_Action diff with
  | DiffActionCopy => e_DestId diff
  | _ => e_Id diff
  end.

(** The live rows of a big-map, in row-id order. *)
Definition live_rows (st : State) (id : Z) : list BigmapValue :=
  filter (λ v, v_BigmapId v = id) (Store.rows (valueTable st)).

End Engine.
End Index.

(** ** Concrete inputs

    A small instance of the external primitives, on which the engine
    runs by computation: the hash of a key is the sum of its bytes, a
    hash is valid when it is positive, the key id keeps the hash modulo
    4 (so that the keys of hashes 1 and 5 collide), and a type is a code
    with an annotation that unfolding drops. *)
Module Scenario.

#[export] Instance toy_hashing : Hashing := {|
  ExprHash := Z;
  KeyHash k := foldr (λ b n, Z.of_N (Byte.to_N b) + n) 0 k;
  IsValid h := 0 <? h;
  GetKeyId _ h := h mod 4
|}.

#[export] Instance toy_typing : Typing := {|
  Prim := Z * string;
  Typedef := Z;
  Unfold p := p.1
|}.

Definition order_of_map : Cache.range_order := λ m, (map_to_list m).*2.

Definition nat_t : Prim := (1, "").
Definition string_t : Prim := (2, "").

Definition key1 : bytes := [x01].
Definition key5 : bytes := [x05].

Definition ev (action : DiffAction) (id : Z) (key value : bytes) : BigmapEvent :=
  {| e_Action := action; e_Id := id; e_SourceId := 0; e_DestId := 0;
     e_KeyHash := KeyHash key; e_KeyType := nat_t; e_ValueType := string_t;
     e_Key := key; e_Value := value |}.

Definition ev_copy (src dst : Z) : BigmapEvent :=
  {| e_Action := DiffActionCopy; e_Id := dst; e_SourceId := src;
     e_DestId := dst; e_KeyHash := 0; e_KeyType := nat_t;
     e_ValueType := string_t; e_Key := []; e_Value := [] |}.

Definition op_of (height : Z) (internal : bool) (events : list BigmapEvent) : Op :=
  {| op_Height := height; op_IsInternal := internal; op_IsSuccess := true;
     op_BigmapEvents := events; op_Script := Some [] |}.

Definition block_of (height : Z) (ops : list Op) : Block :=
  {| b_Height := height; b_Version := 12; b_Ops := ops |}.

(** Blocks 10 to 12: big-map 1 is allocated, then gets the key of hash 1
    and the key of hash 5, one per block. *)
Definition block10 : Block :=
  block_of 10 [op_of 10 false [ev DiffActionAlloc 1 [] []]].
Definition block11 : Block :=
  block_of 11 [op_of 11 false [ev DiffActionUpdate 1 key1 [x61]]].
Definition key2 : bytes := [x02].
Definition block12_key2 : Block :=
  block_of 12 [op_of 12 false [ev DiffActionUpdate 1 key2 [x62]]].
Definition block12 : Block :=
  block_of 12 [op_of 12 false [ev DiffActionUpdate 1 key5 [x62]]].

(** The state after a sequence of engine calls, from the empty index;
    a failed call leaves the state [None]. *)
Definition run (calls : list (Index.State → result Index.State))
  : option Index.State :=
  foldl (λ st call, st ≫= λ st,
           match call st with Ok st => Some st | _ => None end)
        (Some Index.init) calls.

Definition connect (b : Block) : Index.State → result Index.State :=
  λ st, Index.ConnectBlock st b.
Definition disconnect (b : Block) : Index.State → result Index.State :=
  λ st, Index.DisconnectBlock st b.

(** A block that updates the same key of big-map 1 twice. *)
Definition block11_twice : Block :=
  block_of 11 [op_of 11 false [ev DiffActionUpdate 1 key1 [x61];
                               ev DiffActionUpdate 1 key1 [x62]]].

(** A temporary big-map: allocated by an outer operation, updated by an
    internal one; the next outer operation ends the batch. *)
Definition block_temp : Block :=
  block_of 20 [op_of 20 false [ev DiffActionAlloc (-1) [] []];
               op_of 20 true [ev DiffActionUpdate (-1) key1 [x61]];
               op_of 20 false []].

(** A full-big-map [Remove] (no valid key hash) of the temporary -1,
    for which the block has no scratch. *)
Definition block_clear_missing : Block :=
  block_of 20 [op_of 20 false [ev DiffActionRemove (-1) [] []]].

(** Under protocol 13 a contract whose script declares one big-map with
    annotated types allocates big-map [id] with the bare types. *)
Definition annotated_script : list (Prim * Prim) := [((1, "%key"), (2, "%val"))].

Definition block_alloc13 (id : Z) : Block :=
  {| b_Height := 30; b_Version := 13;
     b_Ops := [ {| op_Height := 30; op_IsInternal := false;
                   op_IsSuccess := true;
                   op_BigmapEvents := [ev DiffActionAlloc id [] []];
                   op_Script := Some annotated_script |} ] |}.

(** A snapshot of two pairs, and a cache that holds one snapshot of
    big-map 1, at height 0. *)
Definition two_pairs : Cache.BigmapHistory :=
  Cache.pack 1 12 [mkValue 0 1 11 1 key1 [x61]; mkValue 0 1 12 1 key5 [x62]].

Definition cache_at_0 : gmap Z Cache.BigmapHistory :=
  {[ Cache.makeKey 1 0 := Cache.pack 1 0 [] ]}.

Definition cache_at_7 : gmap Z Cache.BigmapHistory :=
  {[ Cache.makeKey 1 7 := two_pairs ]}.

(** The update log that the blocks 10 and 11, a second key in block 12
    and the removal of the first key in block 13 leave. *)
Definition block13 : Block :=
  block_of 13 [op_of 13 false [ev DiffActionRemove 1 key1 []]].

Definition log_10_13 : list BigmapUpdate :=
  match run [connect block10; connect block11; connect block12_key2;
             connect block13] with
  | Some st => Store.rows (Index.updateTable st)
  | None => []
  end.

Definition state_after (calls : list (Index.State → result Index.State))
  : Index.State :=
  default Index.init (run calls).

(** The engine state in which big-map 1 holds the key of hash 1, and the
    diff that adds the colliding key of hash 5. *)
Definition st_11 : Index.State := state_after [connect block10; connect block11].
Definition st_12 : Index.State :=
  state_after [connect block10; connect block11; connect block12].
Definition op12 : Op := op_of 12 false [ev DiffActionUpdate 1 key5 [x62]].
Definition diff_key5 : BigmapEvent := ev DiffActionUpdate 1 key5 [x62].

(** The state after the block that updates one key twice, with its
    allocation record and its last update row. *)
Definition st_twice : Index.State :=
  state_after [connect block10; connect block11_twice].
Definition alloc_1 : BigmapAlloc := mkAlloc 1 1 10 3 1 11 0 nat_t string_t.
Definition row_2 : BigmapUpdate := mkUpdate 2 1 1 DiffActionUpdate 11 key1 [x61] 0.
Definition row_3 : BigmapUpdate := mkUpdate 3 1 1 DiffActionUpdate 11 key1 [x62] 0.

(** The two pairs of the snapshot [two_pairs]. *)
Definition live_pairs : list BigmapValue :=
  [mkValue 0 1 11 1 key1 [x61]; mkValue 0 1 12 1 key5 [x62]].

(** The state an engine call leaves; the empty index if it fails. *)
Definition after (r : result Index.State) : Index.State :=
  match r with Ok st => st | _ => Index.init end.

Definition after_diff (r : result (Index.State * gmap Z Index.InMemoryBigmap))
  : Index.State :=
  match r with Ok (st, _) => st | _ => Index.init end.

(** Block 12 taken back from the state [st_12]. *)
Definition st_12_rolled : Index.State :=
  after (Index.DisconnectBlock st_12 block12).

(** A second big-map: block 12 allocates big-map 2 and gives it the key
    of hash 1; block 13 then removes that key from big-map 1. *)
Definition diff_alloc2 : BigmapEvent := ev DiffActionAlloc 2 [] [].
Definition diff_key1_of2 : BigmapEvent := ev DiffActionUpdate 2 key1 [x61].
Definition block12_alloc2 : Block :=
  block_of 12 [op_of 12 false [diff_alloc2; diff_key1_of2]].
Definition st_two : Index.State :=
  state_after [connect block10; connect block11; connect block12_alloc2].
Definition diff_remove_key1 : BigmapEvent := ev DiffActionRemove 1 key1 [].
Definition op13 : Op := op_of 13 false [diff_remove_key1].
Definition st_two_13 : Index.State := after (Index.ConnectBlock st_two block13).
Definition st_two_rolled : Index.State :=
  after (Index.DeleteBlock st_two_13 13).

(** The removal of big-map 1 as a whole, and its copy into big-map 3,
    from the state in which it holds the keys of hash 1 and 2. *)
Definition st_12_key2 : Index.State :=
  state_after [connect block10; connect block11; connect block12_key2].
Definition diff_clear1 : BigmapEvent := ev DiffActionRemove 1 [] [].
Definition diff_copy_1_3 : BigmapEvent := ev_copy 1 3.
Definition st_cleared : Index.State :=
  after_diff (Index.apply_diff block13 op13 st_12_key2 ∅ diff_clear1).
Definition st_copied : Index.State :=
  after_diff (Index.apply_diff block13 op13 st_12_key2 ∅ diff_copy_1_3).
Definition st_removed : Index.State :=
  after_diff (Index.apply_diff block13 op13 st_12_key2 ∅ diff_remove_key1).

(** A block whose operations failed or carry no event. *)
Definition block_failed : Block :=
  block_of 14 [ {| op_Height := 14; op_IsInternal := false;
                   op_IsSuccess := false;
                   op_BigmapEvents := [ev DiffActionUpdate 9 key1 [x61]];
                   op_Script := None |};
                op_of 14 true [] ].

(** An [Update] of the temporary -1 that no operation has allocated:
    the scratch map is empty. *)
Definition diff_temp_update : BigmapEvent := ev DiffActionUpdate (-1) key1 [x61].
Definition no_scratch : gmap Z Index.InMemoryBigmap := ∅.

(** The scratch of the temporary -1 as its [Alloc] leaves it, and after
    the [Update] of the key of hash 1; the [Remove] of that key. *)
Definition op20 : Op := op_of 20 true [diff_temp_update].
Definition scratch_alloc : Index.InMemoryBigmap :=
  Index.NewInMemoryBigmap
    (NewBigmapAlloc (op_of 20 false []) (ev DiffActionAlloc (-1) [] [])).
Definition scratch_new : gmap Z Index.InMemoryBigmap :=
  {[ -1 := scratch_alloc ]}.
Definition scratch_key1 : Index.InMemoryBigmap :=
  match Index.apply_diff block_temp op20 Index.init scratch_new
                         diff_temp_update with
  | Ok (_, tmp) => default scratch_alloc (tmp !! (-1))
  | _ => scratch_alloc
  end.
Definition scratch_held : gmap Z Index.InMemoryBigmap :=
  {[ -1 := scratch_key1 ]}.
Definition diff_temp_remove : BigmapEvent := ev DiffActionRemove (-1) key1 [].

(** The state after the blocks 10 and 11 with a purged cache. *)
Definition st_11_purged : Index.State := Index.with_allocCache st_11 ∅.

(** The operation and the diff of the block [block_alloc13 1]. *)
Definition diff_alloc1 : BigmapEvent := ev DiffActionAlloc 1 [] [].
Definition op_alloc13 : Op :=
  {| op_Height := 30; op_IsInternal := false; op_IsSuccess := true;
     op_BigmapEvents := [diff_alloc1]; op_Script := Some annotated_script |}.

End Scenario.

(** ** Properties of the history snapshots *)

Module CacheProps.
Import Cache.

Lemma wf_offsets_length ks vs len :
  wf_offsets ks vs len = true → length ks = length vs.
Proof.
  revert vs; induction ks as [|k ks IH]; intros [|v vs]; simpl; try done.
  intros Hw. repeat (apply andb_prop in Hw as [Hw ?]). f_equal. by apply IH.
Qed.

Lemma wf_offsets_lookup ks vs len i k v :
  wf_offsets ks vs len = true →
  ks !! i = Some k → vs !! i = Some v →
  0 ≤ k ∧ k ≤ v ∧ v ≤ len.
Proof.
  revert vs i; induction ks as [|k0 ks IH]; intros [|v0 vs] i; simpl; try done.
  intros Hw. apply andb_prop in Hw as [Hw Hrec].
  apply andb_prop in Hw as [Hw _].
  repeat (apply andb_prop in Hw as [Hw ?]).
  destruct i as [|i]; simpl.
  - intros [= <-] [= <-]. lia.
  - intros Hk Hv. by eapply IH.
Qed.

Lemma wf_offsets_next ks vs len i v k' :
  wf_offsets ks vs len = true →
  vs !! i = Some v → ks !! S i = Some k' → v ≤ k' ∧ k' ≤ len.
Proof.
  revert vs i; induction ks as [|k0 ks IH]; intros [|v0 vs] i; simpl; try done.
  intros Hw. apply andb_prop in Hw as [Hw Hrec].
  apply andb_prop in Hw as [Hw Hnext].
  destruct i as [|i]; simpl.
  - intros [= <-] Hk. destruct ks as [|k1 ks]; simplify_eq/=.
    destruct vs as [|v1 vs]; [done|].
    pose proof (wf_offsets_lookup (k' :: ks) (v1 :: vs) len 0 k' v1 Hrec
                  eq_refl eq_refl). lia.
  - intros Hv Hk. by eapply IH.
Qed.

Section SnapshotProps.
Context `{Hashing}.

Lemma index_Some {A} (l : list A) i x :
  0 ≤ i → l !! Z.to_nat i = Some x → index l i = Some x.
Proof. intros Hi Hl. unfold index. by rewrite (proj2 (Z.ltb_ge i 0) Hi). Qed.

Lemma slice_Some d a b :
  0 ≤ a → a ≤ b → b ≤ Z.of_nat (length d) → is_Some (slice d a b).
Proof.
  intros. unfold slice.
  rewrite (proj2 (Z.leb_le 0 a)), (proj2 (Z.leb_le a b)),
    (proj2 (Z.leb_le b _)) by done. by eexists.
Qed.

(** Within a well-formed snapshot every index decodes. *)
Lemma Get_item_is_Some h j :
  wf_hist h = true → 0 ≤ j < Len h → is_Some (Get_item h j).
Proof.
  unfold wf_hist, Len. intros Hw [Hj0 Hj].
  pose proof (wf_offsets_length _ _ _ Hw) as Hlen.
  destruct (lookup_lt_is_Some_2 (KeyOffsets h) (Z.to_nat j)) as [k Hk]; [lia|].
  destruct (lookup_lt_is_Some_2 (ValueOffsets h) (Z.to_nat j)) as [v Hv]; [lia|].
  destruct (wf_offsets_lookup _ _ _ _ _ _ Hw Hk Hv) as (?&?&?).
  unfold Get_item, Len.
  rewrite (index_Some _ _ _ Hj0 Hk), (index_Some _ _ _ Hj0 Hv). simpl.
  destruct (j <? _ - 1) eqn:Hlast.
  - apply Z.ltb_lt in Hlast.
    destruct (lookup_lt_is_Some_2 (KeyOffsets h) (S (Z.to_nat j))) as [k' Hk'];
      [lia|].
    destruct (wf_offsets_next _ _ _ _ _ _ Hw Hv Hk') as [? ?].
    rewrite (index_Some _ (j + 1) k') by (rewrite ?Z2Nat.inj_add; try lia;
      by replace (Z.to_nat j + Z.to_nat 1)%nat with (S (Z.to_nat j)) by lia).
    simpl.
    destruct (slice_Some (Data h) k v) as [? ->]; [lia..|]. simpl.
    destruct (slice_Some (Data h) v k') as [? ->]; [lia..|]. by eexists.
  - simpl.
    destruct (slice_Some (Data h) k v) as [? ->]; [lia..|]. simpl.
    destruct (slice_Some (Data h) v (Z.of_nat (length (Data h)))) as [? ->];
      [lia..|]. by eexists.
Qed.

(** Below the last index the loop body of [Range] decodes like [Get]. *)
Lemma Range_item_Get_item h from i :
  i + from < Len h - 1 → Range_item h from i = Get_item h (i + from).
Proof.
  intros Hi. unfold Range_item, Get_item, Len in *.
  rewrite (proj2 (Z.ltb_lt (i + from) (Z.of_nat (length (KeyOffsets h)))))
    by lia.
  by rewrite (proj2 (Z.ltb_lt (i + from) (Z.of_nat (length (KeyOffsets h)) - 1)))
    by lia.
Qed.

Lemma Get_item_RowId h j it : Get_item h j = Some it → v_RowId it = j + 1.
Proof.
  unfold Get_item. intros Hg.
  repeat (match type of Hg with
          | (?m ≫= _) = Some _ => destruct m; simpl in Hg; [|done]
          end).
  by injection Hg as <-.
Qed.

(** C10. For a well-formed snapshot with [n >= 1] entries and a
    non-negative [from], [Range(from, to)] with [to < 0] or [to >= n]
    clamps [to] to [n-1] and returns exactly the entries of the indices
    [from .. n-2], each decoded as [Get] decodes it: the last pair of the
    snapshot (row id [n]) is never among them, and a snapshot of one
    entry yields the empty result. *)
Theorem Range_clamped_drops_last h from to :
  wf_hist h = true → 1 ≤ Len h → 0 ≤ from → (to < 0 ∨ Len h ≤ to) →
  ∃ items,
    Range h from to = Some items ∧
    length items = Z.to_nat (Len h - 1 - from) ∧
    (∀ j, 0 ≤ j < Len h - 1 - from →
          items !! Z.to_nat j = Get_item h (from + j) ∧
          is_Some (Get_item h (from + j))) ∧
    (∀ it, it ∈ items → from < v_RowId it < Len h) ∧
    (Len h = 1 → items = []).
Proof.
  intros Hw Hn Hfrom Hto. unfold Range.
  assert ((to <? 0) || (Len h <=? to) = true) as ->.
  { apply orb_true_iff. destruct Hto; [left; by apply Z.ltb_lt|right; by apply Z.leb_le]. }
  destruct (Len h - 1 <=? from) eqn:Hle.
  - apply Z.leb_le in Hle. exists []. split_and!; try done.
    + simpl. lia.
    + intros j Hj. lia.
    + intros it Hit. by apply elem_of_nil in Hit.
  - apply Z.leb_gt in Hle.
    assert (Forall (λ i, is_Some (Range_item h from i))
              (seqZ 0 (Len h - 1 - from))) as Hall.
    { apply Forall_forall. intros i Hi. apply elem_of_seqZ in Hi.
      rewrite Range_item_Get_item by lia. apply Get_item_is_Some; [done|lia]. }
    destruct (mapM_is_Some_2 _ _ Hall) as [items Hitems].
    exists items. rewrite Hitems.
    apply mapM_Some in Hitems.
    pose proof (Forall2_length _ _ _ Hitems) as Hlen.
    rewrite length_seqZ in Hlen.
    assert (∀ j, 0 ≤ j < Len h - 1 - from →
              items !! Z.to_nat j = Get_item h (from + j)) as Hlook.
    { intros j Hj.
      assert (seqZ 0 (Len h - 1 - from) !! Z.to_nat j = Some j) as Hs.
      { rewrite lookup_seqZ. split; lia. }
      destruct (Forall2_lookup_l _ _ _ _ _ Hitems Hs) as (it & Hit & Hr).
      rewrite Hit, <- Hr, Range_item_Get_item by lia. f_equal. lia. }
    split_and!; try done.
    + intros j Hj. split; [by apply Hlook|].
      apply Get_item_is_Some; [done|lia].
    + intros it Hit. apply list_elem_of_lookup in Hit as [n Hn'].
      pose proof (lookup_lt_Some _ _ _ Hn') as Hlt.
      specialize (Hlook (Z.of_nat n)). rewrite Nat2Z.id, Hn' in Hlook.
      symmetry in Hlook. apply Get_item_RowId in Hlook; lia.
    + intros H1. lia.
Qed.

End SnapshotProps.
(** *** The packed cache key *)

Lemma wrap_i64_id z : - 2 ^ 63 ≤ z < 2 ^ 63 → wrap_i64 z = z.
Proof. intros Hz. unfold wrap_i64. rewrite Z.mod_small; lia. Qed.

(** Within the 32-bit packing range the key is [id * 2^32 + height]. *)
Lemma makeKey_add id height :
  - 2 ^ 31 ≤ id < 2 ^ 31 → 0 ≤ height < 2 ^ 32 →
  makeKey id height = id * 2 ^ 32 + height.
Proof.
  intros Hid Hh. unfold makeKey.
  rewrite Z.shiftl_mul_pow2 by lia. rewrite wrap_i64_id by lia.
  rewrite <- Z.lxor_lor, <- Z.add_nocarry_lxor; try done.
  all: apply Z.bits_inj'; intros n Hn; rewrite Z.land_spec, Z.bits_0.
  all: destruct (Z.lt_ge_cases n 32).
  all: try (rewrite Z.mul_pow2_bits_low by lia; done).
  all: rewrite (Z.bits_above_log2 height n), andb_false_r; try done; try lia.
  all: destruct (Z.eq_dec height 0) as [->|]; [simpl; lia|].
  all: apply Z.lt_le_trans with 32; [|lia]; apply Z.log2_lt_pow2; lia.
Qed.

Lemma makeKey_id id height :
  - 2 ^ 31 ≤ id < 2 ^ 31 → 0 ≤ height < 2 ^ 32 →
  Z.shiftr (makeKey id height) 32 = id.
Proof.
  intros Hid Hh. rewrite makeKey_add by done.
  rewrite Z.shiftr_div_pow2 by lia.
  rewrite Z.div_add_l by lia. rewrite Z.div_small; lia.
Qed.

Lemma makeKey_height id height :
  - 2 ^ 31 ≤ id < 2 ^ 31 → 0 ≤ height < 2 ^ 32 →
  Z.land (makeKey id height) 4294967295 = height.
Proof.
  intros Hid Hh. rewrite makeKey_add by done.
  change 4294967295 with (Z.ones 32). rewrite Z.land_ones by lia.
  rewrite Z.add_comm, Z.mod_add by lia. apply Z.mod_small; lia.
Qed.

(** Every key whose upper part is [id] is the packed key of [id] and of
    its lower 32 bits. *)
Lemma key_unpack v id :
  - 2 ^ 31 ≤ id < 2 ^ 31 → Z.shiftr v 32 = id →
  0 ≤ Z.land v 4294967295 < 2 ^ 32 ∧ makeKey id (Z.land v 4294967295) = v.
Proof.
  intros Hid Hv. change 4294967295 with (Z.ones 32).
  rewrite Z.land_ones by lia.
  pose proof (Z.mod_pos_bound v (2 ^ 32) ltac:(lia)) as Hm.
  split; [lia|]. rewrite makeKey_add by lia.
  rewrite Z.shiftr_div_pow2 in Hv by lia. subst id.
  pose proof (Z.div_mod v (2 ^ 32) ltac:(lia)). lia.
Qed.

(** What the scan of [GetBest] computes: the greatest lower part among
    the keys of [id] that are at most [height], or its start value. *)
Lemma GetBest_scan_spec id height keys b0 :
  let r := GetBest_scan id height b0 keys in
  b0 ≤ r ∧
  (r = b0 ∨ ∃ v, v ∈ keys ∧ Z.shiftr v 32 = id ∧
                 Z.land v 4294967295 = r ∧ r ≤ height) ∧
  (∀ v, v ∈ keys → Z.shiftr v 32 = id → Z.land v 4294967295 ≤ height →
        Z.land v 4294967295 ≤ r).
Proof.
  revert b0. induction keys as [|k keys IH]; intros b0; cbn zeta.
  - unfold GetBest_scan; cbn [foldl].
    split_and!; [lia|by left|]. intros v Hv. by apply elem_of_nil in Hv.
  - unfold GetBest_scan; cbn [foldl].
    set (b1 := GetBest_step id height b0 k).
    destruct (IH b1) as (Hge & Hwit & Hmax). unfold GetBest_scan in *.
    set (r := foldl (GetBest_step id height) b1 keys) in *.
    assert (b0 ≤ b1 ∧
            (b1 = b0 ∨ (Z.shiftr k 32 = id ∧ Z.land k 4294967295 = b1
                        ∧ b1 ≤ height)) ∧
            (Z.shiftr k 32 = id → Z.land k 4294967295 ≤ height →
             Z.land k 4294967295 ≤ b1)) as (Hb & Hb1 & Hbk).
    { subst b1. unfold GetBest_step.
      generalize (Z.land k 4294967295). intros kh.
      destruct (decide _) as [Hne|Heq].
      - split_and!; [lia|by left|done].
      - apply dec_stable in Heq. cbn zeta.
        destruct (height <? kh) eqn:E1;
          [apply Z.ltb_lt in E1|apply Z.ltb_ge in E1].
        + split_and!; [lia|by left|lia].
        + destruct (b0 <? kh) eqn:E2;
            [apply Z.ltb_lt in E2|apply Z.ltb_ge in E2].
          * split_and!; [lia|by right|lia].
          * split_and!; [lia|by left|lia]. }
    clearbody r b1. split_and!.
    + lia.
    + destruct Hwit as [->|(v & Hv & ?)].
      * destruct Hb1 as [->|(?&?&?)]; [by left|].
        right. exists k. split_and!; try done. apply elem_of_cons; by left.
      * right. exists v. split; [apply elem_of_cons; by right|done].
    + intros v Hv Hid Hle. apply elem_of_cons in Hv as [->|Hv].
      * specialize (Hbk Hid Hle). lia.
      * by apply Hmax.
Qed.

Lemma elem_of_Keys (c : gmap Z BigmapHistory) v :
  v ∈ Keys c ↔ is_Some (c !! v).
Proof.
  unfold Keys. rewrite list_elem_of_fmap. split.
  - intros ([k x] & -> & Hin). apply elem_of_map_to_list in Hin. by eexists.
  - intros [x Hx]. exists (v, x). split; [done|]. by apply elem_of_map_to_list.
Qed.

(** A snapshot cached for [id] at an in-range height bounds the scan. *)
Lemma GetBest_scan_cached c id height h :
  - 2 ^ 31 ≤ id < 2 ^ 31 → 0 ≤ h < 2 ^ 32 → h ≤ height →
  is_Some (Get c id h) → h ≤ GetBest_scan id height 0 (Keys c).
Proof.
  intros Hid Hh Hle Hc.
  destruct (GetBest_scan_spec id height (Keys c) 0) as (_ & _ & Hmax).
  specialize (Hmax (makeKey id h)).
  rewrite makeKey_id, makeKey_height in Hmax by done.
  apply Hmax; [by apply elem_of_Keys|done|done].
Qed.

(** A non-zero scan result is the height of a cached snapshot of [id]. *)
Lemma GetBest_scan_hit c id height :
  - 2 ^ 31 ≤ id < 2 ^ 31 →
  let r := GetBest_scan id height 0 (Keys c) in
  r ≠ 0 → 0 < r < 2 ^ 32 ∧ r ≤ height ∧ is_Some (Get c id r).
Proof.
  intros Hid r Hr.
  destruct (GetBest_scan_spec id height (Keys c) 0) as (Hge & Hwit & _).
  fold r in Hge, Hwit. destruct Hwit as [?|(v & Hv & Hv32 & Hland & Hle)]; [done|].
  destruct (key_unpack v id Hid Hv32) as [Hrange Hkey].
  rewrite Hland in Hrange, Hkey. split_and!; [lia|lia|done|].
  unfold Get. rewrite Hkey. by apply elem_of_Keys.
Qed.

(** C9, as the code has it. For a big-map id within the 32-bit packing
    range of the cache key, [GetBest] returns the cached snapshot of the
    greatest cached height [h] with [0 < h <= height], and it misses
    exactly when no snapshot of that id is cached at such a height: the
    scan starts from the height 0 and takes a result of 0 for a miss, so
    a snapshot cached at height 0 is never returned. *)
Theorem GetBest_greatest_positive (c : gmap Z BigmapHistory) id height :
  - 2 ^ 31 ≤ id < 2 ^ 31 →
  (GetBest c id height = None ↔
     ∀ h, 0 < h < 2 ^ 32 → h ≤ height → Get c id h = None) ∧
  (∀ hist, GetBest c id height = Some hist ↔
     ∃ h, 0 < h < 2 ^ 32 ∧ h ≤ height ∧ Get c id h = Some hist ∧
          ∀ h', 0 < h' < 2 ^ 32 → h' ≤ height → is_Some (Get c id h') →
                h' ≤ h).
Proof.
  intros Hid. unfold GetBest.
  pose proof (GetBest_scan_hit c id height Hid) as Hhit.
  pose proof (λ h, GetBest_scan_cached c id height h Hid) as Hmax.
  cbn zeta in *. set (r := GetBest_scan id height 0 (Keys c)) in *.
  clearbody r. destruct (r =? 0) eqn:Hr0.
  - apply Z.eqb_eq in Hr0. subst r. clear Hhit. split.
    + split; [|done]. intros _ h Hh Hle.
      destruct (Get c id h) eqn:Hg; [|done].
      specialize (Hmax h ltac:(lia) Hle ltac:(by eexists)). lia.
    + intros hist. split; [done|]. intros (h & Hh & Hle & Hg & _).
      specialize (Hmax h ltac:(lia) Hle ltac:(by eexists)). lia.
  - apply Z.eqb_neq in Hr0.
    destruct (Hhit Hr0) as (Hr & Hle & [x Hx]). split.
    + rewrite Hx. split; [done|]. intros Hnone.
      specialize (Hnone r Hr Hle). congruence.
    + intros hist. rewrite Hx. split.
      * intros [= <-]. exists r. do 3 (split; [done|]).
        intros h' Hh' Hle' Hc. apply Hmax; [lia|done|done].
      * intros (h & Hh & Hleh & Hg & Hgreat).
        assert (h = r) as ->; [|congruence].
        specialize (Hmax h ltac:(lia) Hleh ltac:(by eexists)).
        specialize (Hgreat r Hr Hle ltac:(by eexists)). lia.
Qed.

(** *** Packing and unpacking a snapshot *)

Lemma data_size_nonneg l : 0 ≤ data_size l.
Proof. induction l; simpl; unfold kv_size in *; lia. Qed.

Lemma data_size_app l1 l2 : data_size (l1 ++ l2) = data_size l1 + data_size l2.
Proof. induction l1; simpl; lia. Qed.

Lemma length_flat l : Z.of_nat (length (flat l)) = data_size l.
Proof.
  unfold flat. induction l as [|v l IH]; [done|].
  cbn [mbind list_bind data_size foldr]. fold (data_size l).
  rewrite !length_app. unfold kv_size. lia.
Qed.

Lemma flat_app l1 l2 : flat (l1 ++ l2) = flat l1 ++ flat l2.
Proof. unfold flat. by rewrite bind_app. Qed.

Lemma data_size_payload l1 l2 :
  payload <$> l1 ≡ₚ payload <$> l2 → data_size l1 = data_size l2.
Proof.
  assert (∀ l, data_size l =
               foldr (λ p n, Z.of_nat (length p.1) + Z.of_nat (length p.2) + n)
                     0 (payload <$> l)) as Hd.
  { induction l as [|v l IH]; [done|].
    rewrite fmap_cons. cbn [data_size foldr]. fold (data_size l).
    rewrite IH. unfold kv_size, payload. cbn [fst snd]. lia. }
  intros Hp. rewrite !Hd. revert Hp.
  generalize (payload <$> l1) (payload <$> l2). intros a b Hp.
  induction Hp; simpl; lia.
Qed.

(** The loop of [pack] lays the pairs out one after the other. *)
Lemma foldl_pack_step l ks vs d :
  foldl pack_step (ks, vs, d) l =
  (ks ++ key_offsets (Z.of_nat (length d)) l,
   vs ++ value_offsets (Z.of_nat (length d)) l,
   d ++ flat l).
Proof.
  revert ks vs d. induction l as [|v l IH]; intros ks vs d.
  - simpl. by rewrite !app_nil_r.
  - cbn [foldl pack_step]. rewrite IH.
    cbn [key_offsets value_offsets]. unfold flat; cbn [mbind list_bind].
    rewrite !length_app, <- !app_assoc. cbn [app].
    unfold kv_size.
    replace (Z.of_nat (length d + length (v_Key v) + length (v_Value v))%nat)
      with (Z.of_nat (length d) +
            (Z.of_nat (length (v_Key v)) + Z.of_nat (length (v_Value v))))
      by lia.
    by replace (Z.of_nat (length d + length (v_Key v))%nat)
      with (Z.of_nat (length d) + Z.of_nat (length (v_Key v))) by lia.
Qed.

Lemma pack_eq id height l :
  pack id height l =
  {| BigmapId := id; Height := height;
     KeyOffsets := key_offsets 0 l; ValueOffsets := value_offsets 0 l;
     Data := flat l |}.
Proof. unfold pack. by rewrite foldl_pack_step. Qed.

Lemma length_key_offsets n l : length (key_offsets n l) = length l.
Proof. revert n; induction l; intros; simpl; [done|]. by rewrite IHl. Qed.

Lemma key_offsets_lookup n l i :
  (i < length l)%nat →
  key_offsets n l !! i = Some (wrap_u32 (n + data_size (take i l))).
Proof.
  revert n i. induction l as [|v l IH]; intros n i Hi; simpl in Hi; [lia|].
  destruct i as [|i]; simpl.
  - by rewrite Z.add_0_r.
  - rewrite IH by lia. do 2 f_equal. lia.
Qed.

Lemma value_offsets_lookup n l i v :
  l !! i = Some v →
  value_offsets n l !! i =
  Some (wrap_u32 (n + data_size (take i l) + Z.of_nat (length (v_Key v)))).
Proof.
  revert n i. induction l as [|v0 l IH]; intros n i Hi; [done|].
  destruct i as [|i]; simpl in *.
  - injection Hi as ->. by rewrite Z.add_0_r.
  - rewrite (IH _ _ Hi). do 2 f_equal. lia.
Qed.

Lemma slice_middle (p x q : bytes) :
  slice (p ++ x ++ q) (Z.of_nat (length p))
        (Z.of_nat (length p) + Z.of_nat (length x)) = Some x.
Proof.
  unfold slice.
  rewrite (proj2 (Z.leb_le 0 _)), (proj2 (Z.leb_le (Z.of_nat (length p)) _))
    by lia.
  rewrite (proj2 (Z.leb_le _ _)) by (rewrite !length_app; lia).
  cbn [andb]. f_equal.
  rewrite Nat2Z.id, drop_app_length.
  replace (Z.to_nat _) with (length x) by lia.
  by rewrite take_app_length.
Qed.

Lemma slice_at (d p x q : bytes) a b :
  d = p ++ x ++ q → a = Z.of_nat (length p) → b = a + Z.of_nat (length x) →
  slice d a b = Some x.
Proof. intros -> -> ->. apply slice_middle. Qed.

Lemma wrap_u32_id z : 0 ≤ z < 2 ^ 32 → wrap_u32 z = z.
Proof. intros. unfold wrap_u32. by apply Z.mod_small. Qed.

(** *** Splitting the scan of an ascending log *)

Lemma ascending_cons x l :
  ascending (x :: l) = true → Forall (λ y, x ≤ y) l ∧ ascending l = true.
Proof.
  revert x. induction l as [|y l IH]; intros x Hx; [done|].
  cbn [ascending] in Hx. apply andb_prop in Hx as [Hxy Hl].
  apply Z.leb_le in Hxy. destruct (IH y Hl) as [Hall _].
  split; [|done]. apply Forall_cons. split; [done|].
  eapply Forall_impl; [done|]. intros z Hz. simpl in Hz. lia.
Qed.

Lemma Build_query_above log id h x :
  Forall (λ y, x ≤ y) (u_Height <$> filter (λ u, u_BigmapId u = id) log) →
  h < x → Build_query log id h = [].
Proof.
  intros Hall Hh. unfold Build_query.
  induction log as [|u log IH]; [done|].
  rewrite filter_cons in Hall. rewrite filter_cons.
  destruct (decide (u_BigmapId u = id)) as [Hid|Hid].
  - rewrite fmap_cons in Hall. apply Forall_cons in Hall as [Hu Hall].
    rewrite decide_False by (intros [_ ?]; lia). by apply IH.
  - rewrite decide_False by (by intros [? _]). by apply IH.
Qed.

(** On an ascending log the scan up to [h2] is the scan up to [h1]
    followed by the scan of the heights in [(h1, h2]]. *)
Lemma Build_query_split log id h1 h2 :
  log_ascending id log = true → h1 ≤ h2 →
  Build_query log id h2 = Build_query log id h1 ++ Update_query log id h1 h2.
Proof.
  unfold log_ascending. intros Hasc Hh.
  induction log as [|u log IH]; [done|].
  rewrite filter_cons in Hasc.
  destruct (decide (u_BigmapId u = id)) as [Hid|Hid].
  - rewrite fmap_cons in Hasc.
    apply ascending_cons in Hasc as [Hall Hasc]. specialize (IH Hasc).
    pose proof (Build_query_above log id h1 (u_Height u) Hall) as Hnil.
    unfold Build_query, Update_query in *. rewrite !filter_cons.
    repeat case_decide; try (exfalso; lia).
    + by rewrite IH.
    + rewrite Hnil in * by lia. by rewrite IH.
    + done.
  - specialize (IH Hasc).
    unfold Build_query, Update_query in *. rewrite !filter_cons.
    repeat case_decide; try (exfalso; lia). done.
Qed.

Section RollProps.
Context `{Hashing}.

(** Round trip of one entry: below 4 GiB the offsets do not wrap and
    every packed pair decodes to itself. *)
Lemma Get_item_pack id height l i v :
  data_size l < 2 ^ 32 → l !! i = Some v →
  Get_item (pack id height l) (Z.of_nat i) = Some (decoded id i v).
Proof.
  intros Hsz Hv. rewrite pack_eq. unfold Get_item, Len.
  cbn [KeyOffsets ValueOffsets Data BigmapId].
  pose proof (lookup_lt_Some _ _ _ Hv) as Hi.
  pose proof (take_drop_middle _ _ _ Hv) as Hl.
  set (p := take i l) in *. set (q := drop (S i) l) in *.
  assert (data_size l = data_size p + kv_size v + data_size q) as Hds.
  { rewrite <- Hl, data_size_app. simpl. lia. }
  pose proof (data_size_nonneg p). pose proof (data_size_nonneg q).
  assert (0 ≤ kv_size v ∧ 0 ≤ Z.of_nat (length (v_Key v)) ≤ kv_size v)
    as [? ?] by (unfold kv_size; lia).
  assert (flat l = flat p ++ v_Key v ++ v_Value v ++ flat q) as Hflat.
  { rewrite <- Hl, flat_app. unfold flat at 2. cbn [mbind list_bind].
    by rewrite <- !app_assoc. }
  rewrite (index_Some (key_offsets 0 l) (Z.of_nat i)
             (wrap_u32 (0 + data_size p)))
    by first [lia | rewrite Nat2Z.id; by apply key_offsets_lookup].
  rewrite (index_Some (value_offsets 0 l) (Z.of_nat i)
             (wrap_u32 (0 + data_size p + Z.of_nat (length (v_Key v)))))
    by first [lia | rewrite Nat2Z.id; by apply value_offsets_lookup].
  rewrite !wrap_u32_id by lia. cbn [mbind option_bind].
  rewrite length_key_offsets.
  assert ((if Z.of_nat i <? Z.of_nat (length l) - 1
           then index (key_offsets 0 l) (Z.of_nat i + 1)
           else Some (Z.of_nat (length (flat l))))
          = Some (data_size p + kv_size v)) as ->.
  { destruct (_ <? _) eqn:Hlast.
    - apply Z.ltb_lt in Hlast.
      rewrite (index_Some _ _ (wrap_u32 (0 + data_size (take (S i) l)))).
      + rewrite (take_S_r _ _ _ Hv), data_size_app. fold p. simpl.
        rewrite wrap_u32_id; [f_equal; lia|].
        destruct q as [|v' q]; [|simpl in *; unfold kv_size in *; lia].
        simpl in *. lia.
      + lia.
      + replace (Z.to_nat (Z.of_nat i + 1)) with (S i) by lia.
        apply key_offsets_lookup. lia.
    - apply Z.ltb_ge in Hlast. rewrite length_flat. f_equal.
      assert (q = []) as Hq.
      { subst q. apply drop_ge. lia. }
      rewrite Hq in Hds. simpl in Hds. lia. }
  cbn [mbind option_bind].
  rewrite (slice_at (flat l) (flat p) (v_Key v) (v_Value v ++ flat q)
             (0 + data_size p)
             (0 + data_size p + Z.of_nat (length (v_Key v))));
    [|done|rewrite length_flat; lia|lia].
  cbn [mbind option_bind].
  rewrite (slice_at (flat l) (flat p ++ v_Key v) (v_Value v) (flat q)
             (0 + data_size p + Z.of_nat (length (v_Key v)))
             (data_size p + kv_size v));
    [done|by rewrite Hflat, <- !app_assoc| |].
  - rewrite length_app, Nat2Z.inj_add, length_flat. lia.
  - unfold kv_size. lia.
Qed.

Lemma Len_pack id height l : Len (pack id height l) = Z.of_nat (length l).
Proof. rewrite pack_eq. unfold Len. simpl. by rewrite length_key_offsets. Qed.

(** Round trip of a whole snapshot. *)
Lemma mapM_Get_item_pack id height l :
  data_size l < 2 ^ 32 →
  mapM (Get_item (pack id height l)) (seqZ 0 (Len (pack id height l)))
  = Some (imap (decoded id) l).
Proof.
  intros Hsz. apply mapM_Some. rewrite Len_pack.
  apply Forall2_same_length_lookup_2.
  - by rewrite length_seqZ, length_imap, Nat2Z.id.
  - intros i z it Hz Hit. apply lookup_seqZ in Hz as [-> Hi].
    rewrite list_lookup_imap in Hit.
    destruct (l !! i) as [v|] eqn:Hv; [|done]. injection Hit as <-.
    rewrite Z.add_0_l. by apply Get_item_pack.
Qed.

Lemma payload_decoded id i v : payload (decoded id i v) = payload v.
Proof. done. Qed.

Lemma entries_pack id height l :
  data_size l < 2 ^ 32 → entries (pack id height l) = Some (payload <$> l).
Proof.
  intros Hsz. unfold entries. rewrite mapM_Get_item_pack by done.
  cbn [mbind option_bind]. f_equal. fold payload.
  apply list_eq. intros i.
  rewrite !list_lookup_fmap, list_lookup_imap. by destruct (l !! i).
Qed.

(** The unpacking loop of [Update] decodes every entry, then fills the
    store in index order. *)
Lemma Update_unpack_mapM hist :
  Update_unpack hist =
  foldl (λ kv it, <[v_KeyId it := it]> kv) ∅
    <$> mapM (Get_item hist) (seqZ 0 (Len hist)).
Proof.
  unfold Update_unpack. generalize (seqZ 0 (Len hist)).
  generalize (∅ : gmap Z BigmapValue). intros kv l. revert kv.
  induction l as [|i l IH]; intros kv; [done|].
  cbn [foldl]. cbn [mbind option_bind].
  destruct (Get_item hist i) as [it|] eqn:Hit.
  - cbn [mbind option_bind]. rewrite IH. simpl. rewrite Hit. simpl.
    by destruct (mapM _ l).
  - cbn [mbind option_bind]. simpl. rewrite Hit. simpl.
    clear. induction l as [|j l IH]; [done|]. by cbn [foldl mbind option_bind].
Qed.

(** The store [Update] starts from, on the level of payloads, for a
    snapshot packed from [l]. *)
Lemma Update_unpack_pack id height l :
  data_size l < 2 ^ 32 →
  ∃ kv, Update_unpack (pack id height l) = Some kv ∧
        payload <$> kv =
        foldl (λ m v, <[GetKeyId id (KeyHash (v_Key v)) := payload v]> m) ∅ l.
Proof.
  intros Hsz. rewrite Update_unpack_mapM, mapM_Get_item_pack by done.
  eexists. split; [done|].
  rewrite <- (fmap_empty payload).
  generalize (∅ : gmap Z BigmapValue).
  assert (∀ i v, v_KeyId (decoded id i v) = GetKeyId id (KeyHash (v_Key v))
                 ∧ payload (decoded id i v) = payload v) as Hf by done.
  revert Hf. generalize (decoded id). clear Hsz.
  induction l as [|v l IH]; intros f Hf kv; [done|].
  cbn [imap foldl]. rewrite IH by (intros; apply Hf).
  destruct (Hf 0%nat v) as [-> <-]. by rewrite fmap_insert.
Qed.

(** Filling a store from a list with distinct key ids. *)
Lemma lookup_foldl_insert {A B} (kid : A → Z) (val : A → B) (l : list A) k :
  NoDup (kid <$> l) →
  ∀ x, foldl (λ m v, <[kid v := val v]> m) (∅ : gmap Z B) l !! k = Some x ↔
       ∃ v, v ∈ l ∧ kid v = k ∧ val v = x.
Proof.
  induction l as [|v l IH] using rev_ind; intros Hnd x.
  - simpl. rewrite lookup_empty. split; [done|].
    intros (v & Hv & _). by apply elem_of_nil in Hv.
  - rewrite foldl_app. cbn [foldl].
    rewrite fmap_app in Hnd. apply NoDup_app in Hnd as (Hnd & Hnin & _).
    destruct (decide (kid v = k)) as [<-|Hne].
    + rewrite lookup_insert_eq. split.
      * intros [= <-]. exists v. split; [|done].
        apply elem_of_app. right. by apply list_elem_of_singleton.
      * intros (v' & Hv' & Hk & <-). f_equal.
        apply elem_of_app in Hv' as [Hv'|Hv'].
        -- exfalso. apply (Hnin (kid v)).
           ++ rewrite <- Hk. by apply list_elem_of_fmap_2.
           ++ simpl. by apply list_elem_of_singleton.
        -- by apply list_elem_of_singleton in Hv' as ->.
    + rewrite lookup_insert_ne by done. rewrite (IH Hnd). split.
      * intros (v' & Hv' & ?). exists v'. split; [|done].
        apply elem_of_app. by left.
      * intros (v' & Hv' & Hk & Hx). exists v'. split; [|done].
        apply elem_of_app in Hv' as [Hv'|Hv']; [done|].
        apply list_elem_of_singleton in Hv' as ->. done.
Qed.

(** Unpacking what was packed from a well-keyed store gives the store
    back, pair for pair. *)
Lemma reseed_payload (order : range_order) id (m : gmap Z BigmapValue) :
  valid_order order → kv_wf id m →
  foldl (λ m v, <[GetKeyId id (KeyHash (v_Key v)) := payload v]> m) ∅ (order m)
  = payload <$> m.
Proof.
  intros Ho Hwf.
  assert (∀ v, v ∈ order m ↔ ∃ k, m !! k = Some v) as Hin.
  { intros v. rewrite (Ho m). rewrite list_elem_of_fmap. split.
    - intros ([k v'] & -> & Hkv). exists k. by apply elem_of_map_to_list.
    - intros [k Hk]. exists (k, v). split; [done|].
      by apply elem_of_map_to_list. }
  assert (NoDup ((λ v, GetKeyId id (KeyHash (v_Key v))) <$> order m)) as Hnd.
  { rewrite (Ho m), <- list_fmap_compose.
    rewrite (list_fmap_ext _ fst (map_to_list m)).
    - apply NoDup_fst_map_to_list.
    - intros i [k v] Hkv. simpl. apply (Hwf k v).
      apply elem_of_map_to_list. by eapply list_elem_of_lookup_2. }
  apply map_eq. intros k. rewrite lookup_fmap.
  destruct (m !! k) as [v|] eqn:Hk; simpl.
  - apply (lookup_foldl_insert _ payload _ _ Hnd). exists v.
    split_and!; [apply Hin; by exists k|by apply Hwf|done].
  - apply eq_None_not_Some. intros [x Hx].
    apply (lookup_foldl_insert _ payload _ _ Hnd) in Hx as (v & Hv & Hkid & _).
    apply Hin in Hv as [k' Hk']. rewrite (Hwf _ _ Hk') in Hkid. congruence.
Qed.

(** Replaying rows only looks at the payloads in the store. *)
Lemma replay_payload (m1 m2 : gmap Z BigmapValue) rows :
  payload <$> m1 = payload <$> m2 →
  payload <$> replay m1 rows = payload <$> replay m2 rows.
Proof.
  revert m1 m2. induction rows as [|u rows IH]; intros m1 m2 Hm; [done|].
  unfold replay in *. cbn [foldl]. apply IH. unfold replay_step.
  destruct (u_Action u); [|by rewrite !fmap_delete, Hm|done|done].
  by rewrite !fmap_insert, Hm.
Qed.

Lemma replay_wf id (m : gmap Z BigmapValue) rows :
  kv_wf id m →
  Forall (λ u, u_Action u = DiffActionUpdate →
               u_KeyId u = GetKeyId id (KeyHash (u_Key u))) rows →
  kv_wf id (replay m rows).
Proof.
  revert m. induction rows as [|u rows IH]; intros m Hm Hrows; [done|].
  apply Forall_cons in Hrows as [Hu Hrows].
  unfold replay in *. cbn [foldl]. apply IH; [|done]. unfold replay_step.
  destruct (u_Action u) eqn:Ha; try done.
  - intros k v. destruct (decide (u_KeyId u = k)) as [<-|Hne].
    + rewrite lookup_insert_eq. intros [= <-]. simpl. symmetry. by apply Hu.
    + rewrite lookup_insert_ne by done. apply Hm.
  - intros k v Hk. apply lookup_delete_Some in Hk as [_ Hk]. by apply Hm.
Qed.

Lemma key_ids_ok_query id log (P : BigmapUpdate → Prop)
    `{∀ u, Decision (P u)} :
  key_ids_ok id log = true →
  Forall (λ u, u_Action u = DiffActionUpdate →
               u_KeyId u = GetKeyId id (KeyHash (u_Key u)))
         (filter (λ u, u_BigmapId u = id ∧ P u) log).
Proof.
  intros Hok. apply Forall_forall. intros u Hu Ha.
  apply list_elem_of_filter in Hu as [[Hid _] Hu].
  unfold key_ids_ok in Hok. rewrite forallb_forall in Hok.
  specialize (Hok u (proj1 (list_elem_of_In _ _) Hu)).
  destruct (decide _) as [_|Hn]; [by apply bool_decide_eq_true in Hok|].
  by destruct Hn.
Qed.

Lemma Build_store_wf log id height :
  key_ids_ok id log = true →
  kv_wf id (replay ∅ (Decode_fields <$> Build_query log id height)).
Proof.
  intros Hok. apply replay_wf; [by intros k v; rewrite lookup_empty|].
  apply Forall_fmap.
  by apply (key_ids_ok_query id log (λ u, u_Height u ≤ height)).
Qed.

Lemma payload_order_perm (o o' : range_order) (m m' : gmap Z BigmapValue) :
  valid_order o → valid_order o' → payload <$> m = payload <$> m' →
  payload <$> o m ≡ₚ payload <$> o' m'.
Proof.
  intros Ho Ho' Hm.
  assert (∀ m : gmap Z BigmapValue,
            payload <$> (map_to_list m).*2 ≡ₚ (map_to_list (payload <$> m)).*2)
    as Hfm.
  { intros m0. rewrite map_to_list_fmap, <- !list_fmap_compose.
    erewrite list_fmap_ext; [done|]. by intros i [k v] _. }
  by rewrite (Ho m), (Ho' m'), !Hfm, Hm.
Qed.

(** C3. On an update log whose heights ascend in row-id order and whose
    [Update] rows carry the key id of their key bytes, for [h1 <= h2] and
    snapshots below the 4 GiB the 32-bit offsets address: rolling the
    snapshot built at [h1] forward to [h2] with [Update] returns a
    snapshot, and its live key/value pairs are those of a fresh [Build]
    at [h2], up to the order in which the map iterations deliver them. *)
Theorem Update_agrees_with_Build (o1 o2 o3 : range_order)
    (c1 c2 c3 : gmap Z BigmapHistory) log id h1 h2 :
  valid_order o1 → valid_order o2 → valid_order o3 →
  log_ascending id log = true → key_ids_ok id log = true →
  h1 ≤ h2 →
  Z.of_nat (length (Data (Build o1 c1 log id h1).1)) < 2 ^ 32 →
  Z.of_nat (length (Data (Build o3 c3 log id h2).1)) < 2 ^ 32 →
  ∃ rolled fresh,
    fst <$> Update o2 c2 (Build o1 c1 log id h1).1 log h2 = Some rolled ∧
    Height rolled = h2 ∧ BigmapId rolled = id ∧
    (Build o3 c3 log id h2).1 = fresh ∧
    ∃ kvs kvs', entries rolled = Some kvs ∧ entries fresh = Some kvs' ∧
                kvs ≡ₚ kvs'.
Proof.
  intros Ho1 Ho2 Ho3 Hasc Hok Hh. unfold Build. cbn [fst].
  set (m1 := replay ∅ (Decode_fields <$> Build_query log id h1)).
  set (m2 := replay ∅ (Decode_fields <$> Build_query log id h2)).
  rewrite !pack_eq. cbn [Data]. rewrite !length_flat. intros Hs1 Hs2.
  rewrite <- !pack_eq. unfold Update.
  destruct (Update_unpack_pack id h1 (o1 m1) Hs1) as (kv0 & -> & Hkv0).
  rewrite (reseed_payload o1 id m1 Ho1) in Hkv0
    by (by apply Build_store_wf).
  cbn [mbind option_bind fmap option_fmap option_map fst].
  assert (BigmapId (pack id h1 (o1 m1)) = id) as -> by (by rewrite pack_eq).
  assert (Height (pack id h1 (o1 m1)) = h1) as -> by (by rewrite pack_eq).
  set (kvA := replay kv0 (Decode_fields <$> Update_query log id h1 h2)).
  assert (payload <$> kvA = payload <$> m2) as HkvA.
  { subst kvA m2. rewrite (Build_query_split log id h1 h2), fmap_app by done.
    unfold replay at 2. rewrite foldl_app.
    fold (replay ∅ (Decode_fields <$> Build_query log id h1)).
    fold m1. by apply replay_payload. }
  pose proof (payload_order_perm o2 o3 kvA m2 Ho2 Ho3 HkvA) as Hperm.
  assert (data_size (o2 kvA) < 2 ^ 32) as HsA
    by (by rewrite (data_size_payload _ _ Hperm)).
  eexists _, _. split; [done|]. split_and!; [by rewrite pack_eq..|done|].
  exists (payload <$> o2 kvA), (payload <$> o3 m2).
  by rewrite !entries_pack.
Qed.

End RollProps.

End CacheProps.

(** ** Properties of the big-map index *)

Module IndexProps.
Import Index.

Section StoreProps.
Context {A : Type}.

Lemma first_where_Some (P : A → Prop) `{∀ r, Decision (P r)} (l : list A) x :
  Store.first_where P l = Some x → x ∈ l ∧ P x.
Proof.
  unfold Store.first_where. intros Hh.
  assert (x ∈ filter P l) as Hx.
  { destruct (filter P l) as [|y l']; [done|]. injection Hh as ->.
    apply elem_of_cons. by left. }
  apply list_elem_of_filter in Hx. tauto.
Qed.

Lemma first_where_None (P : A → Prop) `{∀ r, Decision (P r)} (l : list A) :
  Store.first_where P l = None ↔ ∀ x, x ∈ l → ¬ P x.
Proof.
  unfold Store.first_where. rewrite head_None. split.
  - intros Hnil x Hx HP.
    assert (x ∈ filter P l) as Hin by (by apply list_elem_of_filter).
    rewrite Hnil in Hin. by apply elem_of_nil in Hin.
  - intros Hall. destruct (filter P l) as [|y l'] eqn:Hf; [done|].
    assert (y ∈ filter P l) as Hy by (rewrite Hf; apply elem_of_cons; by left).
    apply list_elem_of_filter in Hy as [HP Hy]. by destruct (Hall y Hy).
Qed.

Lemma elem_of_stream `{Row A} (P : A → Prop) `{∀ r, Decision (P r)}
    (t : Store.Table A) x :
  x ∈ Store.stream P t ↔ P x ∧ x ∈ Store.rows t.
Proof. unfold Store.stream. apply list_elem_of_filter. Qed.

Lemma elem_of_stream_desc `{Row A} (P : A → Prop) `{∀ r, Decision (P r)}
    (t : Store.Table A) x :
  x ∈ Store.stream_desc P t ↔ P x ∧ x ∈ Store.rows t.
Proof.
  unfold Store.stream_desc. rewrite elem_of_reverse.
  apply list_elem_of_filter.
Qed.

Section TableProps.
Context `{Row A}.

Lemma insert_keeps (t : Store.Table A) x r :
  r ∈ Store.rows t → r ∈ Store.rows (Store.insert t x).1.
Proof. intros Hr. simpl. apply elem_of_app. by left. Qed.

Lemma insert_adds (t : Store.Table A) x :
  (Store.insert t x).2 ∈ Store.rows (Store.insert t x).1.
Proof. simpl. apply elem_of_app. right. by apply list_elem_of_singleton. Qed.

Lemma delete_ids_keeps (t : Store.Table A) ids r :
  r ∈ Store.rows t → row_id r ∉ ids → r ∈ Store.rows (Store.delete_ids t ids).
Proof. intros Hr Hid. simpl. by apply list_elem_of_filter. Qed.

(** A primary key names one row. *)
Lemma row_id_inj (l : list A) x y :
  NoDup (row_id <$> l) → x ∈ l → y ∈ l → row_id x = row_id y → x = y.
Proof.
  intros Hnd Hx Hy Heq.
  apply list_elem_of_lookup in Hx as [i Hi].
  apply list_elem_of_lookup in Hy as [j Hj].
  assert (i = j) as ->; [|congruence].
  eapply NoDup_lookup; [done| |].
  - by rewrite list_lookup_fmap, Hi.
  - by rewrite list_lookup_fmap, Hj, Heq.
Qed.

Lemma update_keeps (t : Store.Table A) x r :
  r ∈ Store.rows t → row_id r ≠ row_id x → r ∈ Store.rows (Store.update t x).
Proof.
  intros Hr Hne. simpl. apply list_elem_of_fmap. exists r.
  by rewrite decide_False.
Qed.

Lemma update_writes (t : Store.Table A) x p :
  p ∈ Store.rows t → row_id p = row_id x → x ∈ Store.rows (Store.update t x).
Proof.
  intros Hp Heq. simpl. apply list_elem_of_fmap. exists p.
  by rewrite decide_True.
Qed.

Lemma Forall_insert (P : A → Prop) (t : Store.Table A) x :
  Forall P (Store.rows t) → (∀ id, P (set_row_id id x)) →
  Forall P (Store.rows (Store.insert t x).1).
Proof.
  intros Ht Hx. simpl. apply Forall_app. split; [done|].
  apply Forall_singleton, Hx.
Qed.

Lemma Forall_insert_all (P : A → Prop) (t : Store.Table A) xs :
  Forall P (Store.rows t) → Forall (λ x, ∀ id, P (set_row_id id x)) xs →
  Forall P (Store.rows (Store.insert_all t xs)).
Proof.
  unfold Store.insert_all. revert t.
  induction xs as [|x xs IH]; intros t Ht Hxs; [done|].
  apply Forall_cons in Hxs as [Hx Hxs]. cbn [foldl].
  apply IH; [|done]. by apply Forall_insert.
Qed.

Lemma Forall_update (P : A → Prop) (t : Store.Table A) x :
  Forall P (Store.rows t) → P x → Forall P (Store.rows (Store.update t x)).
Proof.
  intros Ht Hx. simpl. apply Forall_fmap.
  eapply Forall_impl; [done|]. intros r Hr. simpl. by case_decide.
Qed.

Lemma Forall_delete_ids (P : A → Prop) (t : Store.Table A) ids :
  Forall P (Store.rows t) → Forall P (Store.rows (Store.delete_ids t ids)).
Proof.
  intros Ht. simpl. apply Forall_forall. intros r Hr.
  apply list_elem_of_filter in Hr as [_ Hr].
  by apply (proj1 (Forall_forall _ _) Ht).
Qed.

End TableProps.

End StoreProps.

(** Projections of a state through the field updates. *)
Ltac state_simpl :=
  cbn [allocTable updateTable valueTable allocCache logs
       with_allocTable with_updateTable with_valueTable with_allocCache
       mutate_alloc log_msg fst snd].

(** The rows of a table after an engine write keep a property that the
    written rows have. *)
Ltac rows_ok :=
  first [ done
        | by apply Forall_update
        | by apply Forall_delete_ids
        | by apply map_Forall_insert_2
        | cbn [Store.rows]; apply Forall_app; split; [done|];
          apply Forall_singleton; simpl; first [done | lia] ].

Section EngineProps.
Context `{Hashing} `{Typing}.

(** C5, as the code has it. The prior update [prev] that the rollback of
    an update row [v] of the block [height] takes is an update row of
    the same big-map and key id with a smaller row id, whose height lies
    between the allocation height and [height] itself (rows of the block
    being rolled back are candidates too), and whose full key hash is
    the one of [v]; [prev] is absent exactly when the update table has
    no such row. *)
Theorem find_prev_candidate (st : State) (v : BigmapUpdate) (height : Z)
    (alloc : BigmapAlloc) :
  let hash := u_GetKeyHash v in
  let key := GetKeyId (u_BigmapId v) hash in
  (∀ p, find_prev st v key hash height alloc = Some p →
        prev_candidate st v height alloc p) ∧
  (find_prev st v key hash height alloc = None ↔
   ∀ p, ¬ prev_candidate st v height alloc p).
Proof.
  cbn zeta. unfold find_prev, prev_candidate. split.
  - intros p Hp. apply first_where_Some in Hp as [Hin Hhash].
    apply elem_of_stream in Hin as [(? & ? & ? & ? & ?) Hin]. tauto.
  - rewrite first_where_None. split.
    + intros Hnone p (Hin & ? & ? & ? & [? ?] & Hhash).
      apply (Hnone p); [|done]. apply elem_of_stream. tauto.
    + intros Hnone p Hin Hhash. apply (Hnone p).
      apply elem_of_stream in Hin as [(? & ? & ? & ? & ?) Hin]. tauto.
Qed.

(** *** Collision safety of the durable [Update] and [Remove] paths *)

Lemma loadAlloc_tables st id alloc st' :
  loadAlloc st id = Ok (alloc, st') →
  allocTable st' = allocTable st ∧ updateTable st' = updateTable st
  ∧ valueTable st' = valueTable st ∧ logs st' = logs st.
Proof.
  unfold loadAlloc. destruct (allocCache st !! id).
  - by intros [= _ <-].
  - destruct (Store.first_where _ _); [|done]. by intros [= _ <-].
Qed.

(** A candidate found by key id is accepted only with the big-map id and
    the full key hash of the diff. *)
Lemma find_live_accepts st diff p :
  find_live st diff = Some p →
  p ∈ Store.rows (valueTable st)
  ∧ v_BigmapId p = e_Id diff ∧ v_GetKeyHash p = e_KeyHash diff.
Proof.
  unfold find_live. intros Hp. apply first_where_Some in Hp as [Hin [? ?]].
  apply elem_of_stream_desc in Hin as [_ Hin]. done.
Qed.

Lemma find_live_tables st st' diff :
  valueTable st' = valueTable st → find_live st' diff = find_live st diff.
Proof. unfold find_live. by intros ->. Qed.

(** C8. A durable [Update] or single-key [Remove] diff accepts as the
    live row of its key only a row of its big-map whose full key hash
    equals the key hash of the diff, and it leaves every other live row
    in place: a row of another big-map, or of a key with another hash —
    also one with the same 64-bit key id — is neither overwritten nor
    deleted. After an [Update] the table has a row with the key and the
    value of the diff, next to the untouched rows of colliding keys. *)
Theorem collision_safety block op st tmp diff st' tmp' :
  0 ≤ e_Id diff →
  (e_Action diff = DiffActionUpdate
   ∨ (e_Action diff = DiffActionRemove ∧ IsValid (e_KeyHash diff) = true)) →
  NoDup (v_RowId <$> Store.rows (valueTable st)) →
  apply_diff block op st tmp diff = Ok (st', tmp') →
  (∀ p, find_live st diff = Some p →
        p ∈ Store.rows (valueTable st)
        ∧ v_BigmapId p = e_Id diff ∧ v_GetKeyHash p = e_KeyHash diff) ∧
  (∀ r, r ∈ Store.rows (valueTable st) →
        v_BigmapId r ≠ e_Id diff ∨ v_GetKeyHash r ≠ e_KeyHash diff →
        r ∈ Store.rows (valueTable st')) ∧
  (e_Action diff = DiffActionUpdate →
   ∃ r', r' ∈ Store.rows (valueTable st')
         ∧ v_BigmapId r' = e_Id diff
         ∧ v_Key r' = e_Key diff ∧ v_Value r' = e_Value diff).
Proof.
  intros Hid Hact Hnd Happ.
  split; [intros p; apply find_live_accepts|].
  assert ((e_Id diff <? 0) = false) as Hneg by (by apply Z.ltb_ge).
  unfold apply_diff in Happ.
  destruct Hact as [Hact|[Hact Hvalid]]; rewrite Hact in Happ.
  - (* Update *)
    unfold apply_Update in Happ. rewrite Hneg in Happ.
    destruct (loadAlloc st (e_Id diff)) as [[alloc st1]| |] eqn:Hload;
      [|done..].
    apply loadAlloc_tables in Hload as (_ & _ & Hvt & _).
    rewrite (find_live_tables st st1 diff Hvt) in Happ.
    destruct (find_live st diff) as [prev|] eqn:Hprev.
    + apply find_live_accepts in Hprev as (Hin & Hb & Hh).
      injection Happ as <- <-. state_simpl. rewrite Hvt. split.
      * intros r Hr Hdiff. apply update_keeps; [done|].
        cbn [row_id set_row_id BigmapValue_Row v_RowId]. intros Heq.
        assert (r = prev) as -> by (by eapply (row_id_inj (A:=BigmapValue))).
        destruct Hdiff; congruence.
      * intros _. eexists. split; [by eapply (update_writes _ _ prev)|done].
    + injection Happ as <- <-. state_simpl. rewrite Hvt. split.
      * intros r Hr _. cbn. apply elem_of_app. by left.
      * intros _. eexists.
        split; [cbn; apply elem_of_app; right;
                by apply list_elem_of_singleton|done].
  - (* Remove of a single key *)
    unfold apply_Remove in Happ. rewrite Hvalid, Hneg in Happ. cbn in Happ.
    destruct (loadAlloc st (e_Id diff)) as [[alloc st1]| |] eqn:Hload;
      [|done..].
    apply loadAlloc_tables in Hload as (_ & _ & Hvt & _).
    rewrite (find_live_tables st st1 diff Hvt) in Happ.
    split; [|rewrite Hact; done].
    destruct (find_live st diff) as [prev|] eqn:Hprev.
    + apply find_live_accepts in Hprev as (Hin & Hb & Hh).
      injection Happ as <- <-. state_simpl. rewrite Hvt.
      intros r Hr Hdiff. apply delete_ids_keeps; [done|].
      cbn [row_id BigmapValue_Row]. intros Hmem.
      apply list_elem_of_singleton in Hmem.
      assert (r = prev) as -> by (by eapply (row_id_inj (A:=BigmapValue))).
      destruct Hdiff; congruence.
    + injection Happ as <- <-. state_simpl. by rewrite Hvt.
Qed.

(** *** Temporary big-maps stay out of the durable state *)

Lemma loadAlloc_no_temp st id alloc st' :
  no_temp st → 0 ≤ id → loadAlloc st id = Ok (alloc, st') →
  no_temp st' ∧ 0 ≤ a_BigmapId alloc.
Proof.
  intros (Ha & Hv & Hc) Hid. unfold loadAlloc.
  destruct (allocCache st !! id) as [a|] eqn:Hhit.
  - intros [= <- <-]. split; [done|]. by destruct (Hc id a Hhit).
  - destruct (Store.first_where _ _) as [a|] eqn:Hrow; [|done].
    intros [= <- <-]. apply first_where_Some in Hrow as [Hin Heq].
    assert (0 ≤ a_BigmapId a) by lia. split; [|done].
    split_and!; [done..|]. state_simpl. by apply map_Forall_insert_2.
Qed.

Lemma reconcile_types_state block op st diff diff' st' :
  reconcile_types block op st diff = Ok (diff', st') →
  e_Id diff' = e_Id diff ∧ allocTable st' = allocTable st
  ∧ updateTable st' = updateTable st ∧ valueTable st' = valueTable st
  ∧ allocCache st' = allocCache st.
Proof.
  unfold reconcile_types. destruct (_ && _).
  - destruct (op_Script op) as [types|]; [|done].
    destruct (Store.first_where _ _); by intros [= <- <-].
  - by intros [= <- <-].
Qed.

Lemma no_temp_ext st st' :
  allocTable st' = allocTable st → valueTable st' = valueTable st →
  allocCache st' = allocCache st → no_temp st → no_temp st'.
Proof. unfold no_temp. by intros -> -> ->. Qed.

Lemma apply_Alloc_no_temp block op st tmp diff st' tmp' :
  no_temp st → apply_Alloc block op st tmp diff = Ok (st', tmp') → no_temp st'.
Proof.
  intros Hnt. unfold apply_Alloc.
  destruct (reconcile_types block op st diff) as [[diff1 st1]| |] eqn:Hrec;
    [|done..].
  apply reconcile_types_state in Hrec as (Hid & Hat & Hut & Hvt & Hc).
  assert (no_temp st1) as (Ha & Hv & Hcache) by (by eapply no_temp_ext).
  cbn [mbind result_bind].
  destruct (e_Id diff1 <? 0) eqn:Hneg.
  - by intros [= <- <-].
  - apply Z.ltb_ge in Hneg. intros [= <- <-].
    unfold no_temp. state_simpl. split_and!; [|done|].
    + cbn [Store.rows]. apply Forall_app. split; [done|].
      by apply Forall_singleton.
    + by apply map_Forall_insert_2.
Qed.

Lemma copy_live_dst op dst source :
  Forall (λ x, ∀ id, 0 ≤ v_BigmapId (set_row_id id x)) (copy_live op dst source).1
  ↔ (source = [] ∨ 0 ≤ dst).
Proof.
  unfold copy_live. cbn [fst]. rewrite Forall_fmap. split.
  - destruct source as [|v source]; [by left|]. intros Hall. right.
    apply Forall_cons in Hall as [Hv _]. apply (Hv 0).
  - intros [->|Hdst]; [done|]. apply Forall_forall. by intros v _ id.
Qed.

Lemma apply_Copy_no_temp op st tmp diff st' tmp' :
  no_temp st → apply_Copy op st tmp diff = Ok (st', tmp') → no_temp st'.
Proof.
  intros Hnt. unfold apply_Copy.
  set (src := if e_SourceId diff <? 0 then _ else _).
  assert (∀ alloc updates live st1,
            src = Ok (alloc, updates, live, st1) →
            no_temp st1 ∧ a_BigmapId alloc = e_DestId diff
            ∧ ∃ source, live = (copy_live op (e_DestId diff) source).1)
    as Hsrc.
  { subst src. intros alloc updates live st1.
    destruct (e_SourceId diff <? 0) eqn:Hneg.
    - destruct (tmp !! e_SourceId diff) as [bm|]; [|done].
      intros [= <- <- <- <-]. split_and!; [done..|]. by eexists.
    - apply Z.ltb_ge in Hneg.
      destruct (loadAlloc st (e_SourceId diff)) as [[srcAlloc st2]| |] eqn:Hl;
        [|done..].
      apply loadAlloc_no_temp in Hl as [Hnt2 _]; [|done..].
      intros [= <- <- <- <-]. split_and!; [done..|]. by eexists. }
  destruct src as [[[[alloc updates] live] st1]| |]; [|done..].
  destruct (Hsrc _ _ _ _ eq_refl) as ((Ha & Hv & Hc) & Hdst & source & ->).
  cbn [mbind result_bind].
  destruct (e_DestId diff <? 0) eqn:Hneg.
  - by intros [= <- <-].
  - apply Z.ltb_ge in Hneg. intros [= <- <-].
    unfold no_temp. state_simpl. split_and!.
    + cbn [Store.rows]. apply Forall_app. split; [done|].
      apply Forall_singleton. simpl. lia.
    + apply (Forall_insert_all (A:=BigmapValue)); [done|].
      apply copy_live_dst. by right.
    + apply map_Forall_insert_2; [|done]. simpl. lia.
Qed.

Lemma set_counters_id a n u up d :
  a_BigmapId (set_counters a n u up d) = a_BigmapId a.
Proof. done. Qed.

Lemma apply_Remove_no_temp op st tmp diff st' tmp' :
  no_temp st → apply_Remove op st tmp diff = Ok (st', tmp') → no_temp st'.
Proof.
  intros Hnt. unfold apply_Remove.
  destruct (negb (IsValid (e_KeyHash diff))).
  - destruct (e_Id diff <? 0) eqn:Hneg.
    + destruct (tmp !! e_Id diff) as [bm|]; [|done]. by intros [= <- <-].
    + apply Z.ltb_ge in Hneg.
      destruct (loadAlloc st (e_Id diff)) as [[alloc st1]| |] eqn:Hl; [|done..].
      apply loadAlloc_no_temp in Hl as [(Ha & Hv & Hc) Halloc]; [|done..].
      intros [= <- <-]. unfold no_temp. state_simpl. split_and!; rows_ok.
  - destruct (e_Id diff <? 0) eqn:Hneg.
    + destruct (tmp !! e_Id diff) as [bm|]; [|done].
      destruct (list_find _ (bm_Live bm)) as [[pos v]|];
        destruct (list_find _ _) as [[pos' u]|]; by intros [= <- <-].
    + apply Z.ltb_ge in Hneg.
      destruct (loadAlloc st (e_Id diff)) as [[alloc st1]| |] eqn:Hl; [|done..].
      apply loadAlloc_no_temp in Hl as [(Ha & Hv & Hc) Halloc]; [|done..].
      destruct (find_live st1 diff) as [prev|]; intros [= <- <-];
        unfold no_temp; state_simpl; split_and!; rows_ok.
Qed.

Lemma apply_Update_no_temp op st tmp diff st' tmp' :
  no_temp st → apply_Update op st tmp diff = Ok (st', tmp') → no_temp st'.
Proof.
  intros Hnt. unfold apply_Update.
  destruct (e_Id diff <? 0) eqn:Hneg.
  - destruct (tmp !! e_Id diff) as [bm|]; [|done].
    destruct (list_find _ _) as [[pos v]|]; by intros [= <- <-].
  - apply Z.ltb_ge in Hneg.
    destruct (loadAlloc st (e_Id diff)) as [[alloc st1]| |] eqn:Hl; [|done..].
    apply loadAlloc_no_temp in Hl as [(Ha & Hv & Hc) Halloc]; [|done..].
    destruct (find_live st1 diff) as [prev|]; intros [= <- <-];
      unfold no_temp; state_simpl; split_and!; rows_ok.
Qed.

Lemma apply_diff_no_temp block op st tmp diff st' tmp' :
  no_temp st → apply_diff block op st tmp diff = Ok (st', tmp') → no_temp st'.
Proof.
  unfold apply_diff. destruct (e_Action diff);
    eauto using apply_Alloc_no_temp, apply_Copy_no_temp,
      apply_Remove_no_temp, apply_Update_no_temp.
Qed.

(** A loop that stops at the first failure keeps what every iteration
    keeps. *)
Lemma foldl_failed {S T X} (f : S → T → X → result (S * T)) xs r :
  (∀ p, r ≠ Ok p) →
  foldl (λ acc x, '(s, t) ← acc; f s t x) r xs = r.
Proof.
  intros Hr. induction xs as [|x xs IH]; [done|]. cbn [foldl].
  destruct r as [p| |]; [by destruct (Hr p)|apply IH..].
Qed.

Lemma foldl_result_inv {S T X} (P : S → Prop)
    (f : S → T → X → result (S * T)) :
  (∀ s t x s' t', P s → f s t x = Ok (s', t') → P s') →
  ∀ xs s t s' t',
    P s → foldl (λ acc x, '(s, t) ← acc; f s t x) (Ok (s, t)) xs = Ok (s', t') →
    P s'.
Proof.
  intros Hf. induction xs as [|x xs IH]; intros s t s' t' Hs.
  - by intros [= <- <-].
  - cbn [foldl mbind result_bind]. destruct (f s t x) as [[s1 t1]| |] eqn:Hx.
    + apply IH. by eapply Hf.
    + by rewrite foldl_failed.
    + by rewrite foldl_failed.
Qed.

Lemma apply_ops_no_temp block st tmp ops st' tmp' :
  no_temp st → apply_ops block st tmp ops = Ok (st', tmp') → no_temp st'.
Proof.
  unfold apply_ops. apply foldl_result_inv. clear.
  intros st tmp op st' tmp' Hnt. unfold apply_op.
  destruct (_ || _); [by intros [= <- <-]|].
  unfold apply_diffs. apply foldl_result_inv; [|done]. clear.
  intros st tmp diff st' tmp'. apply apply_diff_no_temp.
Qed.

(** C2, as the code has it. [ConnectBlock] keeps temporary big-maps out
    of the allocation table, of the live-value table and of the
    allocation cache: when no row and no cache entry carries a negative
    big-map id before the block, none does after it. And the scratch of
    temporaries does not outlive a batch: a non-internal operation is
    processed as from an empty scratch map, whatever the scratch held
    before. (The update table is not part of this: the update rows of
    diffs on temporaries are inserted into it with their negative id.) *)
Theorem temporaries_stay_out_of_state block st :
  no_temp st →
  (∀ st', ConnectBlock st block = Ok st' → no_temp st') ∧
  (∀ st0 tmp op, op_IsInternal op = false →
                 apply_op block st0 tmp op = apply_op block st0 ∅ op).
Proof.
  intros Hnt. split.
  - intros st'. unfold ConnectBlock.
    destruct (apply_ops block st ∅ (b_Ops block)) as [[st1 tmp1]| |] eqn:Hops;
      [|done..].
    intros [= <-]. by eapply apply_ops_no_temp.
  - intros st0 tmp op Hint. unfold apply_op. rewrite Hint.
    cbn [negb andb]. rewrite map_size_empty.
    destruct (0 <? Z.of_nat (size tmp)) eqn:Hsz; [done|].
    apply Z.ltb_ge in Hsz.
    assert (tmp = ∅) as -> by (apply map_size_empty_iff; lia).
    done.
Qed.

(** *** What the rollback writes to the allocation table *)

(** After [DeleteBlock] no allocation of the block is left. *)
Lemma DeleteBlock_deletes_block_allocations st height st' :
  DeleteBlock st height = Ok st' →
  Forall (λ a, a_Height a ≠ height) (Store.rows (allocTable st')).
Proof.
  unfold DeleteBlock.
  destruct (foldl _ _ _) as [[st1 allocs]| |]; [|done..].
  intros [= <-]. state_simpl. cbn [Store.delete_where Store.rows].
  apply Forall_forall. intros a Ha.
  by apply list_elem_of_filter in Ha as [Hne _].
Qed.

(** The allocations [DeleteBlock] writes back are allocations of the
    block itself: every other allocation row keeps the content it had
    when the loop over the update rows ended. *)
Lemma written_back_are_block_allocations (allocs : gmap Z BigmapAlloc) height :
  Forall (λ a, a_Height a = height)
         (filter (λ v, ¬ a_Height v ≠ height) (map_to_list allocs).*2).
Proof.
  apply Forall_forall. intros a Ha.
  apply list_elem_of_filter in Ha as [Hh _]. by apply dec_stable.
Qed.

(** *** Type reconciliation of [Alloc] and missing scratches *)

(** Outside the guard the diff is left alone: before protocol 13, and
    for every id that is not strictly positive. *)
Lemma reconcile_types_outside_guard block op st diff :
  b_Version block < 13 ∨ e_Id diff ≤ 0 →
  reconcile_types block op st diff = Ok (diff, st).
Proof.
  intros Hg. unfold reconcile_types.
  assert ((13 <=? b_Version block) && (0 <? e_Id diff) = false) as ->; [|done].
  apply andb_false_iff. destruct Hg; [left; by apply Z.leb_gt|right; by apply Z.ltb_ge].
Qed.

(** Under the guard, a script without a matching pair leaves the
    declared types, logs the failure and lets the block go on. *)
Lemma reconcile_types_no_match block op st diff types :
  13 ≤ b_Version block → 0 < e_Id diff → op_Script op = Some types →
  (∀ btyp, btyp ∈ types →
           ¬ (Unfold btyp.1 = Unfold (e_KeyType diff)
              ∧ Unfold btyp.2 = Unfold (e_ValueType diff))) →
  reconcile_types block op st diff
  = Ok (diff, log_msg st "No type match found for bigmap").
Proof.
  intros Hv Hid Hs Hnone. unfold reconcile_types.
  rewrite (proj2 (Z.leb_le _ _) Hv), (proj2 (Z.ltb_lt _ _) Hid), Hs.
  cbn [andb]. by rewrite (proj2 (first_where_None _ _) Hnone).
Qed.

(** Under the guard, the first matching pair of the script replaces the
    declared types. *)
Lemma reconcile_types_match block op st diff types btyp :
  13 ≤ b_Version block → 0 < e_Id diff → op_Script op = Some types →
  Store.first_where
    (λ btyp : Prim * Prim, Unfold btyp.1 = Unfold (e_KeyType diff)
                           ∧ Unfold btyp.2 = Unfold (e_ValueType diff))
    types = Some btyp →
  reconcile_types block op st diff = Ok (set_types diff btyp.1 btyp.2, st).
Proof.
  intros Hv Hid Hs Hm. unfold reconcile_types.
  rewrite (proj2 (Z.leb_le _ _) Hv), (proj2 (Z.ltb_lt _ _) Hid), Hs.
  cbn [andb]. by rewrite Hm.
Qed.

(** The diffs on a temporary without scratch that do return an error:
    [Update], single-key [Remove], and [Copy] from the temporary. *)
Lemma missing_scratch_error block op st tmp diff :
  (e_Action diff = DiffActionUpdate ∧ e_Id diff < 0 ∧ tmp !! e_Id diff = None)
  ∨ (e_Action diff = DiffActionRemove ∧ IsValid (e_KeyHash diff) = true
     ∧ e_Id diff < 0 ∧ tmp !! e_Id diff = None)
  ∨ (e_Action diff = DiffActionCopy ∧ e_SourceId diff < 0
     ∧ tmp !! e_SourceId diff = None) →
  ∃ msg, apply_diff block op st tmp diff = Err msg.
Proof.
  unfold apply_diff.
  intros [(-> & Hid & Ht)|[(-> & Hv & Hid & Ht)|(-> & Hid & Ht)]].
  - unfold apply_Update. rewrite (proj2 (Z.ltb_lt _ _) Hid), Ht. by eexists.
  - unfold apply_Remove. rewrite Hv, (proj2 (Z.ltb_lt _ _) Hid), Ht.
    by eexists.
  - unfold apply_Copy. rewrite (proj2 (Z.ltb_lt _ _) Hid), Ht. by eexists.
Qed.

(** The full-big-map [Remove] of a temporary without scratch panics. *)
Lemma missing_scratch_full_remove block op st tmp diff :
  e_Action diff = DiffActionRemove → IsValid (e_KeyHash diff) = false →
  e_Id diff < 0 → tmp !! e_Id diff = None →
  apply_diff block op st tmp diff = Panic.
Proof.
  unfold apply_diff. intros -> Hv Hid Ht.
  unfold apply_Remove. by rewrite Hv, (proj2 (Z.ltb_lt _ _) Hid), Ht.
Qed.

End EngineProps.
End IndexProps.

(** ** The engine on concrete blocks *)

Module ScenarioProps.
Import Scenario.

(** C1. Big-map 1 is allocated at height 10 and gets its first key at
    height 11. The rollback of block 11 deletes the live row and
    recomputes the counters of the allocation (no live key, one update,
    last update reset), but the allocation row in the table, whose
    allocation height 10 is below 11, is not written back: it keeps the
    counters of block 11. Only the cached record has the new ones. *)
Lemma DeleteBlock_leaves_allocation_row_stale :
  ∃ st, run [connect block10; connect block11; disconnect block11] = Some st
        ∧ Store.rows (Index.allocTable st)
          = [mkAlloc 1 1 10 2 1 11 0 nat_t string_t]
        ∧ Store.rows (Index.valueTable st) = []
        ∧ Index.allocCache st !! 1 = Some (mkAlloc 1 1 10 1 0 0 0 nat_t string_t).
Proof. eexists. split; [vm_compute; reflexivity|]. by vm_compute. Qed.

(** C4. After the blocks 10 to 12 big-map 1 has two live keys; after the
    blocks 12 and 11 are disconnected the live-value table has no row of
    big-map 1, while its allocation row still says two live keys (and
    the cached record, reloaded from the stale row by the second
    rollback, says one). *)
Lemma n_live_keys_differs_after_disconnect :
  ∃ st, run [connect block10; connect block11; connect block12;
             disconnect block12; disconnect block11] = Some st
        ∧ a_NKeys <$> Store.rows (Index.allocTable st) = [2]
        ∧ filter (λ v, v_BigmapId v = 1) (Store.rows (Index.valueTable st)) = []
        ∧ a_NKeys <$> Index.allocCache st !! 1 = Some 1.
Proof. eexists. split; [vm_compute; reflexivity|]. by vm_compute. Qed.

(** C6. A full-big-map [Remove] of a temporary big-map without scratch
    does not return an error: the nil scratch is dereferenced. *)
Lemma full_remove_of_missing_scratch_panics :
  Index.ConnectBlock Index.init block_clear_missing = Panic.
Proof. by vm_compute. Qed.

(** C7. Under protocol 13, with a script whose annotated big-map types
    match the declared ones, the allocation of big-map 0 keeps the bare
    declared types, and nothing is logged; the same allocation of
    big-map 1 takes the annotated types of the script. *)
Lemma alloc_of_bigmap_0_is_not_reconciled :
  (∃ st, Index.ConnectBlock Index.init (block_alloc13 0) = Ok st
         ∧ (λ a, (a_BigmapId a, a_KeyType a, a_ValueType a))
             <$> Store.rows (Index.allocTable st)
           = [(0, (1, ""), (2, ""))]
         ∧ Index.logs st = [])
  ∧ (∃ st, Index.ConnectBlock Index.init (block_alloc13 1) = Ok st
           ∧ (λ a, (a_BigmapId a, a_KeyType a, a_ValueType a))
               <$> Store.rows (Index.allocTable st)
             = [(1, (1, "%key"), (2, "%val"))]).
Proof.
  split; eexists; (split; [vm_compute; reflexivity|]); by vm_compute.
Qed.

(** C2, against the claim as stated. The temporary big-map -1 is
    allocated by an outer operation and updated by an internal one; after
    the next outer operation, at the end of the block, the update table
    holds the update row of the temporary. *)
Lemma update_row_of_temporary_is_persisted :
  ∃ st, Index.ConnectBlock Index.init block_temp = Ok st
        ∧ Store.rows (Index.updateTable st)
          = [mkUpdate 1 (-1) 1 DiffActionUpdate 20 key1 [x61] 0].
Proof. eexists. split; [vm_compute; reflexivity|]. by vm_compute. Qed.

(** C5, against the claim as stated. Block 11 updates the same key
    twice; in its rollback the second update row takes the first one as
    [prev], a row of height 11 itself and not below. *)
Lemma prev_of_the_same_block :
  Index.find_prev st_twice row_3 (GetKeyId 1 (u_GetKeyHash row_3))
                  (u_GetKeyHash row_3) 11 alloc_1 = Some row_2
  ∧ Store.rows (Index.updateTable st_twice) !! 2%nat = Some row_3
  ∧ Store.rows (Index.allocTable st_twice) = [alloc_1]
  ∧ ¬ (u_Height row_2 < 11).
Proof. split_and!; [by vm_compute..|vm_compute; congruence]. Qed.

(** C9, against the claim as stated. The cache holds a snapshot of
    big-map 1 at height 0, which is at most the requested height 5, and
    [GetBest] reports a miss. *)
Lemma GetBest_misses_snapshot_at_height_0 :
  Cache.Get cache_at_0 1 0 = Some (Cache.pack 1 0 [])
  ∧ 0 ≤ 5
  ∧ Cache.GetBest cache_at_0 1 5 = None.
Proof. split_and!; [by vm_compute|lia|by vm_compute]. Qed.

(** C10 on the snapshot of two pairs: [Range(0, -1)] returns the first
    pair only. *)
Lemma Range_clamped_drops_last_witness :
  Cache.wf_hist two_pairs = true ∧ 1 ≤ Cache.Len two_pairs ∧ 0 ≤ 0
  ∧ (-1 < 0 ∨ Cache.Len two_pairs ≤ -1)
  ∧ ∃ items,
      Cache.Range two_pairs 0 (-1) = Some items ∧
      length items = Z.to_nat (Cache.Len two_pairs - 1 - 0) ∧
      (∀ j, 0 ≤ j < Cache.Len two_pairs - 1 - 0 →
            items !! Z.to_nat j = Cache.Get_item two_pairs (0 + j) ∧
            is_Some (Cache.Get_item two_pairs (0 + j))) ∧
      (∀ it, it ∈ items → 0 < v_RowId it < Cache.Len two_pairs) ∧
      (Cache.Len two_pairs = 1 → items = []).
Proof.
  assert (Cache.wf_hist two_pairs = true) as Hw by reflexivity.
  assert (1 ≤ Cache.Len two_pairs) as Hn by (vm_compute; discriminate).
  assert (-1 < 0 ∨ Cache.Len two_pairs ≤ -1) as Hto by (left; lia).
  split_and!; [exact Hw|exact Hn|lia|exact Hto|].
  apply (CacheProps.Range_clamped_drops_last two_pairs 0 (-1) Hw Hn); [lia|exact Hto].
Defined.

(** C9 on a cache that holds big-map 1 at height 7, asked for height 9. *)
Lemma GetBest_greatest_positive_witness :
  - 2 ^ 31 ≤ 1 < 2 ^ 31
  ∧ (Cache.GetBest cache_at_7 1 9 = None ↔
       ∀ h, 0 < h < 2 ^ 32 → h ≤ 9 → Cache.Get cache_at_7 1 h = None)
  ∧ (∀ hist, Cache.GetBest cache_at_7 1 9 = Some hist ↔
       ∃ h, 0 < h < 2 ^ 32 ∧ h ≤ 9 ∧ Cache.Get cache_at_7 1 h = Some hist ∧
            ∀ h', 0 < h' < 2 ^ 32 → h' ≤ 9 →
                  is_Some (Cache.Get cache_at_7 1 h') → h' ≤ h).
Proof.
  assert (- 2 ^ 31 ≤ 1 < 2 ^ 31) as Hid by lia.
  split; [exact Hid|].
  exact (CacheProps.GetBest_greatest_positive cache_at_7 1 9 Hid).
Defined.

(** C3 on the log of the blocks 10 to 13: the snapshot built at height
    11 and rolled forward to 13 against the one built at 13. *)
Lemma Update_agrees_with_Build_witness :
  Cache.valid_order order_of_map
  ∧ Cache.log_ascending 1 log_10_13 = true
  ∧ Cache.key_ids_ok 1 log_10_13 = true
  ∧ 11 ≤ 13
  ∧ ∃ rolled fresh,
      fst <$> Cache.Update order_of_map ∅
                (Cache.Build order_of_map ∅ log_10_13 1 11).1 log_10_13 13
        = Some rolled ∧
      Cache.Height rolled = 13 ∧ Cache.BigmapId rolled = 1 ∧
      (Cache.Build order_of_map ∅ log_10_13 1 13).1 = fresh ∧
      ∃ kvs kvs', Cache.entries rolled = Some kvs ∧
                  Cache.entries fresh = Some kvs' ∧ kvs ≡ₚ kvs'.
Proof.
  assert (Cache.valid_order order_of_map) as Ho by (intros m; reflexivity).
  assert (Cache.log_ascending 1 log_10_13 = true) as Hasc by reflexivity.
  assert (Cache.key_ids_ok 1 log_10_13 = true) as Hok by reflexivity.
  split_and!; [exact Ho|exact Hasc|exact Hok|lia|].
  apply (CacheProps.Update_agrees_with_Build
           order_of_map order_of_map order_of_map ∅ ∅ ∅ log_10_13 1 11 13
           Ho Ho Ho Hasc Hok); [lia|by vm_compute..].
Defined.

(** C8 on a forced collision: big-map 1 holds the key of hash 1 and gets
    the key of hash 5, which has the same key id. *)
Lemma collision_safety_witness :
  0 ≤ e_Id diff_key5
  ∧ NoDup (v_RowId <$> Store.rows (Index.valueTable st_11))
  ∧ Index.apply_diff block12 op12 st_11 ∅ diff_key5 = Ok (st_12, ∅)
  ∧ GetKeyId 1 (KeyHash key1) = GetKeyId 1 (KeyHash key5)
  ∧ (∀ p, Index.find_live st_11 diff_key5 = Some p →
          p ∈ Store.rows (Index.valueTable st_11)
          ∧ v_BigmapId p = e_Id diff_key5
          ∧ v_GetKeyHash p = e_KeyHash diff_key5)
  ∧ (∀ r, r ∈ Store.rows (Index.valueTable st_11) →
          v_BigmapId r ≠ e_Id diff_key5
          ∨ v_GetKeyHash r ≠ e_KeyHash diff_key5 →
          r ∈ Store.rows (Index.valueTable st_12))
  ∧ (e_Action diff_key5 = DiffActionUpdate →
     ∃ r', r' ∈ Store.rows (Index.valueTable st_12)
           ∧ v_BigmapId r' = e_Id diff_key5
           ∧ v_Key r' = e_Key diff_key5 ∧ v_Value r' = e_Value diff_key5).
Proof.
  assert (0 ≤ e_Id diff_key5) as Hid by (vm_compute; discriminate).
  assert (NoDup (v_RowId <$> Store.rows (Index.valueTable st_11))) as Hnd
    by (apply (bool_decide_unpack _); by vm_compute).
  assert (Index.apply_diff block12 op12 st_11 ∅ diff_key5 = Ok (st_12, ∅))
    as Happ by (by vm_compute).
  split_and!; [exact Hid|exact Hnd|exact Happ|by vm_compute|..];
    apply (IndexProps.collision_safety block12 op12 st_11 ∅ diff_key5 st_12 ∅
             Hid (or_introl eq_refl) Hnd Happ).
Defined.

(** C2 on the block that allocates and updates the temporary -1, from
    the empty index. *)
Lemma temporaries_stay_out_of_state_witness :
  Index.no_temp Index.init
  ∧ (∀ st', Index.ConnectBlock Index.init block_temp = Ok st' →
            Index.no_temp st')
  ∧ (∀ st0 tmp op, op_IsInternal op = false →
       Index.apply_op block_temp st0 tmp op = Index.apply_op block_temp st0 ∅ op).
Proof.
  assert (Index.no_temp Index.init) as Hnt.
  { split_and!; [apply Forall_nil_2..|apply map_Forall_empty]. }
  split; [exact Hnt|].
  exact (IndexProps.temporaries_stay_out_of_state block_temp Index.init Hnt).
Defined.

End ScenarioProps.

(** ** Further properties of the history snapshots *)

Module CacheExtra.
Import Cache CacheProps.

Section LookupProps.
Context `{Hashing}.

(** The key bytes [Get] hashes at an index are the key of the entry
    decoded there. *)
Lemma Get_item_key h i it :
  Get_item h i = Some it →
  ∃ kStart kEnd,
    index (KeyOffsets h) i = Some kStart ∧ index (ValueOffsets h) i = Some kEnd
    ∧ slice (Data h) kStart kEnd = Some (v_Key it).
Proof.
  unfold Get_item. intros Hg.
  destruct (index (KeyOffsets h) i) as [ks|]; [|done].
  destruct (index (ValueOffsets h) i) as [ke|]; [|done].
  cbn [mbind option_bind] in Hg.
  destruct (if i <? Len h - 1 then _ else _) as [ve|]; [|done].
  cbn [mbind option_bind] in Hg.
  destruct (slice (Data h) ks ke) as [k|] eqn:Hk; [|done].
  cbn [mbind option_bind] in Hg.
  destruct (slice (Data h) ke ve) as [v|]; [|done].
  injection Hg as <-. by exists ks, ke.
Qed.

(** The search loop over a run of indices of a well-formed snapshot. *)
Lemma History_Get_search_spec h key (m : nat) a :
  wf_hist h = true → 0 ≤ a → a + Z.of_nat m ≤ Len h →
  ∃ r, History_Get_search h key (seqZ a (Z.of_nat m)) = Some r ∧
       match r with
       | Some i =>
           a ≤ i < a + Z.of_nat m
           ∧ (∃ it, Get_item h i = Some it ∧ KeyHash (v_Key it) = key)
           ∧ ∀ j it, a ≤ j < i → Get_item h j = Some it →
                     KeyHash (v_Key it) ≠ key
       | None =>
           ∀ j it, a ≤ j < a + Z.of_nat m → Get_item h j = Some it →
                   KeyHash (v_Key it) ≠ key
       end.
Proof.
  intros Hw. revert a. induction m as [|m IH]; intros a Ha Hlen.
  - exists None. split; [done|]. intros j it Hj. lia.
  - rewrite Nat2Z.inj_succ, seqZ_cons by lia.
    replace (Z.pred (Z.succ (Z.of_nat m))) with (Z.of_nat m) by lia.
    cbn [History_Get_search].
    destruct (Get_item_is_Some h a Hw) as [it Hit]; [lia|].
    destruct (Get_item_key h a it Hit) as (ks & ke & -> & -> & Hk).
    cbn [mbind option_bind]. rewrite Hk. cbn [mbind option_bind].
    destruct (decide (KeyHash (v_Key it) = key)) as [Heq|Hne].
    + exists (Some a). split; [done|]. split_and!; [lia..| |].
      * by exists it.
      * intros j it' Hj. lia.
    + destruct (IH (Z.succ a)) as (r & -> & Hr); [lia..|].
      exists r. split; [done|]. destruct r as [i|].
      * destruct Hr as (Hi & Hfound & Hbefore). split_and!; [lia..|done|].
        intros j it' Hj Hit'. destruct (decide (j = a)) as [->|].
        -- congruence.
        -- apply (Hbefore j it'); [lia|done].
      * intros j it' Hj Hit'. destruct (decide (j = a)) as [->|].
        -- congruence.
        -- apply (Hr j it'); [lia|done].
Qed.

(** X1. On a well-formed snapshot [Get] does not panic. When it returns
    an entry, this is the entry of the smallest index whose key hashes
    to the requested hash (its row id is that index plus one); when it
    returns [nil], no entry of the snapshot has a key of that hash. *)
Theorem History_Get_first_match h key :
  wf_hist h = true →
  ∃ r, History_Get h key = Some r ∧
       match r with
       | Some v =>
           KeyHash (v_Key v) = key
           ∧ 0 < v_RowId v ≤ Len h
           ∧ Get_item h (v_RowId v - 1) = Some v
           ∧ ∀ j it, 0 ≤ j < v_RowId v - 1 → Get_item h j = Some it →
                     KeyHash (v_Key it) ≠ key
       | None =>
           ∀ j it, 0 ≤ j < Len h → Get_item h j = Some it →
                   KeyHash (v_Key it) ≠ key
       end.
Proof.
  intros Hw. unfold History_Get.
  destruct (History_Get_search_spec h key (Z.to_nat (Len h)) 0 Hw)
    as (r & Hs & Hr); [lia|unfold Len; lia|].
  rewrite Z2Nat.id in Hs, Hr by (unfold Len; lia).
  rewrite Hs. cbn [mbind option_bind]. destruct r as [i|].
  - destruct Hr as (Hi & (it & Hit & Hkey) & Hbefore).
    rewrite Hit. exists (Some it). split; [done|].
    pose proof (Get_item_RowId h i it Hit) as Hrow.
    rewrite Hrow. replace (i + 1 - 1) with i by lia.
    split_and!; [done|lia..|done|done].
  - exists None. split; [done|]. intros j it Hj. apply Hr. lia.
Qed.

(** X2. Round trip of packing and lookup: in the snapshot packed from a
    list of pairs of less than 4 GiB, [Get] returns the first pair of
    the list whose key hashes to the requested hash, with its position
    as row id, and [nil] when the list has no such pair. *)
Theorem History_Get_pack id height l key :
  data_size l < 2 ^ 32 →
  History_Get (pack id height l) key
  = Some ((λ p : nat * BigmapValue, decoded id p.1 p.2)
            <$> list_find (λ v, KeyHash (v_Key v) = key) l).
Proof.
  intros Hsz.
  assert (∀ (m : nat) (a : nat),
            (a + m = length l)%nat →
            (∀ j v, (j < a)%nat → l !! j = Some v → KeyHash (v_Key v) ≠ key) →
            History_Get_search (pack id height l) key
              (seqZ (Z.of_nat a) (Z.of_nat m))
            = Some ((λ p : nat * BigmapValue, Z.of_nat p.1)
                      <$> list_find (λ v, KeyHash (v_Key v) = key) l)) as Hsearch.
  { induction m as [|m IH]; intros a Ham Hbefore.
    - cbn [seqZ]. simpl.
      destruct (list_find _ l) as [[i v]|] eqn:Hf; [|done].
      apply list_find_Some in Hf as (Hi & Hv & _).
      pose proof (lookup_lt_Some _ _ _ Hi). destruct (Hbefore i v); [lia|done..].
    - rewrite Nat2Z.inj_succ, seqZ_cons by lia.
      replace (Z.pred (Z.succ (Z.of_nat m))) with (Z.of_nat m) by lia.
      cbn [History_Get_search].
      destruct (lookup_lt_is_Some_2 l a) as [v Hv]; [lia|].
      pose proof (Get_item_pack id height l a v Hsz Hv) as Hit.
      destruct (Get_item_key _ _ _ Hit) as (ks & ke & -> & -> & Hk).
      cbn [mbind option_bind]. rewrite Hk. cbn [mbind option_bind].
      cbn [decoded v_Key].
      destruct (decide (KeyHash (v_Key v) = key)) as [Heq|Hne].
      + assert (list_find (λ v, KeyHash (v_Key v) = key) l = Some (a, v)) as ->; [|done].
        apply list_find_Some. split_and!; [done..|].
        intros j y Hy Hj. by apply (Hbefore j y).
      + replace (Z.succ (Z.of_nat a)) with (Z.of_nat (S a)) by lia.
        apply IH; [lia|]. intros j y Hj Hy.
        destruct (decide (j = a)) as [->|]; [congruence|].
        apply (Hbefore j y); [lia|done]. }
  unfold History_Get. rewrite Len_pack.
  pose proof (Hsearch (length l) 0%nat eq_refl) as Hs.
  change (Z.of_nat 0) with 0 in Hs. rewrite Hs by (intros; lia).
  cbn [mbind option_bind].
  destruct (list_find _ l) as [[i v]|] eqn:Hf; [|done].
  apply list_find_Some in Hf as (Hi & _ & _). cbn [fmap option_fmap option_map fst snd].
  by rewrite (Get_item_pack id height l i v Hsz Hi).
Qed.

End LookupProps.

(** *** What [Build] and [Update] lay out *)

Lemma wf_offsets_pack l n len :
  0 ≤ n → n + data_size l ≤ len → len < 2 ^ 32 →
  wf_offsets (key_offsets n l) (value_offsets n l) len = true.
Proof.
  revert n. induction l as [|v l IH]; intros n Hn Hlen Hmax; [done|].
  cbn [key_offsets value_offsets wf_offsets data_size foldr] in *.
  fold (data_size l) in *.
  pose proof (data_size_nonneg l).
  assert (0 ≤ Z.of_nat (length (v_Key v)) ≤ kv_size v)
    by (unfold kv_size; lia).
  rewrite !wrap_u32_id by lia.
  rewrite IH by lia. rewrite andb_true_r.
  repeat (apply andb_true_intro; split); try (apply Z.leb_le; lia).
  destruct l as [|v' l]; [done|]. cbn [key_offsets].
  rewrite wrap_u32_id; [apply Z.leb_le; lia|].
  cbn [data_size foldr] in *. unfold kv_size in *. lia.
Qed.

Lemma wf_hist_pack id height l :
  data_size l < 2 ^ 32 → wf_hist (pack id height l) = true.
Proof.
  intros Hsz. rewrite pack_eq. unfold wf_hist. cbn [KeyOffsets ValueOffsets Data].
  rewrite length_flat. apply wf_offsets_pack; [done|lia|done].
Qed.

Section LayoutProps.
Context `{Hashing}.

(** X3. The snapshots [Build] and [Update] return keep the layout
    invariant whenever their buffer is below 4 GiB: key and value
    offsets in step, every pair within the buffer; they carry the
    requested big-map id and height, and a built snapshot holds one
    entry per key of the replayed store. *)
Theorem Build_Update_well_formed (order : range_order)
    (c : gmap Z BigmapHistory) log id height :
  valid_order order →
  (Z.of_nat (length (Data (Build order c log id height).1)) < 2 ^ 32 →
   wf_hist (Build order c log id height).1 = true
   ∧ BigmapId (Build order c log id height).1 = id
   ∧ Height (Build order c log id height).1 = height
   ∧ Len (Build order c log id height).1
     = Z.of_nat (size (replay ∅ (Decode_fields <$> Build_query log id height))))
  ∧ (∀ hist hist2 c2,
       Update order c hist log height = Some (hist2, c2) →
       Z.of_nat (length (Data hist2)) < 2 ^ 32 →
       wf_hist hist2 = true ∧ BigmapId hist2 = BigmapId hist
       ∧ Height hist2 = height).
Proof.
  intros Ho. split.
  - unfold Build. cbn [fst]. rewrite pack_eq at 1. cbn [Data].
    rewrite length_flat. intros Hsz.
    split_and!; [by apply wf_hist_pack|by rewrite pack_eq..|].
    rewrite Len_pack, (Ho _), length_fmap, length_map_to_list. done.
  - intros hist hist2 c2. unfold Update.
    destruct (Update_unpack hist) as [kv|]; [|done].
    cbn [mbind option_bind]. intros [= <- _].
    rewrite pack_eq at 1. cbn [Data]. rewrite length_flat. intros Hsz.
    split_and!; [by apply wf_hist_pack|by rewrite pack_eq..].
Qed.

End LayoutProps.

(** *** The cache key and the cache after [Build] *)



(** *** [Range] in general *)

Section RangeProps.
Context `{Hashing}.

(** X5. On a well-formed snapshot and for [from >= 0], [Range(from, to)]
    returns the entries of the indices [from .. to-1], decoded as [Get]
    decodes them, where a [to] outside [0 .. n-1] counts as [n-1]: the
    upper bound is exclusive, so the entry at [to] is not returned, and
    the result is empty when [to <= from] (in particular for a snapshot
    without entries). *)
Theorem Range_window h from to :
  wf_hist h = true → 0 ≤ from →
  let upper := if (to <? 0) || (Len h <=? to) then Len h - 1 else to in
  ∃ items,
    Range h from to = Some items ∧
    length items = Z.to_nat (upper - from) ∧
    (∀ j, 0 ≤ j < upper - from →
          items !! Z.to_nat j = Get_item h (from + j) ∧
          is_Some (Get_item h (from + j))) ∧
    (∀ it, it ∈ items → from < v_RowId it ≤ upper).
Proof.
  intros Hw Hfrom upper. unfold Range. fold upper.
  assert (upper ≤ Len h - 1) as Hup.
  { subst upper. destruct (_ || _) eqn:Hc; [lia|].
    apply orb_false_iff in Hc as [_ Hc]. apply Z.leb_gt in Hc. lia. }
  clearbody upper.
  destruct (upper <=? from) eqn:Hle.
  - apply Z.leb_le in Hle. exists []. split_and!; [done|simpl; lia| |].
    + intros j Hj. lia.
    + intros it Hit. by apply elem_of_nil in Hit.
  - apply Z.leb_gt in Hle.
    assert (Forall (λ i, is_Some (Range_item h from i))
              (seqZ 0 (upper - from))) as Hall.
    { apply Forall_forall. intros i Hi. apply elem_of_seqZ in Hi.
      rewrite Range_item_Get_item by lia. apply Get_item_is_Some; [done|lia]. }
    destruct (mapM_is_Some_2 _ _ Hall) as [items Hitems].
    exists items. rewrite Hitems. apply mapM_Some in Hitems.
    pose proof (Forall2_length _ _ _ Hitems) as Hlen.
    rewrite length_seqZ in Hlen.
    assert (∀ j, 0 ≤ j < upper - from →
              items !! Z.to_nat j = Get_item h (from + j)) as Hlook.
    { intros j Hj.
      assert (seqZ 0 (upper - from) !! Z.to_nat j = Some j) as Hs.
      { rewrite lookup_seqZ. split; lia. }
      destruct (Forall2_lookup_l _ _ _ _ _ Hitems Hs) as (it & Hit & Hr).
      rewrite Hit, <- Hr, Range_item_Get_item by lia. f_equal. lia. }
    split_and!; [done|done| |].
    + intros j Hj. split; [by apply Hlook|].
      apply Get_item_is_Some; [done|lia].
    + intros it Hit. apply list_elem_of_lookup in Hit as [n Hn'].
      pose proof (lookup_lt_Some _ _ _ Hn') as Hlt.
      specialize (Hlook (Z.of_nat n)). rewrite Nat2Z.id, Hn' in Hlook.
      symmetry in Hlook. apply Get_item_RowId in Hlook; lia.
Qed.

(** X6. A negative [from] below the (clamped) upper bound makes [Range]
    index the offsets at a negative position: the call panics, whatever
    the snapshot holds. *)
Theorem Range_negative_from_panics h from to :
  from < 0 →
  from < (if (to <? 0) || (Len h <=? to) then Len h - 1 else to) →
  Range h from to = None.
Proof.
  intros Hneg Hup. unfold Range.
  set (upper := if _ || _ then _ else _) in *. clearbody upper.
  rewrite (proj2 (Z.leb_gt upper from)) by lia.
  rewrite seqZ_cons by lia. cbn [mapM].
  assert (Range_item h from 0 = None) as ->; [|done].
  unfold Range_item, index. by rewrite (proj2 (Z.ltb_lt (0 + from) 0)) by lia.
Qed.

End RangeProps.

(** *** What a built snapshot holds *)

Lemma replay_skips_Alloc_Copy (m : gmap Z BigmapValue) rows :
  replay m (Decode_fields <$> rows)
  = replay m (Decode_fields
                <$> filter (λ u, u_Action u = DiffActionUpdate
                                 ∨ u_Action u = DiffActionRemove) rows).
Proof.
  revert m. induction rows as [|u rows IH]; intros m; [done|].
  rewrite filter_cons. unfold replay in *.
  destruct (u_Action u) eqn:Ha.
  - rewrite decide_True by (by left). rewrite !fmap_cons. cbn [foldl]. apply IH.
  - rewrite decide_True by (by right). rewrite !fmap_cons. cbn [foldl]. apply IH.
  - rewrite decide_False by (by intros [?|?]). rewrite fmap_cons. cbn [foldl].
    unfold replay_step at 2. cbn [Decode_fields u_Action]. rewrite Ha. apply IH.
  - rewrite decide_False by (by intros [?|?]). rewrite fmap_cons. cbn [foldl].
    unfold replay_step at 2. cbn [Decode_fields u_Action]. rewrite Ha. apply IH.
Qed.

(** X7. [Build] reads nothing but the [Update] and [Remove] rows of its
    big-map up to the requested height: the [Alloc] row, the [Copy] rows
    (also the per-key ones a copy of a big-map writes), the rows of
    other big-maps and the rows of later blocks can be dropped from the
    log without changing the snapshot or the cache. *)
Theorem Build_reads_key_updates_only (order : range_order)
    (c : gmap Z BigmapHistory) log id height :
  Build order c log id height
  = Build order c
      (filter (λ u, (u_BigmapId u = id ∧ u_Height u ≤ height)
                    ∧ (u_Action u = DiffActionUpdate
                       ∨ u_Action u = DiffActionRemove)) log)
      id height.
Proof.
  match goal with |- context [filter ?Q log] => set (q := Q) end.
  assert (filter (λ u, u_Action u = DiffActionUpdate
                       ∨ u_Action u = DiffActionRemove)
                 (Build_query log id height)
          = filter (λ u, u_Action u = DiffActionUpdate
                         ∨ u_Action u = DiffActionRemove)
                   (Build_query (filter q log) id height)) as Hrows.
  { unfold Build_query. rewrite !list_filter_filter.
    apply list_filter_iff. intros x. subst q. cbn beta. tauto. }
  unfold Build. rewrite (replay_skips_Alloc_Copy ∅ (Build_query log id height)).
  rewrite (replay_skips_Alloc_Copy ∅ (Build_query (filter q log) id height)).
  by rewrite Hrows.
Qed.

(** The store after a replay, key by key: the last row of the key id
    decides. *)
Lemma replay_no_later (m : gmap Z BigmapValue) rows k :
  Forall (λ u, ¬ (u_KeyId u = k ∧ (u_Action u = DiffActionUpdate
                                   ∨ u_Action u = DiffActionRemove))) rows →
  replay m rows !! k = m !! k.
Proof.
  revert m. induction rows as [|u rows IH]; intros m Hrows; [done|].
  apply Forall_cons in Hrows as [Hu Hrows].
  unfold replay in *. cbn [foldl]. rewrite IH by done.
  unfold replay_step. destruct (u_Action u) eqn:Ha; try done.
  - apply lookup_insert_ne. intros Hk. apply Hu. split; [done|by left].
  - apply lookup_delete_ne. intros Hk. apply Hu. split; [done|by right].
Qed.

Lemma replay_sound (P : BigmapValue → Prop) (m : gmap Z BigmapValue) rows :
  map_Forall (λ _ v, P v) m →
  Forall (λ u, u_Action u = DiffActionUpdate → P (ToKV u)) rows →
  map_Forall (λ _ v, P v) (replay m rows).
Proof.
  revert m. induction rows as [|u rows IH]; intros m Hm Hrows; [done|].
  apply Forall_cons in Hrows as [Hu Hrows].
  unfold replay in *. cbn [foldl]. apply IH; [|done].
  unfold replay_step. destruct (u_Action u) eqn:Ha; try done.
  - apply map_Forall_insert_2; [by apply Hu|done].
  - by apply map_Forall_delete.
Qed.

Section ContentProps.
Context `{Hashing}.

(** X8. What a built snapshot of less than 4 GiB holds. Every pair in
    it is the key and value of an [Update] row of the big-map at a
    height up to the requested one. Conversely, an [Update] row of the
    scan that no later scanned [Update] or [Remove] row of the same key
    id follows has its key and value in the snapshot, and after a
    [Remove] row that no such row follows the snapshot has no pair whose
    key has the key id of the row (on a log whose [Update] rows carry
    the key id of their key bytes). *)
Theorem Build_content (order : range_order) (c : gmap Z BigmapHistory)
    log id height :
  valid_order order →
  Z.of_nat (length (Data (Build order c log id height).1)) < 2 ^ 32 →
  ∃ kvs,
    entries (Build order c log id height).1 = Some kvs ∧
    (∀ kv, kv ∈ kvs →
       ∃ u, u ∈ log ∧ u_BigmapId u = id ∧ u_Height u ≤ height
            ∧ u_Action u = DiffActionUpdate ∧ (u_Key u, u_Value u) = kv) ∧
    (∀ before u after,
       Build_query log id height = before ++ u :: after →
       Forall (λ u', ¬ (u_KeyId u' = u_KeyId u
                        ∧ (u_Action u' = DiffActionUpdate
                           ∨ u_Action u' = DiffActionRemove))) after →
       (u_Action u = DiffActionUpdate → (u_Key u, u_Value u) ∈ kvs) ∧
       (u_Action u = DiffActionRemove → key_ids_ok id log = true →
        ∀ kv, kv ∈ kvs → GetKeyId id (KeyHash kv.1) ≠ u_KeyId u)).
Proof.
  intros Ho. unfold Build. cbn [fst].
  set (m := replay ∅ (Decode_fields <$> Build_query log id height)).
  rewrite pack_eq at 1. cbn [Data]. rewrite length_flat. intros Hsz.
  exists (payload <$> order m). split; [by apply entries_pack|].
  assert (∀ kv, kv ∈ payload <$> order m ↔ ∃ k v, m !! k = Some v ∧ payload v = kv)
    as Hin.
  { intros kv. rewrite (Ho m), <- list_fmap_compose, list_elem_of_fmap. split.
    - intros ([k v] & -> & Hkv). exists k, v.
      by apply elem_of_map_to_list in Hkv.
    - intros (k & v & Hkv & <-). exists (k, v). split; [done|].
      by apply elem_of_map_to_list. }
  split.
  - intros kv Hkv. apply Hin in Hkv as (k & v & Hk & <-).
    assert (map_Forall (λ _ v, ∃ u, u ∈ log ∧ u_BigmapId u = id
                                   ∧ u_Height u ≤ height
                                   ∧ u_Action u = DiffActionUpdate
                                   ∧ (u_Key u, u_Value u) = payload v) m)
      as Hsound.
    { apply replay_sound; [apply map_Forall_empty|].
      apply Forall_fmap, Forall_forall. intros u Hu Ha.
      apply list_elem_of_filter in Hu as [[? ?] Hu]. by exists u. }
    apply (Hsound k v Hk).
  - intros before u after Hsplit Hafter.
    assert (m !! u_KeyId u
            = replay_step (replay ∅ (Decode_fields <$> before)) (Decode_fields u)
                !! u_KeyId u) as Hm.
    { subst m. rewrite Hsplit, fmap_app, fmap_cons. unfold replay.
      rewrite foldl_app. cbn [foldl].
      apply (replay_no_later _ (Decode_fields <$> after)).
      by apply Forall_fmap. }
    unfold replay_step in Hm. cbn [Decode_fields u_Action u_KeyId] in Hm.
    split; intros Ha; rewrite Ha in Hm.
    + rewrite lookup_insert_eq in Hm. apply Hin. by eexists _, _.
    + rewrite lookup_delete_eq in Hm. intros Hok kv Hkv Hk.
      apply Hin in Hkv as (k & v & Hv & <-).
      pose proof (Build_store_wf log id height Hok k v Hv) as Hwf.
      cbn [payload fst] in Hk. fold m in Hv. congruence.
Qed.

(** X9. A built snapshot holds at most one pair per key id: on a log
    whose [Update] rows carry the key id of their key bytes, the key ids
    of the entries of the snapshot are pairwise distinct (of two keys
    with the same key id only one is kept). *)
Theorem Build_key_ids_distinct (order : range_order)
    (c : gmap Z BigmapHistory) log id height :
  valid_order order → key_ids_ok id log = true →
  Z.of_nat (length (Data (Build order c log id height).1)) < 2 ^ 32 →
  ∃ items,
    mapM (Get_item (Build order c log id height).1)
         (seqZ 0 (Len (Build order c log id height).1)) = Some items
    ∧ NoDup (v_KeyId <$> items).
Proof.
  intros Ho Hok. unfold Build. cbn [fst].
  set (m := replay ∅ (Decode_fields <$> Build_query log id height)).
  rewrite pack_eq at 1. cbn [Data]. rewrite length_flat. intros Hsz.
  exists (imap (decoded id) (order m)).
  split; [by apply mapM_Get_item_pack|].
  assert (kv_wf id m) as Hwf by (by apply Build_store_wf).
  assert (v_KeyId <$> imap (decoded id) (order m)
          = (λ v, GetKeyId id (KeyHash (v_Key v))) <$> order m) as ->.
  { apply list_eq. intros i.
    rewrite !list_lookup_fmap, list_lookup_imap. by destruct (order m !! i). }
  rewrite (Ho m), <- list_fmap_compose.
  rewrite (list_fmap_ext _ fst (map_to_list m)).
  - apply NoDup_fst_map_to_list.
  - intros i [k v] Hkv. simpl. apply (Hwf k v).
    apply elem_of_map_to_list. by eapply list_elem_of_lookup_2.
Qed.

End ContentProps.

End CacheExtra.

(** ** Further properties of the big-map index *)

Module IndexExtra.
Import Index IndexProps.

Section KeysProps.
Context `{RowOk A}.

Lemma keys_ok_snoc (t : Store.Table A) x :
  Store.keys_ok t → row_id x = Store.sequence t + 1 →
  Store.keys_ok (Store.mkTable (Store.rows t ++ [x]) (Store.sequence t + 1)).
Proof.
  intros [Hnd Hle] Hx. split; cbn [Store.rows Store.sequence].
  - rewrite fmap_app. apply NoDup_app. split_and!; [done| |apply NoDup_singleton].
    intros i Hi Hx'. apply list_elem_of_singleton in Hx'.
    apply list_elem_of_fmap in Hi as (r & -> & Hr).
    pose proof (proj1 (Forall_forall _ _) Hle r Hr) as Hr'. simpl in Hr'. lia.
  - apply Forall_app. split.
    + eapply Forall_impl; [done|]. intros r Hr. simpl in *. lia.
    + apply Forall_singleton. lia.
Qed.

Lemma keys_ok_insert (t : Store.Table A) x :
  Store.keys_ok t → Store.keys_ok (Store.insert t x).1.
Proof. intros Ht. apply keys_ok_snoc; [done|]. apply row_id_set. Qed.

Lemma keys_ok_insert_all (t : Store.Table A) xs :
  Store.keys_ok t → Store.keys_ok (Store.insert_all t xs).
Proof.
  unfold Store.insert_all. revert t.
  induction xs as [|x xs IH]; intros t Ht; [done|].
  cbn [foldl]. by apply IH, keys_ok_insert.
Qed.

Lemma update_row_ids (t : Store.Table A) x :
  row_id <$> Store.rows (Store.update t x) = row_id <$> Store.rows t.
Proof.
  cbn [Store.update Store.rows]. rewrite <- list_fmap_compose.
  apply list_fmap_ext. intros i r _. simpl. by case_decide.
Qed.

Lemma keys_ok_update (t : Store.Table A) x :
  Store.keys_ok t → Store.keys_ok (Store.update t x).
Proof.
  intros [Hnd Hle]. split.
  - by rewrite update_row_ids.
  - cbn [Store.update Store.rows Store.sequence]. apply Forall_fmap.
    eapply Forall_impl; [done|]. intros r Hr. unfold compose.
    destruct (decide (row_id r = row_id x)) as [Heq|]; [|done].
    by rewrite <- Heq.
Qed.

Lemma keys_ok_update_all (t : Store.Table A) xs :
  Store.keys_ok t → Store.keys_ok (Store.update_all t xs).
Proof.
  unfold Store.update_all. revert t.
  induction xs as [|x xs IH]; intros t Ht; [done|].
  cbn [foldl]. by apply IH, keys_ok_update.
Qed.

Lemma keys_ok_filter (P : A → Prop) `{∀ r, Decision (P r)} (t : Store.Table A) :
  Store.keys_ok t →
  Store.keys_ok (Store.mkTable (filter P (Store.rows t)) (Store.sequence t)).
Proof.
  intros [Hnd Hle]. split; cbn [Store.rows Store.sequence].
  - eapply sublist_NoDup; [done|]. apply fmap_sublist, sublist_filter.
  - apply Forall_forall. intros r Hr.
    apply list_elem_of_filter in Hr as [_ Hr].
    by apply (proj1 (Forall_forall _ _) Hle).
Qed.

Lemma keys_ok_delete_ids (t : Store.Table A) ids :
  Store.keys_ok t → Store.keys_ok (Store.delete_ids t ids).
Proof. apply keys_ok_filter. Qed.

Lemma keys_ok_delete_where (P : A → Prop) `{∀ r, Decision (P r)}
    (t : Store.Table A) :
  Store.keys_ok t → Store.keys_ok (Store.delete_where P t).
Proof. apply keys_ok_filter. Qed.

Lemma keys_ok_row (t : Store.Table A) r :
  Store.keys_ok t → r ∈ Store.rows t → row_id r ≤ Store.sequence t.
Proof. intros [_ Hle] Hr. by apply (proj1 (Forall_forall _ _) Hle). Qed.

End KeysProps.
(** The keys of a table stay sound through the writes of the engine. *)
Ltac keys_solve :=
  repeat first
    [ done
    | apply keys_ok_update
    | apply keys_ok_update_all
    | apply keys_ok_delete_ids
    | apply keys_ok_delete_where
    | apply keys_ok_insert_all
    | apply keys_ok_insert
    | apply keys_ok_snoc; [|reflexivity] ].

Section StoreOk.
Context `{Hashing} `{Typing}.

Lemma loadAlloc_store_ok st id alloc st' :
  store_ok st → loadAlloc st id = Ok (alloc, st') → store_ok st'.
Proof.
  intros Hok Hl. apply loadAlloc_tables in Hl as (Ha & Hu & Hv & _).
  unfold store_ok. by rewrite Ha, Hu, Hv.
Qed.

Lemma apply_diff_store_ok block op st tmp diff st' tmp' :
  store_ok st → apply_diff block op st tmp diff = Ok (st', tmp') → store_ok st'.
Proof.
  intros Hok. unfold apply_diff. destruct (e_Action diff).
  - (* Update *)
    unfold apply_Update. destruct (e_Id diff <? 0).
    + destruct (tmp !! e_Id diff) as [bm|]; [|done].
      destruct Hok as (Ha & Hu & Hv).
      destruct (list_find _ _) as [[pos v]|]; intros [= <- <-];
        unfold store_ok; state_simpl; split_and!; keys_solve.
    + destruct (loadAlloc st (e_Id diff)) as [[alloc st1]| |] eqn:Hl; [|done..].
      apply loadAlloc_store_ok in Hl as (Ha & Hu & Hv); [|done].
      destruct (find_live st1 diff) as [prev|]; intros [= <- <-];
        unfold store_ok; state_simpl; split_and!; keys_solve.
  - (* Remove *)
    unfold apply_Remove. destruct (negb (IsValid (e_KeyHash diff))).
    + destruct (e_Id diff <? 0).
      * destruct (tmp !! e_Id diff) as [bm|]; [|done].
        destruct Hok as (Ha & Hu & Hv). intros [= <- <-].
        unfold store_ok; state_simpl; split_and!; keys_solve.
      * destruct (loadAlloc st (e_Id diff)) as [[alloc st1]| |] eqn:Hl;
          [|done..].
        apply loadAlloc_store_ok in Hl as (Ha & Hu & Hv); [|done].
        intros [= <- <-]. unfold store_ok; state_simpl; split_and!; keys_solve.
    + destruct (e_Id diff <? 0).
      * destruct (tmp !! e_Id diff) as [bm|]; [|done].
        destruct Hok as (Ha & Hu & Hv).
        destruct (list_find _ (bm_Live bm)) as [[pos v]|];
          destruct (list_find _ _) as [[pos' u]|]; intros [= <- <-];
          unfold store_ok; state_simpl; split_and!; keys_solve.
      * destruct (loadAlloc st (e_Id diff)) as [[alloc st1]| |] eqn:Hl;
          [|done..].
        apply loadAlloc_store_ok in Hl as (Ha & Hu & Hv); [|done].
        destruct (find_live st1 diff) as [prev|]; intros [= <- <-];
          unfold store_ok; state_simpl; split_and!; keys_solve.
  - (* Copy *)
    unfold apply_Copy.
    set (src := if e_SourceId diff <? 0 then _ else _).
    assert (∀ alloc updates live st1,
              src = Ok (alloc, updates, live, st1) → store_ok st1) as Hsrc.
    { subst src. intros alloc updates live st1.
      destruct (e_SourceId diff <? 0).
      - destruct (tmp !! e_SourceId diff) as [bm|]; [|done].
        by intros [= <- <- <- <-].
      - destruct (loadAlloc st (e_SourceId diff)) as [[srcAlloc st2]| |] eqn:Hl;
          [|done..].
        apply loadAlloc_store_ok in Hl; [|done]. by intros [= <- <- <- <-]. }
    destruct src as [[[[alloc updates] live] st1]| |]; [|done..].
    destruct (Hsrc _ _ _ _ eq_refl) as (Ha & Hu & Hv).
    cbn [mbind result_bind]. destruct (e_DestId diff <? 0).
    + by intros [= <- <-].
    + intros [= <- <-]. unfold store_ok; state_simpl; split_and!; keys_solve.
  - (* Alloc *)
    unfold apply_Alloc.
    destruct (reconcile_types block op st diff) as [[diff1 st1]| |] eqn:Hrec;
      [|done..].
    apply reconcile_types_state in Hrec as (_ & Hat & Hut & Hvt & _).
    destruct Hok as (Ha & Hu & Hv). rewrite <- Hat, <- Hut, <- Hvt in *.
    cbn [mbind result_bind]. destruct (e_Id diff1 <? 0).
    + by intros [= <- <-].
    + intros [= <- <-]. unfold store_ok; state_simpl; split_and!; keys_solve.
Qed.

Lemma rollback_step_store_ok height st allocs v st' allocs' :
  store_ok st → rollback_step height st allocs v = Ok (st', allocs') →
  store_ok st'.
Proof.
  intros Hok. unfold rollback_step.
  set (ld := match allocs !! u_BigmapId v with Some _ => _ | None => _ end).
  assert (∀ alloc st1 allocs1, ld = Ok (alloc, st1, allocs1) → store_ok st1)
    as Hld.
  { subst ld. intros alloc st1 allocs1.
    destruct (allocs !! u_BigmapId v) as [a|]; [by intros [= <- <- <-]|].
    destruct (loadAlloc st (u_BigmapId v)) as [[a st2]| |] eqn:Hl; [|done..].
    apply loadAlloc_store_ok in Hl; [|done]. by intros [= <- <- <-]. }
  destruct ld as [[[alloc st1] allocs1]| |]; [|done..].
  destruct (Hld _ _ _ eq_refl) as (Ha & Hu & Hv).
  cbn [mbind result_bind].
  destruct (u_Action v).
  - (* Update *)
    destruct (find_prev _ _ _ _ _ _) as [prev|];
      destruct (find_current _ _ _ _) as [live|];
      try destruct (decide (u_Action prev = DiffActionRemove));
      cbn [mbind result_bind]; try done; intros [= <- <-];
      unfold store_ok, mutate_rollback; state_simpl; split_and!; keys_solve.
  - (* Remove *)
    destruct (find_prev _ _ _ _ _ _) as [prev|];
      try destruct (decide (u_Action prev ≠ DiffActionUpdate));
      intros [= <- <-];
      unfold store_ok, mutate_rollback; state_simpl; split_and!; keys_solve.
  - (* Copy *)
    destruct (find_prev _ _ _ _ _ _) as [prev|];
      destruct (find_current _ _ _ _) as [live|];
      try destruct (decide (u_Action prev = DiffActionRemove));
      cbn [mbind result_bind]; try done; intros [= <- <-];
      unfold store_ok, mutate_rollback; state_simpl; split_and!; keys_solve.
  - by intros [= <- <-].
Qed.

(** X10. The engine keeps the primary keys of its three tables sound:
    when in every table no row id occurs twice and none exceeds the
    sequence of the table, the same holds after [ConnectBlock], after
    [DeleteBlock] and after [DisconnectBlock], for every block and
    height. *)
Theorem engine_keeps_row_ids_unique st :
  store_ok st →
  (∀ block st', ConnectBlock st block = Ok st' → store_ok st')
  ∧ (∀ height st', DeleteBlock st height = Ok st' → store_ok st')
  ∧ (∀ block st', DisconnectBlock st block = Ok st' → store_ok st').
Proof.
  intros Hok.
  assert (∀ st height st', store_ok st → DeleteBlock st height = Ok st' →
                           store_ok st') as Hdel.
  { clear. intros st height st' Hok. unfold DeleteBlock.
    destruct (foldl _ _ _) as [[st1 allocs]| |] eqn:Hfold; [|done..].
    apply (foldl_result_inv store_ok (rollback_step height)) in Hfold;
      [|apply rollback_step_store_ok|done].
    destruct Hfold as (Ha & Hu & Hv). intros [= <-].
    unfold store_ok; state_simpl; split_and!; keys_solve. }
  split_and!.
  - intros block st'. unfold ConnectBlock.
    destruct (apply_ops block st ∅ (b_Ops block)) as [[st1 tmp1]| |] eqn:Hops;
      [|done..].
    intros [= <-]. revert Hops. unfold apply_ops.
    apply foldl_result_inv; [|done]. clear.
    intros st tmp op st' tmp' Hok. unfold apply_op.
    destruct (_ || _); [by intros [= <- <-]|].
    unfold apply_diffs. apply foldl_result_inv; [|done]. clear.
    intros st tmp diff st' tmp'. apply apply_diff_store_ok.
  - intros height st'. by apply Hdel.
  - intros block st'. unfold DisconnectBlock. by apply Hdel.
Qed.

End StoreOk.

Section FilterProps.
Context {A : Type}.

Lemma filter_none (P : A → Prop) `{∀ x, Decision (P x)} (l : list A) :
  Forall (λ x, ¬ P x) l → filter P l = [].
Proof.
  induction 1 as [|x l Hx _ IH]; [done|]. by rewrite filter_cons_False.
Qed.

Lemma filter_all (P : A → Prop) `{∀ x, Decision (P x)} (l : list A) :
  Forall P l → filter P l = l.
Proof.
  induction 1 as [|x l Hx _ IH]; [done|]. rewrite filter_cons_True; [|done].
  by rewrite IH.
Qed.

End FilterProps.

Section AppendProps.
Context `{Row A}.

Lemma appended_refl (P : A → Prop) (t : Store.Table A) : Store.appended P t t.
Proof. exists []. by rewrite app_nil_r. Qed.

Lemma appended_trans (P : A → Prop) (t1 t2 t3 : Store.Table A) :
  Store.appended P t1 t2 → Store.appended P t2 t3 → Store.appended P t1 t3.
Proof.
  intros (a & Ha & HPa) (b & Hb & HPb). exists (a ++ b).
  split; [by rewrite Hb, Ha, app_assoc|by apply Forall_app].
Qed.

Lemma appended_impl (P Q : A → Prop) (t1 t2 : Store.Table A) :
  (∀ x, P x → Q x) → Store.appended P t1 t2 → Store.appended Q t1 t2.
Proof.
  intros HPQ (a & Ha & HPa). exists a. split; [done|].
  by eapply Forall_impl.
Qed.

Lemma appended_snoc (P : A → Prop) (t : Store.Table A) x n :
  P x → Store.appended P t (Store.mkTable (Store.rows t ++ [x]) n).
Proof. intros Hx. eexists. split; [done|]. by apply Forall_singleton. Qed.

Lemma appended_insert (P : A → Prop) (t : Store.Table A) x :
  (∀ id, P (set_row_id id x)) → Store.appended P t (Store.insert t x).1.
Proof. intros Hx. eexists. split; [done|]. by apply Forall_singleton. Qed.

Lemma appended_insert_all (P : A → Prop) (t : Store.Table A) xs :
  Forall (λ x, ∀ id, P (set_row_id id x)) xs →
  Store.appended P t (Store.insert_all t xs).
Proof.
  unfold Store.insert_all. revert t.
  induction xs as [|x xs IH]; intros t Hxs; [apply appended_refl|].
  apply Forall_cons in Hxs as [Hx Hxs]. cbn [foldl].
  eapply appended_trans; [by apply appended_insert|by apply IH].
Qed.

End AppendProps.

Lemma foldl_result_inv2 {S T X} (P : S → T → Prop)
    (f : S → T → X → result (S * T)) (xs : list X) :
  (∀ s t x s' t', x ∈ xs → P s t → f s t x = Ok (s', t') → P s' t') →
  ∀ s t s' t',
    P s t → foldl (λ acc x, '(s, t) ← acc; f s t x) (Ok (s, t)) xs = Ok (s', t') →
    P s' t'.
Proof.
  induction xs as [|x xs IH]; intros Hf s t s' t' Hs.
  - by intros [= <- <-].
  - cbn [foldl mbind result_bind]. destruct (f s t x) as [[s1 t1]| |] eqn:Hx.
    + apply IH.
      * intros s2 t2 y s3 t3 Hy. apply Hf. by apply elem_of_cons; right.
      * eapply Hf; [|done..]. by apply elem_of_cons; left.
    + by rewrite foldl_failed.
    + by rewrite foldl_failed.
Qed.

Section LogProps.
Context `{Hashing} `{Typing}.

Ltac row_solve :=
  split; [done|]; simpl; intros; split_and!; first [done | congruence].

Ltac log_solve :=
  first
    [ apply appended_refl
    | apply (appended_snoc (A:=BigmapUpdate)); row_solve
    | apply (appended_insert (A:=BigmapUpdate)); intros ?; row_solve ].

Lemma apply_diff_log block op st tmp diff st' tmp' :
  apply_diff block op st tmp diff = Ok (st', tmp') →
  Store.appended (added_by op diff) (updateTable st) (updateTable st').
Proof.
  unfold apply_diff. destruct (e_Action diff) eqn:Hact.
  - (* Update *)
    unfold apply_Update. destruct (e_Id diff <? 0).
    + destruct (tmp !! e_Id diff) as [bm|]; [|done].
      destruct (list_find _ _) as [[pos v]|]; intros [= <- <-]; state_simpl;
        log_solve.
    + destruct (loadAlloc st (e_Id diff)) as [[alloc st1]| |] eqn:Hl; [|done..].
      apply loadAlloc_tables in Hl as (_ & <- & _ & _).
      destruct (find_live st1 diff) as [prev|]; intros [= <- <-]; state_simpl;
        log_solve.
  - (* Remove *)
    unfold apply_Remove. destruct (negb (IsValid (e_KeyHash diff))).
    + destruct (e_Id diff <? 0).
      * destruct (tmp !! e_Id diff) as [bm|]; [|done]. intros [= <- <-].
        state_simpl. log_solve.
      * destruct (loadAlloc st (e_Id diff)) as [[alloc st1]| |] eqn:Hl;
          [|done..].
        apply loadAlloc_tables in Hl as (_ & <- & _ & _).
        intros [= <- <-]. state_simpl.
        eapply appended_trans; [|apply (appended_insert_all (A:=BigmapUpdate));
          apply Forall_fmap, Forall_forall; intros v _ id; row_solve].
        log_solve.
    + destruct (e_Id diff <? 0).
      * destruct (tmp !! e_Id diff) as [bm|]; [|done].
        destruct (list_find _ (bm_Live bm)) as [[pos v]|];
          destruct (list_find _ _) as [[pos' u]|]; intros [= <- <-];
          state_simpl; log_solve.
      * destruct (loadAlloc st (e_Id diff)) as [[alloc st1]| |] eqn:Hl;
          [|done..].
        apply loadAlloc_tables in Hl as (_ & <- & _ & _).
        destruct (find_live st1 diff) as [prev|]; intros [= <- <-];
          state_simpl; log_solve.
  - (* Copy *)
    unfold apply_Copy.
    set (src := if e_SourceId diff <? 0 then _ else _).
    assert (∀ alloc updates live st1,
              src = Ok (alloc, updates, live, st1) →
              updateTable st1 = updateTable st
              ∧ Forall (λ x, ∀ id, added_by op diff (set_row_id id x)) updates)
      as Hsrc.
    { subst src. intros alloc updates live st1.
      destruct (e_SourceId diff <? 0).
      - destruct (tmp !! e_SourceId diff) as [bm|]; [|done].
        intros [= <- <- <- <-]. split; [done|].
        apply Forall_cons. split; [intros id; row_solve|].
        unfold copy_live. cbn [fst snd].
        apply Forall_fmap, Forall_forall. intros v _ id. row_solve.
      - destruct (loadAlloc st (e_SourceId diff)) as [[srcAlloc st2]| |] eqn:Hl;
          [|done..].
        apply loadAlloc_tables in Hl as (_ & <- & _ & _).
        intros [= <- <- <- <-]. split; [done|].
        apply Forall_cons. split; [intros id; row_solve|].
        unfold copy_live. cbn [fst snd].
        apply Forall_fmap, Forall_forall. intros v _ id. row_solve. }
    destruct src as [[[[alloc updates] live] st1]| |]; [|done..].
    destruct (Hsrc _ _ _ _ eq_refl) as (<- & Hupd).
    cbn [mbind result_bind]. destruct (e_DestId diff <? 0).
    + intros [= <- <-]. apply appended_refl.
    + intros [= <- <-]. state_simpl.
      by apply (appended_insert_all (A:=BigmapUpdate)).
  - (* Alloc *)
    unfold apply_Alloc.
    destruct (reconcile_types block op st diff) as [[diff1 st1]| |] eqn:Hrec;
      [|done..].
    apply reconcile_types_state in Hrec as (_ & _ & <- & _ & _).
    cbn [mbind result_bind]. destruct (e_Id diff1 <? 0).
    + intros [= <- <-]. apply appended_refl.
    + intros [= <- <-]. state_simpl.
      log_solve.
Qed.

Lemma apply_ops_log block st tmp st' tmp' :
  apply_ops block st tmp (b_Ops block) = Ok (st', tmp') →
  Store.appended (added_in block) (updateTable st) (updateTable st').
Proof.
  unfold apply_ops.
  apply (foldl_result_inv2
           (λ s _, Store.appended (added_in block) (updateTable st) (updateTable s))
           (apply_op block)); [|apply appended_refl].
  intros s t op s' t' Hop Hs. unfold apply_op.
  destruct (_ || _) eqn:Hskip; [by intros [= <- <-]|].
  apply orb_false_iff in Hskip as [_ Hok]. apply negb_false_iff in Hok.
  unfold apply_diffs.
  apply (foldl_result_inv2
           (λ s _, Store.appended (added_in block) (updateTable st) (updateTable s))
           (apply_diff block op)); [|done].
  intros s1 t1 diff s2 t2 Hdiff Hs1 Happ.
  eapply appended_trans; [done|].
  eapply appended_impl; [|by eapply apply_diff_log].
  intros u Hu. by exists op, diff.
Qed.

Lemma rollback_step_log height st allocs v st' allocs' :
  rollback_step height st allocs v = Ok (st', allocs') →
  updateTable st' = updateTable st.
Proof.
  unfold rollback_step.
  set (ld := match allocs !! u_BigmapId v with Some _ => _ | None => _ end).
  assert (∀ alloc st1 allocs1, ld = Ok (alloc, st1, allocs1) →
                               updateTable st1 = updateTable st) as Hld.
  { subst ld. intros alloc st1 allocs1.
    destruct (allocs !! u_BigmapId v) as [a|]; [by intros [= <- <- <-]|].
    destruct (loadAlloc st (u_BigmapId v)) as [[a st2]| |] eqn:Hl; [|done..].
    apply loadAlloc_tables in Hl as (_ & <- & _ & _). by intros [= <- <- <-]. }
  destruct ld as [[[alloc st1] allocs1]| |]; [|done..].
  rewrite <- (Hld alloc st1 allocs1 eq_refl). cbn [mbind result_bind].
  destruct (u_Action v);
    try destruct (find_prev _ _ _ _ _ _) as [prev|];
    try destruct (find_current _ _ _ _) as [live|];
    try destruct (decide (u_Action prev = DiffActionRemove));
    try destruct (decide (u_Action prev ≠ DiffActionUpdate));
    cbn [mbind result_bind]; try done; by intros [= <- <-].
Qed.

Lemma DeleteBlock_log st height st' :
  DeleteBlock st height = Ok st' →
  Store.rows (updateTable st')
  = filter (λ u, u_Height u ≠ height) (Store.rows (updateTable st))
  ∧ Store.sequence (updateTable st') = Store.sequence (updateTable st).
Proof.
  unfold DeleteBlock.
  destruct (foldl _ _ _) as [[st1 allocs]| |] eqn:Hfold; [|done..].
  apply (foldl_result_inv (λ s, updateTable s = updateTable st)
                          (rollback_step height)) in Hfold; [| |done].
  - intros [= <-]. state_simpl. by rewrite Hfold.
  - intros s t x s' t' Hs Hstep. apply rollback_step_log in Hstep. congruence.
Qed.

(** X11. [ConnectBlock] only appends to the update table: the rows it
    found stay in place and in order, and every row it adds was written
    for a diff of a successful operation of the block, whose height it
    carries; an added row with the action [Update] holds the big-map id,
    the key id, the key and the value of an [Update] diff. *)
Theorem ConnectBlock_appends_to_log st block st' :
  ConnectBlock st block = Ok st' →
  ∃ added,
    Store.rows (updateTable st') = Store.rows (updateTable st) ++ added
    ∧ Forall (added_in block) added.
Proof.
  unfold ConnectBlock.
  destruct (apply_ops block st ∅ (b_Ops block)) as [[st1 tmp1]| |] eqn:Hops;
    [|done..].
  intros [= <-]. by apply apply_ops_log in Hops.
Qed.

(** X12. The rollback of a block deletes the update rows of its height
    and no other: after [DeleteBlock], or [DisconnectBlock] of a block
    of that height, the update table holds the rows of every other
    height, in their order (the loop that rolls the live keys back
    writes nothing to the update table), and no allocation of that
    height is left in the allocation table. *)
Theorem DeleteBlock_deletes_block_updates st height st' :
  DeleteBlock st height = Ok st'
  ∨ (∃ block, b_Height block = height ∧ DisconnectBlock st block = Ok st') →
  Store.rows (updateTable st')
  = filter (λ u, u_Height u ≠ height) (Store.rows (updateTable st))
  ∧ Forall (λ a, a_Height a ≠ height) (Store.rows (allocTable st')).
Proof.
  intros [Hdel|(block & <- & Hdel)].
  - pose proof (DeleteBlock_deletes_block_allocations _ _ _ Hdel) as Hallocs.
    by apply DeleteBlock_log in Hdel as [-> _].
  - unfold DisconnectBlock in Hdel.
    pose proof (DeleteBlock_deletes_block_allocations _ _ _ Hdel) as Hallocs.
    by apply DeleteBlock_log in Hdel as [-> _].
Qed.

(** X13. Connecting a block and disconnecting it again restores the
    update log: when the operations of the block carry the height of the
    block and the log had no row of that height, the update table holds
    after [ConnectBlock] and [DisconnectBlock] the rows it held
    before. *)
Theorem disconnect_restores_log st block st1 st2 :
  (∀ op, op ∈ b_Ops block → op_Height op = b_Height block) →
  Forall (λ u, u_Height u ≠ b_Height block) (Store.rows (updateTable st)) →
  ConnectBlock st block = Ok st1 →
  DisconnectBlock st1 block = Ok st2 →
  Store.rows (updateTable st2) = Store.rows (updateTable st).
Proof.
  intros Hops Hlog. unfold ConnectBlock.
  destruct (apply_ops block st ∅ (b_Ops block)) as [[st1' tmp1]| |] eqn:Hc;
    [|done..].
  intros [= <-]. apply apply_ops_log in Hc as (added & Hrows & Hadded).
  unfold DisconnectBlock. intros Hd.
  apply DeleteBlock_log in Hd as [-> _]. state_simpl. rewrite Hrows.
  rewrite filter_app.
  assert (filter (λ u, u_Height u ≠ b_Height block) added = []) as ->.
  { apply filter_none. eapply Forall_impl; [done|].
    intros u (op & diff & Hop & _ & _ & Hh & _) Hne. apply Hne.
    rewrite Hh. by apply Hops. }
  rewrite app_nil_r. by apply filter_all.
Qed.

Lemma ascending_const l h :
  Forall (λ x, x = h) l → Cache.ascending l = true.
Proof.
  induction 1 as [|y l -> Hl IH]; [done|].
  cbn [Cache.ascending]. destruct l as [|z l]; [done|].
  apply Forall_cons in Hl as [-> Hl]. rewrite IH.
  by rewrite (proj2 (Z.leb_le _ _) (Z.le_refl _)).
Qed.

Lemma ascending_app_const l1 l2 h :
  Cache.ascending l1 = true → Forall (λ x, x ≤ h) l1 → Forall (λ x, x = h) l2 →
  Cache.ascending (l1 ++ l2) = true.
Proof.
  intros Hasc Hle Heq. induction l1 as [|x l1 IH].
  - by eapply ascending_const.
  - apply Forall_cons in Hle as [Hx Hle].
    pose proof (CacheProps.ascending_cons _ _ Hasc) as [Hall Hasc'].
    specialize (IH Hasc' Hle). cbn [app Cache.ascending].
    destruct (l1 ++ l2) as [|y l] eqn:Happ; [done|]. rewrite IH.
    rewrite andb_true_r. apply Z.leb_le.
    destruct l1 as [|y1 l1].
    + cbn [app] in Happ. subst l2. apply Forall_cons in Heq as [-> _]. done.
    + cbn [app] in Happ. injection Happ as -> _.
      by apply Forall_cons in Hall as [? _].
Qed.

(** X14. [ConnectBlock] keeps the update log in the shape the history
    cache replays: when the operations of the block carry the height of
    the block, the [Update] diffs carry the hash of their key, and no
    row of the log is above the height of the block, then afterwards no
    row is above that height, the heights of the rows of every big-map
    still ascend in row order, and every [Update] row of a big-map
    still carries the key id of its key bytes. *)
Theorem ConnectBlock_keeps_log_replayable st block st' :
  (∀ op, op ∈ b_Ops block → op_Height op = b_Height block) →
  hashed block →
  Forall (λ u, u_Height u ≤ b_Height block) (Store.rows (updateTable st)) →
  ConnectBlock st block = Ok st' →
  Forall (λ u, u_Height u ≤ b_Height block) (Store.rows (updateTable st'))
  ∧ ∀ id,
      (Cache.log_ascending id (Store.rows (updateTable st)) = true →
       Cache.log_ascending id (Store.rows (updateTable st')) = true)
      ∧ (Cache.key_ids_ok id (Store.rows (updateTable st)) = true →
         Cache.key_ids_ok id (Store.rows (updateTable st')) = true).
Proof.
  intros Hops Hkeys Hlog. unfold ConnectBlock.
  destruct (apply_ops block st ∅ (b_Ops block)) as [[st1 tmp1]| |] eqn:Hc;
    [|done..].
  intros [= <-]. apply apply_ops_log in Hc as (added & -> & Hadded).
  assert (Forall (λ u, u_Height u = b_Height block) added) as Hheights.
  { eapply Forall_impl; [done|].
    intros u (op & diff & Hop & _ & _ & -> & _). by apply Hops. }
  split; [|intros id; split].
  - apply Forall_app. split; [done|].
    eapply Forall_impl; [exact Hheights|]. intros u Hu. simpl in Hu. lia.
  - unfold Cache.log_ascending. intros Hasc. rewrite filter_app, fmap_app.
    apply (ascending_app_const _ _ (b_Height block)); [done| |].
    + apply Forall_fmap, Forall_forall. intros u Hu.
      apply list_elem_of_filter in Hu as [_ Hu].
      by apply (proj1 (Forall_forall _ _) Hlog).
    + apply Forall_fmap, Forall_forall. intros u Hu.
      apply list_elem_of_filter in Hu as [_ Hu].
      by apply (proj1 (Forall_forall _ _) Hheights).
  - unfold Cache.key_ids_ok. intros Hok. rewrite forallb_app, Hok.
    cbn [andb]. apply forallb_forall. intros u Hu.
    apply list_elem_of_In in Hu.
    destruct (proj1 (Forall_forall _ _) Hadded u Hu)
      as (op & diff & Hop & _ & Hdiff & _ & Hupd).
    case_decide as Hc; [|done]. destruct Hc as [<- Hact].
    destruct (Hupd Hact) as (Hact' & -> & -> & -> & _).
    apply bool_decide_eq_true. by rewrite (Hkeys op diff).
Qed.

End LogProps.

Section FrameProps.
Context {A : Type}.

Lemma fmap_inj_elem {B} (f : A → B) (l : list A) x y :
  NoDup (f <$> l) → x ∈ l → y ∈ l → f x = f y → x = y.
Proof.
  intros Hnd Hx Hy Heq.
  apply list_elem_of_lookup in Hx as [i Hi].
  apply list_elem_of_lookup in Hy as [j Hj].
  assert (i = j) as ->; [|congruence].
  eapply NoDup_lookup; [done| |].
  - by rewrite list_lookup_fmap, Hi.
  - by rewrite list_lookup_fmap, Hj, Heq.
Qed.

Lemma filter_ext_elem (P Q : A → Prop) `{∀ x, Decision (P x)}
    `{∀ x, Decision (Q x)} (l : list A) :
  (∀ x, x ∈ l → P x ↔ Q x) → filter P l = filter Q l.
Proof.
  induction l as [|x l IH]; intros Hl; [done|].
  rewrite !filter_cons.
  rewrite IH by (intros y Hy; apply Hl; by apply elem_of_cons; right).
  assert (P x ↔ Q x) as Hx by (apply Hl; by apply elem_of_cons; left).
  destruct (decide (P x)), (decide (Q x)); tauto.
Qed.

Lemma filter_fmap_frame (P : A → Prop) `{∀ x, Decision (P x)} (f : A → A)
    (l : list A) :
  (∀ r, r ∈ l → f r = r ∨ (¬ P r ∧ ¬ P (f r))) →
  filter P (f <$> l) = filter P l.
Proof.
  induction l as [|x l IH]; intros Hl; [done|].
  rewrite fmap_cons, !filter_cons.
  rewrite IH by (intros y Hy; apply Hl; by apply elem_of_cons; right).
  destruct (Hl x) as [->|[? ?]]; [by apply elem_of_cons; left|done|].
  by rewrite !decide_False.
Qed.

Lemma filter_fmap_length (P : A → Prop) `{∀ x, Decision (P x)} (f : A → A)
    (l : list A) :
  (∀ r, r ∈ l → P (f r) ↔ P r) →
  length (filter P (f <$> l)) = length (filter P l).
Proof.
  induction l as [|x l IH]; intros Hl; [done|].
  rewrite fmap_cons, !filter_cons.
  specialize (IH (λ y Hy, Hl y (proj2 (elem_of_cons _ _ _) (or_intror Hy)))).
  assert (P (f x) ↔ P x) as Hx by (apply Hl; by apply elem_of_cons; left).
  destruct (decide (P (f x))), (decide (P x)); cbn [length]; try tauto; lia.
Qed.

End FrameProps.

Section WriteProps.
Context `{Row A}.

(** A key that names a row names that row only. *)
Lemma update_row (t : Store.Table A) prev x r :
  NoDup (row_id <$> Store.rows t) → prev ∈ Store.rows t →
  row_id x = row_id prev → r ∈ Store.rows t →
  (row_id r = row_id x → r = prev).
Proof.
  intros Hnd Hp Hx Hr Heq. eapply row_id_inj; [done..|congruence].
Qed.

(** [DeleteIds] of the key of one row takes out that row. *)
Lemma delete_one (t : Store.Table A) prev :
  NoDup (row_id <$> Store.rows t) → prev ∈ Store.rows t →
  ∃ l1 l2, Store.rows t = l1 ++ prev :: l2
           ∧ Store.rows (Store.delete_ids t [row_id prev]) = l1 ++ l2.
Proof.
  intros Hnd Hp. apply list_elem_of_split in Hp as (l1 & l2 & Hl).
  exists l1, l2. split; [done|]. cbn [Store.delete_ids Store.rows].
  rewrite Hl in Hnd |- *. rewrite fmap_app, fmap_cons in Hnd.
  apply NoDup_app in Hnd as (_ & Hnot & Hnd).
  apply NoDup_cons in Hnd as [Hnot2 _].
  rewrite filter_app, filter_cons_False
    by (intros Hn; apply Hn, list_elem_of_singleton; done).
  rewrite !filter_all; [done| |].
  - apply Forall_forall. intros r Hr Hin.
    apply list_elem_of_singleton in Hin. apply Hnot2. rewrite <- Hin.
    by apply list_elem_of_fmap_2.
  - apply Forall_forall. intros r Hr Hin.
    apply list_elem_of_singleton in Hin.
    apply (Hnot (row_id r)); [by apply list_elem_of_fmap_2|].
    rewrite Hin. apply elem_of_cons. by left.
Qed.

(** [DeleteIds] of the keys of the rows a condition selects deletes the
    selected rows. *)
Lemma delete_selected (Q : A → Prop) `{∀ r, Decision (Q r)} (t : Store.Table A) :
  NoDup (row_id <$> Store.rows t) →
  Store.rows (Store.delete_ids t (row_id <$> filter Q (Store.rows t)))
  = filter (λ r, ¬ Q r) (Store.rows t).
Proof.
  intros Hnd. cbn [Store.delete_ids Store.rows].
  apply filter_ext_elem. intros r Hr. split.
  - intros Hn HQ. apply Hn. apply list_elem_of_fmap_2.
    by apply list_elem_of_filter.
  - intros HQ Hin. apply list_elem_of_fmap in Hin as (r' & Heq & Hr').
    apply list_elem_of_filter in Hr' as [HQ' Hr'].
    assert (r = r') as -> by (by eapply row_id_inj). done.
Qed.

Lemma insert_all_rows (t : Store.Table A) xs :
  ∃ ys, Store.rows (Store.insert_all t xs) = Store.rows t ++ ys
        ∧ Forall2 (λ y x, ∃ id, y = set_row_id id x) ys xs.
Proof.
  unfold Store.insert_all. revert t.
  induction xs as [|x xs IH]; intros t.
  - exists []. by rewrite app_nil_r.
  - cbn [foldl]. destruct (IH (Store.insert t x).1) as (ys & Hys & Hall).
    exists (set_row_id (Store.sequence t + 1) x :: ys). split.
    + rewrite Hys. cbn [Store.insert Store.rows fst]. by rewrite <- app_assoc.
    + apply Forall2_cons. split; [by eexists|done].
Qed.

End WriteProps.

Section CountProps.
Context `{Hashing} `{Typing}.

Lemma live_count_same st1 st2 id :
  valueTable st2 = valueTable st1 → live_count st2 id = live_count st1 id.
Proof. unfold live_count. by intros ->. Qed.

Lemma live_count_inserted st1 st2 x id :
  valueTable st2 = (Store.insert (valueTable st1) x).1 →
  live_count st2 id
  = live_count st1 id + (if decide (v_BigmapId x = id) then 1 else 0).
Proof.
  unfold live_count. intros ->. cbn [Store.insert Store.rows fst].
  rewrite filter_app, length_app, filter_cons, filter_nil.
  cbn [set_row_id BigmapValue_Row v_BigmapId].
  destruct (decide (v_BigmapId x = id)); cbn [length]; lia.
Qed.

Lemma live_count_updated st1 st2 prev x id :
  NoDup (v_RowId <$> Store.rows (valueTable st1)) →
  prev ∈ Store.rows (valueTable st1) →
  v_RowId x = v_RowId prev → v_BigmapId x = v_BigmapId prev →
  valueTable st2 = Store.update (valueTable st1) x →
  live_count st2 id = live_count st1 id.
Proof.
  unfold live_count. intros Hnd Hp Hid Hb ->. cbn [Store.update Store.rows].
  f_equal. apply filter_fmap_length. intros r Hr.
  destruct (decide (row_id r = row_id x)) as [Heq|]; [|done].
  assert (r = prev) as -> by (by eapply (update_row (A:=BigmapValue))).
  by rewrite Hb.
Qed.

Lemma live_count_deleted st1 st2 prev id :
  NoDup (v_RowId <$> Store.rows (valueTable st1)) →
  prev ∈ Store.rows (valueTable st1) →
  valueTable st2 = Store.delete_ids (valueTable st1) [v_RowId prev] →
  live_count st2 id
  = live_count st1 id - (if decide (v_BigmapId prev = id) then 1 else 0).
Proof.
  unfold live_count. intros Hnd Hp ->.
  pose proof (delete_one (A:=BigmapValue) (valueTable st1) prev) as Hone.
  destruct (Hone Hnd Hp) as (l1 & l2 & Hl & Hd).
  cbn [row_id BigmapValue_Row] in Hd. rewrite Hd, Hl.
  rewrite !filter_app, !length_app, filter_cons.
  destruct (decide (v_BigmapId prev = id)); cbn [length]; lia.
Qed.

Lemma live_count_emptied st1 st2 id id' :
  NoDup (v_RowId <$> Store.rows (valueTable st1)) →
  valueTable st2
  = Store.delete_ids (valueTable st1)
      (v_RowId <$> Store.stream (λ v, v_BigmapId v = id) (valueTable st1)) →
  live_count st2 id' = if decide (id' = id) then 0 else live_count st1 id'.
Proof.
  unfold live_count, Store.stream. intros Hnd ->.
  pose proof (delete_selected (A:=BigmapValue) (λ v, v_BigmapId v = id)
                (valueTable st1) Hnd) as Hsel.
  cbn [row_id BigmapValue_Row] in Hsel. rewrite Hsel.
  rewrite list_filter_filter. destruct (decide (id' = id)) as [->|Hne].
  - rewrite filter_none; [done|]. apply Forall_forall. intros v _. tauto.
  - f_equal. f_equal. apply filter_ext_elem. intros v _. split; [tauto|].
    intros Hv. split; [done|]. congruence.
Qed.

Lemma live_count_copied st1 st2 xs dst id :
  Forall (λ x, v_BigmapId x = dst) xs →
  valueTable st2 = Store.insert_all (valueTable st1) xs →
  live_count st2 id
  = live_count st1 id + (if decide (id = dst) then Z.of_nat (length xs) else 0).
Proof.
  unfold live_count. intros Hxs ->.
  destruct (insert_all_rows (A:=BigmapValue) (valueTable st1) xs)
    as (ys & -> & Hys).
  rewrite filter_app, length_app.
  assert (Forall (λ y, v_BigmapId y = dst) ys) as Hdst.
  { clear -Hys Hxs. induction Hys as [|y x ys xs [n ->] _ IH]; [done|].
    apply Forall_cons in Hxs as [Hx Hxs]. apply Forall_cons. split; [done|].
    by apply IH. }
  pose proof (Forall2_length _ _ _ Hys) as Hlen.
  destruct (decide (id = dst)) as [->|Hne].
  - rewrite (filter_all _ ys) by done. lia.
  - rewrite (filter_none _ ys); [cbn [length]; lia|].
    eapply Forall_impl; [exact Hdst|]. intros y Hy. simpl in *. congruence.
Qed.

Lemma counted_ext st1 st2 :
  allocTable st2 = allocTable st1 → valueTable st2 = valueTable st1 →
  counted st1 → counted st2.
Proof.
  unfold counted, live_count. intros -> ->. done.
Qed.

Lemma loadAlloc_coherent st id alloc st1 :
  coherent st → loadAlloc st id = Ok (alloc, st1) →
  coherent st1 ∧ alloc ∈ Store.rows (allocTable st1) ∧ a_BigmapId alloc = id
  ∧ allocTable st1 = allocTable st ∧ updateTable st1 = updateTable st
  ∧ valueTable st1 = valueTable st.
Proof.
  intros (Hok & Hnd & Hc). unfold loadAlloc.
  destruct (allocCache st !! id) as [a|] eqn:Hhit.
  - intros [= <- <-]. destruct (Hc id a Hhit) as [Hin Hid].
    by split_and!.
  - destruct (Store.first_where _ _) as [a|] eqn:Hrow; [|done].
    intros [= <- <-]. apply first_where_Some in Hrow as [Hin Heq].
    split_and!; try done. split_and!; try done. state_simpl.
    by apply map_Forall_insert_2.
Qed.

(** The write-back of a mutated allocation record. *)
Lemma wrote_alloc st1 st2 id alloc alloc' :
  coherent st1 → counted st1 →
  alloc ∈ Store.rows (allocTable st1) → a_BigmapId alloc = id →
  a_RowId alloc' = a_RowId alloc → a_BigmapId alloc' = id →
  allocTable st2 = Store.update (allocTable st1) alloc' →
  allocCache st2 = <[id := alloc']> (allocCache st1) →
  Store.keys_ok (updateTable st2) → Store.keys_ok (valueTable st2) →
  (∀ id', id' ≠ id → live_count st2 id' = live_count st1 id') →
  a_NKeys alloc' = live_count st2 id →
  coherent st2 ∧ counted st2
  ∧ a_BigmapId <$> Store.rows (allocTable st2)
    = a_BigmapId <$> Store.rows (allocTable st1).
Proof.
  intros ((Ha & Hu & Hv) & Hnd & Hc) Hcnt Hin Hid Hrow Hid' Hat Hcache
    Hu2 Hv2 Hframe Hn.
  assert (∀ r, r ∈ Store.rows (allocTable st1) →
               a_RowId r = a_RowId alloc' → r = alloc) as Hone.
  { intros r Hr Heq.
    eapply (row_id_inj (A:=BigmapAlloc)); [apply Ha|done..|].
    cbn [row_id BigmapAlloc_Row]. congruence. }
  assert (a_BigmapId <$> Store.rows (allocTable st2)
          = a_BigmapId <$> Store.rows (allocTable st1)) as Hids.
  { rewrite Hat. cbn [Store.update Store.rows]. rewrite <- list_fmap_compose.
    apply list_fmap_ext. intros i r Hr. unfold compose.
    destruct (decide (row_id r = row_id alloc')) as [Heq|]; [|done].
    rewrite (Hone r); [congruence|by eapply list_elem_of_lookup_2|done]. }
  split_and!; [| |done].
  - split_and!.
    + split_and!; [|done..]. rewrite Hat. by apply keys_ok_update.
    + by rewrite Hids.
    + rewrite Hcache. intros k a Hk.
      apply lookup_insert_Some in Hk as [[<- <-]|[Hne Hk]].
      * split; [|done]. rewrite Hat.
        by apply (update_writes (A:=BigmapAlloc) _ _ alloc).
      * destruct (Hc k a Hk) as [Hin' Hk']. split; [|done]. rewrite Hat.
        apply (update_keeps (A:=BigmapAlloc)); [done|].
        cbn [row_id BigmapAlloc_Row]. intros Heq.
        rewrite (Hone a Hin' Heq) in Hk'. congruence.
  - intros a Ha'. rewrite Hat in Ha'. cbn [Store.update Store.rows] in Ha'.
    apply list_elem_of_fmap in Ha' as (r & -> & Hr).
    destruct (decide (row_id r = row_id alloc')) as [Heq|Hne].
    + by rewrite Hid'.
    + assert (a_BigmapId r ≠ id) as Hother.
      { intros Heq. apply Hne.
        assert (r = alloc) as ->; [|done].
        eapply (fmap_inj_elem a_BigmapId); [done..|congruence]. }
      rewrite Hframe by done. by apply Hcnt.
Qed.

(** The insert of a new allocation record. *)
Lemma inserted_alloc st1 st2 id alloc0 :
  coherent st1 → counted st1 → fresh st1 id → a_BigmapId alloc0 = id →
  allocTable st2 = (Store.insert (allocTable st1) alloc0).1 →
  allocCache st2
  = <[id := (Store.insert (allocTable st1) alloc0).2]> (allocCache st1) →
  Store.keys_ok (updateTable st2) → Store.keys_ok (valueTable st2) →
  (∀ id', id' ≠ id → live_count st2 id' = live_count st1 id') →
  a_NKeys alloc0 = live_count st2 id →
  coherent st2 ∧ counted st2
  ∧ a_BigmapId <$> Store.rows (allocTable st2)
    = (a_BigmapId <$> Store.rows (allocTable st1)) ++ [id].
Proof.
  intros ((Ha & Hu & Hv) & Hnd & Hc) Hcnt [Hfresh _] Hid Hat Hcache
    Hu2 Hv2 Hframe Hn.
  assert (a_BigmapId <$> Store.rows (allocTable st2)
          = (a_BigmapId <$> Store.rows (allocTable st1)) ++ [id]) as Hids.
  { rewrite Hat. cbn [Store.insert Store.rows fst]. rewrite fmap_app.
    by rewrite <- Hid. }
  split_and!; [| |done].
  - split_and!.
    + split_and!; [|done..]. rewrite Hat. by apply keys_ok_insert.
    + rewrite Hids. apply NoDup_app. split_and!; [done| |apply NoDup_singleton].
      intros k Hk Hk'. apply list_elem_of_singleton in Hk'. subst k.
      apply list_elem_of_fmap in Hk as (a & Heq & Hin).
      by apply (proj1 (Forall_forall _ _) Hfresh a Hin).
    + rewrite Hcache. apply map_Forall_insert_2.
      * split; [|done]. rewrite Hat. apply (insert_adds (A:=BigmapAlloc)).
      * intros k a Hk. destruct (Hc k a Hk) as [Hin Hk']. split; [|done].
        rewrite Hat. by apply (insert_keeps (A:=BigmapAlloc)).
  - intros a Ha'. rewrite Hat in Ha'. cbn [Store.insert Store.rows fst] in Ha'.
    apply elem_of_app in Ha' as [Ha'|Ha'].
    + rewrite Hframe; [by apply Hcnt|].
      by apply (proj1 (Forall_forall _ _) Hfresh a Ha').
    + apply list_elem_of_singleton in Ha' as ->.
      cbn [set_row_id BigmapAlloc_Row a_NKeys a_BigmapId]. by rewrite Hid.
Qed.

Lemma coherent_ext st1 st2 :
  allocTable st2 = allocTable st1 → updateTable st2 = updateTable st1 →
  valueTable st2 = valueTable st1 → allocCache st2 = allocCache st1 →
  coherent st1 → coherent st2.
Proof. unfold coherent, store_ok. by intros -> -> -> ->. Qed.

Lemma kept_allocs st1 st2 :
  coherent st1 → counted st1 →
  allocTable st2 = allocTable st1 → valueTable st2 = valueTable st1 →
  allocCache st2 = allocCache st1 → Store.keys_ok (updateTable st2) →
  (coherent st2 ∧ counted st2)
  ∧ a_BigmapId <$> Store.rows (allocTable st2)
    = (a_BigmapId <$> Store.rows (allocTable st1)) ++ []
  ∧ ∀ id, Forall (λ a, a_BigmapId a ≠ id) (Store.rows (allocTable st1)) →
          id ∉ @nil Z → live_count st2 id = live_count st1 id.
Proof.
  intros ((Ha & Hu & Hv) & Hnd & Hc) Hcnt Hat Hvt Hcache Hu2.
  split_and!.
  - unfold coherent, store_ok. by rewrite Hat, Hvt, Hcache.
  - by eapply counted_ext.
  - by rewrite Hat, app_nil_r.
  - intros id _ _. by apply live_count_same.
Qed.

Lemma wrote_alloc_frame st1 st2 id alloc alloc' :
  coherent st1 → counted st1 →
  alloc ∈ Store.rows (allocTable st1) → a_BigmapId alloc = id →
  a_RowId alloc' = a_RowId alloc → a_BigmapId alloc' = id →
  allocTable st2 = Store.update (allocTable st1) alloc' →
  allocCache st2 = <[id := alloc']> (allocCache st1) →
  Store.keys_ok (updateTable st2) → Store.keys_ok (valueTable st2) →
  (∀ id', id' ≠ id → live_count st2 id' = live_count st1 id') →
  a_NKeys alloc' = live_count st2 id →
  (coherent st2 ∧ counted st2)
  ∧ a_BigmapId <$> Store.rows (allocTable st2)
    = a_BigmapId <$> Store.rows (allocTable st1)
  ∧ ∀ id', Forall (λ a, a_BigmapId a ≠ id') (Store.rows (allocTable st1)) →
           id' ∉ @nil Z → live_count st2 id' = live_count st1 id'.
Proof.
  intros Hco Hcnt Hin Hid Hrow Hid' Hat Hcache Hu2 Hv2 Hframe Hn.
  destruct (wrote_alloc st1 st2 id alloc alloc') as (? & ? & ?); try done.
  split_and!; try done. intros id' Hall _. apply Hframe. intros ->.
  by apply (proj1 (Forall_forall _ _) Hall alloc Hin).
Qed.

Lemma inserted_alloc_frame st1 st2 id alloc0 :
  coherent st1 → counted st1 → fresh st1 id → a_BigmapId alloc0 = id →
  allocTable st2 = (Store.insert (allocTable st1) alloc0).1 →
  allocCache st2
  = <[id := (Store.insert (allocTable st1) alloc0).2]> (allocCache st1) →
  Store.keys_ok (updateTable st2) → Store.keys_ok (valueTable st2) →
  (∀ id', id' ≠ id → live_count st2 id' = live_count st1 id') →
  a_NKeys alloc0 = live_count st2 id →
  (coherent st2 ∧ counted st2)
  ∧ a_BigmapId <$> Store.rows (allocTable st2)
    = (a_BigmapId <$> Store.rows (allocTable st1)) ++ [id]
  ∧ ∀ id', Forall (λ a, a_BigmapId a ≠ id') (Store.rows (allocTable st1)) →
           id' ∉ [id] → live_count st2 id' = live_count st1 id'.
Proof.
  intros Hco Hcnt Hfresh Hid Hat Hcache Hu2 Hv2 Hframe Hn.
  destruct (inserted_alloc st1 st2 id alloc0) as (? & ? & ?); try done.
  split_and!; try done. intros id' _ Hnot. apply Hframe. intros ->.
  apply Hnot. by apply list_elem_of_singleton.
Qed.

Lemma fresh_ext st1 st2 id :
  allocTable st2 = allocTable st1 → valueTable st2 = valueTable st1 →
  fresh st1 id → fresh st2 id.
Proof. unfold fresh, live_count. by intros -> ->. Qed.

Ltac wrote st1 id alloc :=
  eapply (wrote_alloc_frame st1 _ id alloc);
  [done|done|done|done| | |reflexivity|reflexivity| | | |];
  [done|done|state_simpl; keys_solve..| |].

Ltac inserted st1 id alloc0 :=
  eapply (inserted_alloc_frame st1 _ id alloc0);
  [done|done|done|done|reflexivity|reflexivity| | | |];
  [state_simpl; keys_solve..| |].

Lemma apply_diff_counted block op st tmp diff st' tmp' :
  coherent st → counted st → Forall (fresh st) (allocates diff) →
  apply_diff block op st tmp diff = Ok (st', tmp') →
  (coherent st' ∧ counted st')
  ∧ a_BigmapId <$> Store.rows (allocTable st')
    = (a_BigmapId <$> Store.rows (allocTable st)) ++ allocates diff
  ∧ ∀ id, Forall (λ a, a_BigmapId a ≠ id) (Store.rows (allocTable st)) →
          id ∉ allocates diff → live_count st' id = live_count st id.
Proof.
  intros Hco Hcnt Hfresh. unfold apply_diff, allocates in *.
  destruct (e_Action diff) eqn:Hact.
  - (* Update *)
    unfold apply_Update. destruct (e_Id diff <? 0).
    + destruct (tmp !! e_Id diff) as [bm|]; [|done].
      pose proof Hco as ((Ha & Hu & Hv) & _).
      destruct (list_find _ _) as [[pos v]|]; intros [= <- <-];
        apply kept_allocs; try done; state_simpl; keys_solve.
    + destruct (loadAlloc st (e_Id diff)) as [[alloc st1]| |] eqn:Hl; [|done..].
      apply loadAlloc_coherent in Hl
        as (Hco1 & Hin & Hid & Hat & Hut & Hvt); [|done].
      pose proof Hco1 as ((Ha & Hu & Hv) & _).
      assert (counted st1) as Hcnt1 by (by eapply counted_ext).
      assert (∀ id, live_count st id = live_count st1 id) as Hlc
        by (intros id; symmetry; by apply live_count_same).
      setoid_rewrite Hlc. rewrite <- Hat, app_nil_r.
      destruct (find_live st1 diff) as [prev|] eqn:Hprev; intros [= <- <-].
      * apply find_live_accepts in Hprev as (Hpin & Hpb & _).
        assert (∀ id', live_count
                  (with_valueTable st1
                     (Store.update (valueTable st1)
                        (set_row_id (v_RowId prev)
                           (NewBigmapValue diff (op_Height op))))) id'
                = live_count st1 id') as Hsame.
        { intros id'.
          eapply (live_count_updated st1 _ prev
                    (set_row_id (v_RowId prev)
                       (NewBigmapValue diff (op_Height op))));
            [apply Hv|done|done| |done]. by rewrite Hpb. }
        wrote st1 (e_Id diff) alloc.
        -- intros id' _. by rewrite <- (Hsame id').
        -- cbn [set_counters a_NKeys]. rewrite (Hcnt1 alloc Hin), Hid.
           by rewrite <- (Hsame (e_Id diff)).
      * assert (∀ id', live_count
                  (with_valueTable st1
                     (Store.insert (valueTable st1)
                        (NewBigmapValue diff (op_Height op))).1) id'
                = live_count st1 id'
                  + (if decide (e_Id diff = id') then 1 else 0)) as Hins.
        { intros id'.
          by apply (live_count_inserted st1 _
                      (NewBigmapValue diff (op_Height op)) id'). }
        wrote st1 (e_Id diff) alloc.
        -- intros id' Hne. etrans; [apply (Hins id')|].
           rewrite decide_False by done. lia.
        -- cbn [set_counters a_NKeys]. rewrite (Hcnt1 alloc Hin), Hid.
           etrans; [|symmetry; apply (Hins (e_Id diff))].
           by rewrite decide_True.
  - (* Remove *)
    unfold apply_Remove. destruct (negb (IsValid (e_KeyHash diff))).
    + destruct (e_Id diff <? 0).
      * destruct (tmp !! e_Id diff) as [bm|]; [|done].
        pose proof Hco as ((Ha & Hu & Hv) & _). intros [= <- <-].
        apply kept_allocs; try done; state_simpl; keys_solve.
      * destruct (loadAlloc st (e_Id diff)) as [[alloc st1]| |] eqn:Hl;
          [|done..].
        apply loadAlloc_coherent in Hl
          as (Hco1 & Hin & Hid & Hat & Hut & Hvt); [|done].
        pose proof Hco1 as ((Ha & Hu & Hv) & _).
        assert (counted st1) as Hcnt1 by (by eapply counted_ext).
        assert (∀ id, live_count st id = live_count st1 id) as Hlc
          by (intros id; symmetry; by apply live_count_same).
        setoid_rewrite Hlc. rewrite <- Hat, app_nil_r.
        intros [= <- <-].
        assert (∀ id', live_count
                  (with_valueTable st1
                     (Store.delete_ids (valueTable st1)
                        (v_RowId <$> Store.stream
                           (λ v, v_BigmapId v = e_Id diff) (valueTable st1))))
                  id'
                = if decide (id' = e_Id diff) then 0 else live_count st1 id')
          as Hemp.
        { intros id'. eapply live_count_emptied; [apply Hv|done]. }
        wrote st1 (e_Id diff) alloc.
        -- intros id' Hne. etrans; [apply (Hemp id')|].
           by rewrite decide_False.
        -- cbn [set_counters a_NKeys].
           etrans; [|symmetry; apply (Hemp (e_Id diff))].
           by rewrite decide_True.
    + destruct (e_Id diff <? 0).
      * destruct (tmp !! e_Id diff) as [bm|]; [|done].
        pose proof Hco as ((Ha & Hu & Hv) & _).
        destruct (list_find _ (bm_Live bm)) as [[pos v]|];
          destruct (list_find _ _) as [[pos' u]|]; intros [= <- <-];
          apply kept_allocs; try done; state_simpl; keys_solve.
      * destruct (loadAlloc st (e_Id diff)) as [[alloc st1]| |] eqn:Hl;
          [|done..].
        apply loadAlloc_coherent in Hl
          as (Hco1 & Hin & Hid & Hat & Hut & Hvt); [|done].
        pose proof Hco1 as ((Ha & Hu & Hv) & _).
        assert (counted st1) as Hcnt1 by (by eapply counted_ext).
        assert (∀ id, live_count st id = live_count st1 id) as Hlc
          by (intros id; symmetry; by apply live_count_same).
        setoid_rewrite Hlc. rewrite <- Hat, app_nil_r.
        destruct (find_live st1 diff) as [prev|] eqn:Hprev; intros [= <- <-].
        -- apply find_live_accepts in Hprev as (Hpin & Hpb & _).
           assert (∀ id', live_count
                     (with_valueTable st1
                        (Store.delete_ids (valueTable st1) [v_RowId prev])) id'
                   = live_count st1 id'
                     - (if decide (v_BigmapId prev = id') then 1 else 0))
             as Hdel.
           { intros id'. eapply live_count_deleted; [apply Hv|done|done]. }
           wrote st1 (e_Id diff) alloc.
           ++ intros id' Hne. etrans; [apply (Hdel id')|].
              rewrite decide_False by congruence. lia.
           ++ cbn [set_counters a_NKeys]. rewrite (Hcnt1 alloc Hin), Hid.
              etrans; [|symmetry; apply (Hdel (e_Id diff))].
              by rewrite decide_True.
        -- wrote st1 (e_Id diff) alloc.
           ++ intros id' _. by apply live_count_same.
           ++ cbn [set_counters a_NKeys]. rewrite (Hcnt1 alloc Hin), Hid.
              symmetry. by apply live_count_same.
  - (* Copy *)
    unfold apply_Copy.
    set (src := if e_SourceId diff <? 0 then _ else _).
    assert (∀ alloc updates live st1,
              src = Ok (alloc, updates, live, st1) →
              coherent st1 ∧ allocTable st1 = allocTable st
              ∧ valueTable st1 = valueTable st
              ∧ Store.keys_ok (updateTable st1)
              ∧ a_BigmapId alloc = e_DestId diff
              ∧ a_NKeys alloc = Z.of_nat (length live)
              ∧ Forall (λ x, v_BigmapId x = e_DestId diff) live) as Hsrc.
    { subst src. intros alloc updates live st1.
      destruct (e_SourceId diff <? 0).
      - destruct (tmp !! e_SourceId diff) as [bm|]; [|done].
        pose proof Hco as ((_ & Hu & _) & _).
        intros [= <- <- <- <-]. split_and!; try done.
        unfold copy_live. cbn [fst]. apply Forall_fmap, Forall_forall.
        by intros v _.
      - destruct (loadAlloc st (e_SourceId diff)) as [[srcAlloc st2]| |] eqn:Hl;
          [|done..].
        apply loadAlloc_coherent in Hl
          as (Hco1 & _ & _ & Hat & Hut & Hvt); [|done].
        pose proof Hco1 as ((_ & Hu & _) & _).
        intros [= <- <- <- <-]. split_and!; try done.
        unfold copy_live. cbn [fst]. apply Forall_fmap, Forall_forall.
        by intros v _. }
    destruct src as [[[[alloc updates] live] st1]| |]; [|done..].
    destruct (Hsrc _ _ _ _ eq_refl)
      as (Hco1 & Hat & Hvt & Hu1 & Hdst & Hn & Hlive).
    pose proof Hco1 as ((Ha & Hu & Hv) & _).
    assert (counted st1) as Hcnt1 by (by eapply counted_ext).
    assert (∀ id, live_count st id = live_count st1 id) as Hlc
      by (intros id; symmetry; by apply live_count_same).
    setoid_rewrite Hlc. rewrite <- Hat.
    cbn [mbind result_bind]. revert Hfresh. destruct (e_DestId diff <? 0).
    + intros _ [= <- <-]. by apply kept_allocs.
    + intros Hfresh. rewrite Forall_singleton in Hfresh.
      assert (fresh st1 (e_DestId diff)) as Hfresh1 by (by apply (fresh_ext st st1)).
      intros [= <- <-].
      assert (∀ id', live_count
                (with_valueTable st1 (Store.insert_all (valueTable st1) live))
                id'
              = live_count st1 id'
                + (if decide (id' = e_DestId diff)
                   then Z.of_nat (length live) else 0)) as Hcp.
      { intros id'. by eapply live_count_copied. }
      rewrite <- Hdst in Hfresh1, Hcp |- *.
      inserted st1 (a_BigmapId alloc) alloc.
      * intros id' Hne. etrans; [apply (Hcp id')|].
        rewrite decide_False by done. lia.
      * rewrite Hn. etrans; [|symmetry; apply (Hcp (a_BigmapId alloc))].
        rewrite decide_True by done. destruct Hfresh1 as [_ ->]. lia.
  - (* Alloc *)
    unfold apply_Alloc.
    destruct (reconcile_types block op st diff) as [[diff1 st1]| |] eqn:Hrec;
      [|done..].
    apply reconcile_types_state in Hrec as (Hid & Hat & Hut & Hvt & Hc).
    assert (coherent st1) as Hco1 by (by eapply coherent_ext).
    pose proof Hco1 as ((Ha & Hu & Hv) & _).
    assert (counted st1) as Hcnt1 by (by eapply counted_ext).
    assert (∀ id, live_count st id = live_count st1 id) as Hlc
      by (intros id; symmetry; by apply live_count_same).
    setoid_rewrite Hlc. rewrite <- Hat, <- Hid. rewrite <- Hid in Hfresh.
    cbn [mbind result_bind]. revert Hfresh. destruct (e_Id diff1 <? 0).
    + intros _ [= <- <-]. by apply kept_allocs.
    + intros Hfresh. rewrite Forall_singleton in Hfresh.
      assert (fresh st1 (e_Id diff1)) as Hfresh1 by (by apply (fresh_ext st st1)).
      intros [= <- <-]. inserted st1 (e_Id diff1) (NewBigmapAlloc op diff1).
      * intros id' _. by apply live_count_same.
      * cbn [NewBigmapAlloc a_NKeys]. destruct Hfresh1 as [_ <-].
        by apply live_count_same.
Qed.

(** A loop over steps that create big-maps: an invariant [I] that every
    step keeps when the ids it creates are unused, together with the
    unused ids every step leaves unused. *)
Lemma foldl_result_fresh {S T X} (I : S → T → Prop) (fr : S → Z → Prop)
    (ids : X → list Z) (f : S → T → X → result (S * T)) (xs : list X) :
  (∀ s t x s' t',
     x ∈ xs → I s t → NoDup (ids x) → Forall (fr s) (ids x) →
     f s t x = Ok (s', t') →
     I s' t' ∧ ∀ id, fr s id → id ∉ ids x → fr s' id) →
  ∀ s t s' t',
    I s t → NoDup (xs ≫= ids) → Forall (fr s) (xs ≫= ids) →
    foldl (λ acc x, '(s, t) ← acc; f s t x) (Ok (s, t)) xs = Ok (s', t') →
    I s' t' ∧ ∀ id, fr s id → id ∉ xs ≫= ids → fr s' id.
Proof.
  induction xs as [|x xs IH]; intros Hf s t s' t' Hs Hnd Hfr.
  - by intros [= <- <-].
  - rewrite bind_cons in Hnd, Hfr |- *.
    apply NoDup_app in Hnd as (Hndx & Hdisj & Hndxs).
    apply Forall_app in Hfr as [Hfrx Hfrxs].
    cbn [foldl mbind result_bind]. destruct (f s t x) as [[s1 t1]| |] eqn:Hx.
    + destruct (Hf s t x s1 t1) as [Hs1 Hkeep]; [by apply elem_of_cons; left|done..|].
      intros Hrest. apply IH in Hrest as [Hs' Hkeep']; [| |done|done|].
      * split; [done|]. intros id Hid Hnot. apply Hkeep'.
        -- apply Hkeep; [done|]. intros Hin. apply Hnot, elem_of_app. by left.
        -- intros Hin. apply Hnot, elem_of_app. by right.
      * intros s2 t2 y s3 t3 Hy. apply Hf. by apply elem_of_cons; right.
      * apply Forall_forall. intros id Hid. apply Hkeep.
        -- by apply (proj1 (Forall_forall _ _) Hfrxs).
        -- intros Hin. by apply (Hdisj id).
    + by rewrite foldl_failed.
    + by rewrite foldl_failed.
Qed.

Lemma apply_diff_fresh block op st tmp diff st' tmp' :
  coherent st ∧ counted st → NoDup (allocates diff) →
  Forall (fresh st) (allocates diff) →
  apply_diff block op st tmp diff = Ok (st', tmp') →
  (coherent st' ∧ counted st')
  ∧ ∀ id, fresh st id → id ∉ allocates diff → fresh st' id.
Proof.
  intros [Hco Hcnt] _ Hfresh Happ.
  destruct (apply_diff_counted _ _ _ _ _ _ _ Hco Hcnt Hfresh Happ)
    as (Hinv & Hids & Hframe).
  split; [done|]. intros id [Hnone Hzero] Hnot. split.
  - apply Forall_forall. intros a Ha Heq.
    assert (id ∈ a_BigmapId <$> Store.rows (allocTable st')) as Hin
      by (rewrite <- Heq; by apply list_elem_of_fmap_2).
    rewrite Hids in Hin. apply elem_of_app in Hin as [Hin|Hin]; [|done].
    apply list_elem_of_fmap in Hin as (a' & Heq' & Hin).
    by apply (proj1 (Forall_forall _ _) Hnone a' Hin).
  - by rewrite Hframe.
Qed.

Lemma apply_op_fresh block st tmp op st' tmp' :
  coherent st ∧ counted st → NoDup (op_allocates op) →
  Forall (fresh st) (op_allocates op) →
  apply_op block st tmp op = Ok (st', tmp') →
  (coherent st' ∧ counted st')
  ∧ ∀ id, fresh st id → id ∉ op_allocates op → fresh st' id.
Proof.
  intros Hinv Hnd Hfresh. unfold apply_op.
  destruct (_ || _) eqn:Hskip; [by intros [= <- <-]|].
  apply orb_false_iff in Hskip as [_ Hok]. apply negb_false_iff in Hok.
  unfold op_allocates in *. rewrite Hok in *.
  unfold apply_diffs.
  apply (foldl_result_fresh (λ s _, coherent s ∧ counted s) fresh allocates
           (apply_diff block op)); [|done..].
  intros s t diff s' t' _. apply apply_diff_fresh.
Qed.

(** X15. [ConnectBlock] keeps the live-key counters right. When the
    tables are coherent (sound row ids, one allocation row per big-map,
    the cache holding rows of the table), every allocation row counts
    in [n_live_keys] the live rows of its big-map, and the block creates
    only durable big-maps whose ids are unused, each once, then after
    [ConnectBlock] the tables are coherent and every allocation row
    counts the live rows of its big-map. *)
Theorem ConnectBlock_counts_live_keys st block st' :
  coherent st → counted st →
  NoDup (allocated block) → Forall (fresh st) (allocated block) →
  ConnectBlock st block = Ok st' →
  coherent st' ∧ counted st'.
Proof.
  intros Hco Hcnt Hnd Hfresh. unfold ConnectBlock.
  destruct (apply_ops block st ∅ (b_Ops block)) as [[st1 tmp1]| |] eqn:Hops;
    [|done..].
  intros [= <-]. unfold apply_ops in Hops.
  apply (foldl_result_fresh (λ s _, coherent s ∧ counted s) fresh op_allocates
           (apply_op block)) in Hops as [? _]; [done| |done..].
  intros s t op s' t' _. apply apply_op_fresh.
Qed.

End CountProps.

Section IsolationProps.
Context `{Hashing} `{Typing}.

Lemma live_rows_same st1 st2 id :
  valueTable st2 = valueTable st1 → live_rows st2 id = live_rows st1 id.
Proof. unfold live_rows. by intros ->. Qed.

Lemma live_rows_inserted st1 st2 x id :
  v_BigmapId x ≠ id →
  valueTable st2 = (Store.insert (valueTable st1) x).1 →
  live_rows st2 id = live_rows st1 id.
Proof.
  unfold live_rows. intros Hx ->. cbn [Store.insert Store.rows fst].
  rewrite filter_app, filter_cons_False, filter_nil; [|done].
  by rewrite app_nil_r.
Qed.

Lemma live_rows_updated st1 st2 prev x id :
  NoDup (v_RowId <$> Store.rows (valueTable st1)) →
  prev ∈ Store.rows (valueTable st1) →
  v_RowId x = v_RowId prev → v_BigmapId prev ≠ id → v_BigmapId x ≠ id →
  valueTable st2 = Store.update (valueTable st1) x →
  live_rows st2 id = live_rows st1 id.
Proof.
  unfold live_rows. intros Hnd Hp Hid Hb Hx ->.
  cbn [Store.update Store.rows]. apply filter_fmap_frame. intros r Hr.
  destruct (decide (row_id r = row_id x)) as [Heq|]; [|by left].
  assert (r = prev) as -> by (by eapply (update_row (A:=BigmapValue))).
  by right.
Qed.

Lemma live_rows_deleted st1 st2 prev id :
  NoDup (v_RowId <$> Store.rows (valueTable st1)) →
  prev ∈ Store.rows (valueTable st1) → v_BigmapId prev ≠ id →
  valueTable st2 = Store.delete_ids (valueTable st1) [v_RowId prev] →
  live_rows st2 id = live_rows st1 id.
Proof.
  unfold live_rows. intros Hnd Hp Hb ->.
  pose proof (delete_one (A:=BigmapValue) (valueTable st1) prev) as Hone.
  destruct (Hone Hnd Hp) as (l1 & l2 & Hl & Hd).
  cbn [row_id BigmapValue_Row] in Hd. rewrite Hd, Hl.
  by rewrite !filter_app, filter_cons_False.
Qed.

Lemma live_rows_emptied st1 st2 id0 id :
  NoDup (v_RowId <$> Store.rows (valueTable st1)) →
  valueTable st2
  = Store.delete_ids (valueTable st1)
      (v_RowId <$> Store.stream (λ v, v_BigmapId v = id0) (valueTable st1)) →
  live_rows st2 id = if decide (id = id0) then [] else live_rows st1 id.
Proof.
  unfold live_rows, Store.stream. intros Hnd ->.
  pose proof (delete_selected (A:=BigmapValue) (λ v, v_BigmapId v = id0)
                (valueTable st1) Hnd) as Hsel.
  cbn [row_id BigmapValue_Row] in Hsel. rewrite Hsel.
  rewrite list_filter_filter. destruct (decide (id = id0)) as [->|Hne].
  - apply filter_none. apply Forall_forall. intros v _. tauto.
  - apply filter_ext_elem. intros v _. split; [tauto|].
    intros Hv. split; [done|]. congruence.
Qed.

Lemma live_rows_copied st1 st2 xs dst id :
  Forall (λ x, v_BigmapId x = dst) xs → id ≠ dst →
  valueTable st2 = Store.insert_all (valueTable st1) xs →
  live_rows st2 id = live_rows st1 id.
Proof.
  unfold live_rows. intros Hxs Hne ->.
  destruct (insert_all_rows (A:=BigmapValue) (valueTable st1) xs)
    as (ys & -> & Hys).
  rewrite filter_app, (filter_none _ ys); [by rewrite app_nil_r|].
  clear -Hys Hxs Hne. induction Hys as [|y x ys xs [n ->] _ IH]; [done|].
  apply Forall_cons in Hxs as [Hx Hxs]. apply Forall_cons. split.
  - simpl. congruence.
  - by apply IH.
Qed.

Lemma apply_diff_isolated block op st tmp diff st' tmp' id :
  store_ok st → target diff ≠ id →
  apply_diff block op st tmp diff = Ok (st', tmp') →
  live_rows st' id = live_rows st id.
Proof.
  intros Hok. unfold apply_diff, target. destruct (e_Action diff).
  - (* Update *)
    intros Hne. unfold apply_Update. destruct (e_Id diff <? 0).
    + destruct (tmp !! e_Id diff) as [bm|]; [|done].
      destruct (list_find _ _) as [[pos v]|]; by intros [= <- <-].
    + destruct (loadAlloc st (e_Id diff)) as [[alloc st1]| |] eqn:Hl; [|done..].
      pose proof (loadAlloc_store_ok _ _ _ _ Hok Hl) as (_ & _ & Hv).
      apply loadAlloc_tables in Hl as (_ & _ & Hvt & _).
      rewrite <- (live_rows_same st st1 id Hvt).
      destruct (find_live st1 diff) as [prev|] eqn:Hprev; intros [= <- <-].
      * apply find_live_accepts in Hprev as (Hpin & Hpb & _).
        eapply (live_rows_updated st1 _ prev
                  (set_row_id (v_RowId prev)
                     (NewBigmapValue diff (op_Height op))));
          [apply Hv|done|done|congruence|done|done].
      * by apply (live_rows_inserted st1 _
                    (NewBigmapValue diff (op_Height op)) id).
  - (* Remove *)
    intros Hne. unfold apply_Remove. destruct (negb (IsValid (e_KeyHash diff))).
    + destruct (e_Id diff <? 0).
      * destruct (tmp !! e_Id diff) as [bm|]; [|done]. by intros [= <- <-].
      * destruct (loadAlloc st (e_Id diff)) as [[alloc st1]| |] eqn:Hl;
          [|done..].
        pose proof (loadAlloc_store_ok _ _ _ _ Hok Hl) as (_ & _ & Hv).
        apply loadAlloc_tables in Hl as (_ & _ & Hvt & _).
        rewrite <- (live_rows_same st st1 id Hvt). intros [= <- <-].
        etrans; [eapply (live_rows_emptied st1 _ (e_Id diff) id);
                 [apply Hv|done]|].
        by rewrite decide_False.
    + destruct (e_Id diff <? 0).
      * destruct (tmp !! e_Id diff) as [bm|]; [|done].
        destruct (list_find _ (bm_Live bm)) as [[pos v]|];
          destruct (list_find _ _) as [[pos' u]|]; by intros [= <- <-].
      * destruct (loadAlloc st (e_Id diff)) as [[alloc st1]| |] eqn:Hl;
          [|done..].
        pose proof (loadAlloc_store_ok _ _ _ _ Hok Hl) as (_ & _ & Hv).
        apply loadAlloc_tables in Hl as (_ & _ & Hvt & _).
        rewrite <- (live_rows_same st st1 id Hvt).
        destruct (find_live st1 diff) as [prev|] eqn:Hprev; intros [= <- <-].
        -- apply find_live_accepts in Hprev as (Hpin & Hpb & _).
           eapply (live_rows_deleted st1 _ prev);
             [apply Hv|done|congruence|done].
        -- done.
  - (* Copy *)
    intros Hne. unfold apply_Copy.
    set (src := if e_SourceId diff <? 0 then _ else _).
    assert (∀ alloc updates live st1,
              src = Ok (alloc, updates, live, st1) →
              valueTable st1 = valueTable st
              ∧ Forall (λ x, v_BigmapId x = e_DestId diff) live) as Hsrc.
    { subst src. intros alloc updates live st1.
      destruct (e_SourceId diff <? 0).
      - destruct (tmp !! e_SourceId diff) as [bm|]; [|done].
        intros [= <- <- <- <-]. split; [done|].
        unfold copy_live. cbn [fst]. apply Forall_fmap, Forall_forall.
        by intros v _.
      - destruct (loadAlloc st (e_SourceId diff)) as [[srcAlloc st2]| |] eqn:Hl;
          [|done..].
        apply loadAlloc_tables in Hl as (_ & _ & Hvt & _).
        intros [= <- <- <- <-]. split; [done|].
        unfold copy_live. cbn [fst]. apply Forall_fmap, Forall_forall.
        by intros v _. }
    destruct src as [[[[alloc updates] live] st1]| |]; [|done..].
    destruct (Hsrc _ _ _ _ eq_refl) as (Hvt & Hlive).
    rewrite <- (live_rows_same st st1 id Hvt).
    cbn [mbind result_bind]. destruct (e_DestId diff <? 0).
    + by intros [= <- <-].
    + intros [= <- <-].
      by eapply (live_rows_copied st1 _ live (e_DestId diff)).
  - (* Alloc *)
    intros Hne. unfold apply_Alloc.
    destruct (reconcile_types block op st diff) as [[diff1 st1]| |] eqn:Hrec;
      [|done..].
    apply reconcile_types_state in Hrec as (_ & _ & _ & Hvt & _).
    rewrite <- (live_rows_same st st1 id Hvt).
    cbn [mbind result_bind]. destruct (e_Id diff1 <? 0); by intros [= <- <-].
Qed.

Lemma apply_ops_store_ok block st tmp ops st' tmp' :
  store_ok st → apply_ops block st tmp ops = Ok (st', tmp') → store_ok st'.
Proof.
  unfold apply_ops. apply foldl_result_inv. clear.
  intros st tmp op st' tmp' Hok. unfold apply_op.
  destruct (_ || _); [by intros [= <- <-]|].
  unfold apply_diffs. apply foldl_result_inv; [|done]. clear.
  intros st tmp diff st' tmp'. apply apply_diff_store_ok.
Qed.

(** X16. A block changes the live rows of the big-maps its diffs name,
    and of no other: a big-map that is neither the big-map of a diff nor
    the destination of a [Copy] of a successful operation of the block
    has after [ConnectBlock] the live rows it had before, in the same
    order. *)
Theorem ConnectBlock_leaves_other_bigmaps st block st' id :
  store_ok st →
  (∀ op diff, op ∈ b_Ops block → op_IsSuccess op = true →
              diff ∈ op_BigmapEvents op → target diff ≠ id) →
  ConnectBlock st block = Ok st' →
  live_rows st' id = live_rows st id.
Proof.
  intros Hok Hother. unfold ConnectBlock.
  destruct (apply_ops block st ∅ (b_Ops block)) as [[st1 tmp1]| |] eqn:Hops;
    [|done..].
  intros [= <-]. revert Hops. unfold apply_ops.
  intros Hops.
  apply (foldl_result_inv2
           (λ s _, store_ok s ∧ live_rows s id = live_rows st id)
           (apply_op block)) in Hops as [_ ?]; [done| |done].
  intros s t op s' t' Hop [Hs Hrows]. unfold apply_op.
  destruct (_ || _) eqn:Hskip; [by intros [= <- <-]|].
  apply orb_false_iff in Hskip as [_ Hsucc]. apply negb_false_iff in Hsucc.
  unfold apply_diffs. intros Hdiffs.
  apply (foldl_result_inv2
           (λ s _, store_ok s ∧ live_rows s id = live_rows st id)
           (apply_diff block op)) in Hdiffs; [done| |done].
  intros s1 t1 diff s2 t2 Hdiff [Hs1 Hrows1] Happ. split.
  - by eapply apply_diff_store_ok.
  - rewrite <- Hrows1. eapply apply_diff_isolated; [done| |done].
    by apply (Hother op).
Qed.

Lemma find_prev_bigmap st v key hash height alloc prev :
  find_prev st v key hash height alloc = Some prev →
  u_BigmapId prev = u_BigmapId v.
Proof.
  unfold find_prev. intros Hp. apply first_where_Some in Hp as [Hin _].
  by apply elem_of_stream in Hin as [(? & _) _].
Qed.

Lemma find_current_live st v key hash live :
  find_current st v key hash = Some live →
  live ∈ Store.rows (valueTable st) ∧ v_BigmapId live = u_BigmapId v.
Proof.
  unfold find_current. intros Hp. apply first_where_Some in Hp as [Hin _].
  by apply elem_of_stream in Hin as [(? & _) ?].
Qed.

Lemma rollback_step_isolated height st allocs v st' allocs' id :
  store_ok st → u_BigmapId v ≠ id →
  rollback_step height st allocs v = Ok (st', allocs') →
  live_rows st' id = live_rows st id.
Proof.
  intros Hok Hne. unfold rollback_step.
  set (ld := match allocs !! u_BigmapId v with Some _ => _ | None => _ end).
  assert (∀ alloc st1 allocs1, ld = Ok (alloc, st1, allocs1) →
            valueTable st1 = valueTable st ∧ store_ok st1) as Hld.
  { subst ld. intros alloc st1 allocs1.
    destruct (allocs !! u_BigmapId v) as [a|]; [by intros [= <- <- <-]|].
    destruct (loadAlloc st (u_BigmapId v)) as [[a st2]| |] eqn:Hl; [|done..].
    pose proof (loadAlloc_store_ok _ _ _ _ Hok Hl) as Hok2.
    apply loadAlloc_tables in Hl as (Hat & Hut & Hvt & _).
    intros [= <- <- <-]. split; [done|].
    unfold store_ok in *. by state_simpl. }
  destruct ld as [[[alloc st1] allocs1]| |]; [|done..].
  destruct (Hld alloc st1 allocs1 eq_refl) as (Hvt & _ & _ & Hv).
  rewrite <- (live_rows_same st st1 id Hvt). clear Hld.
  cbn [mbind result_bind].
  destruct (u_Action v).
  - (* Update *)
    destruct (find_prev _ _ _ _ _ _) as [prev|] eqn:Hprev;
      destruct (find_current _ _ _ _) as [live|] eqn:Hlive;
      try destruct (decide (u_Action prev = DiffActionRemove));
      cbn [mbind result_bind]; try done; intros [= <- <-]; try done;
      try apply find_prev_bigmap in Hprev;
      apply find_current_live in Hlive as [Hin Hb].
    + eapply (live_rows_deleted st1 _ live); [apply Hv|done|congruence|done].
    + eapply (live_rows_updated st1 _ live
                (set_row_id (v_RowId live) (ToKV prev)));
        [apply Hv|done|done|congruence| |done].
      cbn. congruence.
    + eapply (live_rows_deleted st1 _ live); [apply Hv|done|congruence|done].
  - (* Remove *)
    destruct (find_prev _ _ _ _ _ _) as [prev|] eqn:Hprev;
      try destruct (decide (u_Action prev ≠ DiffActionUpdate));
      intros [= <- <-]; try done.
    apply find_prev_bigmap in Hprev.
    apply (live_rows_inserted st1 _ (ToKV prev) id); [|done].
    cbn. congruence.
  - (* Copy *)
    destruct (find_prev _ _ _ _ _ _) as [prev|] eqn:Hprev;
      destruct (find_current _ _ _ _) as [live|] eqn:Hlive;
      try destruct (decide (u_Action prev = DiffActionRemove));
      cbn [mbind result_bind]; try done; intros [= <- <-]; try done;
      try apply find_prev_bigmap in Hprev;
      apply find_current_live in Hlive as [Hin Hb].
    + eapply (live_rows_deleted st1 _ live); [apply Hv|done|congruence|done].
    + eapply (live_rows_updated st1 _ live
                (set_row_id (v_RowId live) (ToKV prev)));
        [apply Hv|done|done|congruence| |done].
      cbn. congruence.
    + eapply (live_rows_deleted st1 _ live); [apply Hv|done|congruence|done].
  - by intros [= <- <-].
Qed.

(** X17. The rollback of a block changes the live rows of the big-maps
    that have an update row at the height of the block, and of no
    other: a big-map without update row at that height has after
    [DeleteBlock] the live rows it had before, in the same order. *)
Theorem DeleteBlock_leaves_other_bigmaps st height st' id :
  store_ok st →
  (∀ u, u ∈ Store.rows (updateTable st) → u_Height u = height →
        u_BigmapId u ≠ id) →
  DeleteBlock st height = Ok st' →
  live_rows st' id = live_rows st id.
Proof.
  intros Hok Hother. unfold DeleteBlock.
  destruct (foldl _ _ _) as [[st1 allocs]| |] eqn:Hfold; [|done..].
  intros [= <-].
  apply (foldl_result_inv2
           (λ s _, store_ok s ∧ live_rows s id = live_rows st id)
           (rollback_step height)) in Hfold as [_ Hrows]; [done| |done].
  intros s t v s' t' Hv [Hs Hrows] Hstep. split.
  - by eapply rollback_step_store_ok.
  - rewrite <- Hrows. eapply rollback_step_isolated; [done| |done].
    apply elem_of_stream_desc in Hv as [Hh Hv]. by apply Hother.
Qed.

End IsolationProps.

Section LookupProps.
Context `{Hashing} `{Typing}.

Lemma last_filter_split {A} (P : A → Prop) `{∀ x, Decision (P x)}
    (l1 l2 : list A) x :
  P x → Forall (λ z, ¬ P z) l2 → last (filter P (l1 ++ x :: l2)) = Some x.
Proof.
  intros Hx Hl2. rewrite filter_app, filter_cons_True by done.
  rewrite (filter_none P l2) by done. apply last_snoc.
Qed.

(** The row [find_live] takes is the last row of the table, in row-id
    order, that the query selects and the callback accepts. *)
Lemma find_live_last st diff :
  find_live st diff
  = last (filter (λ v, (v_BigmapId v = e_Id diff
                        ∧ v_GetKeyHash v = e_KeyHash diff)
                       ∧ (v_BigmapId v = e_Id diff
                          ∧ v_KeyId v = GetKeyId (e_Id diff) (e_KeyHash diff)))
                 (Store.rows (valueTable st))).
Proof.
  unfold find_live, Store.first_where, Store.stream_desc.
  by rewrite filter_reverse, head_reverse, list_filter_filter.
Qed.

(** [Update] by the key of the row [prev] of a table without duplicate
    keys puts the new row in the place of [prev]. *)
Lemma update_split (t : Store.Table BigmapValue) prev x l1 l2 :
  NoDup (v_RowId <$> Store.rows t) → Store.rows t = l1 ++ prev :: l2 →
  v_RowId x = v_RowId prev →
  Store.rows (Store.update t x) = l1 ++ x :: l2.
Proof.
  intros Hnd Hl Hx. cbn [Store.update Store.rows]. rewrite Hl in Hnd |- *.
  rewrite fmap_app, fmap_cons in Hnd.
  apply NoDup_app in Hnd as (_ & Hnot & Hnd).
  apply NoDup_cons in Hnd as [Hnot2 _].
  rewrite fmap_app, fmap_cons. cbn [row_id BigmapValue_Row].
  rewrite decide_True by done. f_equal; [|f_equal].
  - erewrite list_fmap_ext; [apply list_fmap_id|].
    intros i r Hr. simpl. rewrite decide_False; [done|].
    intros Heq. apply (Hnot (v_RowId r)).
    + apply list_elem_of_fmap_2. by eapply list_elem_of_lookup_2.
    + rewrite Heq, Hx. apply elem_of_cons. by left.
  - erewrite list_fmap_ext; [apply list_fmap_id|].
    intros i r Hr. simpl. rewrite decide_False; [done|].
    intros Heq. apply Hnot2. rewrite <- Hx, <- Heq.
    apply list_elem_of_fmap_2. by eapply list_elem_of_lookup_2.
Qed.

(** X18. A durable [Update] is found by the next lookup of its key:
    when the diff carries the hash of its key and no row id occurs
    twice in the live-value table, then after the diff the lookup of
    the key yields a row with the key and the value of the diff at the
    height of the operation. The row takes the place and the row id of
    the live row the key had, or, if it had none, is appended under a
    new row id. *)
Theorem Update_then_lookup block op st tmp diff st' tmp' :
  e_Action diff = DiffActionUpdate → 0 ≤ e_Id diff →
  KeyHash (e_Key diff) = e_KeyHash diff →
  NoDup (v_RowId <$> Store.rows (valueTable st)) →
  apply_diff block op st tmp diff = Ok (st', tmp') →
  ∃ r, find_live st' diff = Some r
       ∧ v_BigmapId r = e_Id diff ∧ v_Key r = e_Key diff
       ∧ v_Value r = e_Value diff ∧ v_Height r = op_Height op
       ∧ match find_live st diff with
         | Some prev =>
             v_RowId r = v_RowId prev
             ∧ ∃ l1 l2, Store.rows (valueTable st) = l1 ++ prev :: l2
                        ∧ Store.rows (valueTable st') = l1 ++ r :: l2
         | None =>
             v_RowId r = Store.sequence (valueTable st) + 1
             ∧ Store.rows (valueTable st') = Store.rows (valueTable st) ++ [r]
         end.
Proof.
  intros Hact Hid Hkey Hnd. unfold apply_diff. rewrite Hact.
  unfold apply_Update. rewrite (proj2 (Z.ltb_ge _ _) Hid).
  destruct (loadAlloc st (e_Id diff)) as [[alloc st1]| |] eqn:Hl; [|done..].
  apply loadAlloc_tables in Hl as (_ & _ & Hvt & _).
  rewrite <- (find_live_tables st st1 diff Hvt). rewrite <- Hvt in Hnd |- *.
  destruct (find_live st1 diff) as [prev|] eqn:Hprev; intros [= <- <-].
  - rewrite find_live_last in Hprev.
    apply last_filter_Some in Hprev as Hsplit.
    destruct Hsplit as (l1 & l2 & Hrows & Hl2).
    set (x := set_row_id (v_RowId prev) (NewBigmapValue diff (op_Height op))).
    pose proof (update_split (valueTable st1) prev x l1 l2 Hnd Hrows eq_refl)
      as Hupd.
    exists x. split_and!; [|reflexivity..|].
    + rewrite find_live_last. state_simpl.
      match goal with
      | |- context [Store.update (valueTable st1) ?y] => change y with x
      end.
      rewrite Hupd. apply (last_filter_split _ l1 l2); [|done].
      unfold v_GetKeyHash. by cbn.
    + exists l1, l2. split; [done|]. by state_simpl.
  - exists (set_row_id (Store.sequence (valueTable st1) + 1)
                       (NewBigmapValue diff (op_Height op))).
    split_and!; [|reflexivity..|].
    + rewrite find_live_last. state_simpl. cbn [Store.rows].
      rewrite filter_app, filter_cons_True, filter_nil;
        [apply last_snoc|unfold v_GetKeyHash; by cbn].
    + by state_simpl.
Qed.

End LookupProps.

Section KeyedProps.
Context `{Hashing} `{Typing}.

Lemma update_fmap_same {B} (f : BigmapValue → B) (t : Store.Table BigmapValue)
    prev x :
  NoDup (v_RowId <$> Store.rows t) → prev ∈ Store.rows t →
  v_RowId x = v_RowId prev → f x = f prev →
  f <$> Store.rows (Store.update t x) = f <$> Store.rows t.
Proof.
  intros Hnd Hp Hx Hf. cbn [Store.update Store.rows].
  rewrite <- list_fmap_compose. apply list_fmap_ext. intros i r Hr.
  unfold compose. destruct (decide (row_id r = row_id x)) as [Heq|]; [|done].
  assert (r = prev) as ->; [|done].
  eapply (update_row (A:=BigmapValue)); [done..| |done].
  by eapply list_elem_of_lookup_2.
Qed.

(** The live rows of one big-map hold every key hash once. *)
Lemma source_keys st id :
  keyed st →
  NoDup (v_GetKeyHash
           <$> Store.stream (λ v, v_BigmapId v = id) (valueTable st)).
Proof.
  intros [_ Hnd]. unfold Store.stream.
  apply (NoDup_fmap_1 (λ h, (id, h))). rewrite <- list_fmap_compose.
  erewrite list_fmap_ext.
  - eapply sublist_NoDup; [exact Hnd|]. apply fmap_sublist, sublist_filter.
  - intros i v Hv. apply list_elem_of_lookup_2 in Hv.
    apply list_elem_of_filter in Hv as [<- _]. done.
Qed.

Lemma copies_keys op dst source :
  v_GetKeyHash <$> (copy_live op dst source).1 = v_GetKeyHash <$> source.
Proof.
  unfold copy_live. cbn [fst]. rewrite <- list_fmap_compose.
  by apply list_fmap_ext.
Qed.

Lemma keyed_ext st1 st2 :
  valueTable st2 = valueTable st1 → keyed st1 → keyed st2.
Proof. unfold keyed. by intros ->. Qed.

Lemma keyed_deleted st1 st2 ids :
  valueTable st2 = Store.delete_ids (valueTable st1) ids →
  keyed st1 → keyed st2.
Proof.
  unfold keyed. intros -> [Hall Hnd]. split.
  - by apply (Forall_delete_ids (A:=BigmapValue)).
  - eapply sublist_NoDup; [exact Hnd|]. apply fmap_sublist, sublist_filter.
Qed.

Lemma tmp_kept (tmp : gmap Z InMemoryBigmap) id bm :
  map_Forall (λ _, scratch_keyed) tmp → scratch_keyed bm →
  map_Forall (λ _, scratch_keyed) (<[id := bm]> tmp).
Proof. intros Ht Hbm. by apply map_Forall_insert_2. Qed.

Lemma apply_diff_keyed block op st tmp diff st' tmp' :
  store_ok st → keyed st → map_Forall (λ _, scratch_keyed) tmp →
  (e_Action diff = DiffActionUpdate → KeyHash (e_Key diff) = e_KeyHash diff) →
  Forall (λ id, live_rows st id = []) (allocates diff) →
  apply_diff block op st tmp diff = Ok (st', tmp') →
  keyed st' ∧ map_Forall (λ _, scratch_keyed) tmp'.
Proof.
  intros Hok Hkeyed Htmp Hhash Hfresh. unfold apply_diff, allocates in *.
  destruct (e_Action diff) eqn:Hact.
  - (* Update *)
    specialize (Hhash eq_refl).
    unfold apply_Update. destruct (e_Id diff <? 0).
    + destruct (tmp !! e_Id diff) as [bm|] eqn:Hbm; [|done].
      pose proof (Htmp _ _ Hbm) as Hlive. unfold scratch_keyed in Hlive.
      destruct (list_find _ _) as [[pos v]|] eqn:Hfind; intros [= <- <-];
        (split; [done|]); apply tmp_kept; try done;
        unfold scratch_keyed; cbn [bm_Live].
      * apply list_find_Some in Hfind as (Hpos & Hv & _).
        rewrite list_fmap_insert. rewrite list_insert_id; [done|].
        rewrite list_lookup_fmap, Hpos. cbn. unfold v_GetKeyHash in *.
        cbn. congruence.
      * apply list_find_None in Hfind. rewrite fmap_app.
        apply NoDup_app. split_and!; [done| |apply NoDup_singleton].
        intros h Hin Hin'. apply list_elem_of_singleton in Hin'.
        apply list_elem_of_fmap in Hin as (v & Hv & Hvin).
        apply (proj1 (Forall_forall _ _) Hfind v Hvin).
        rewrite <- Hv, Hin'. unfold v_GetKeyHash. by cbn.
    + destruct (loadAlloc st (e_Id diff)) as [[alloc st1]| |] eqn:Hl; [|done..].
      pose proof (loadAlloc_store_ok _ _ _ _ Hok Hl) as (_ & _ & Hv).
      apply loadAlloc_tables in Hl as (_ & _ & Hvt & _).
      apply (keyed_ext st st1) in Hkeyed; [|done].
      destruct Hkeyed as [Hall Hnd].
      destruct (find_live st1 diff) as [prev|] eqn:Hprev; intros [= <- <-];
        (split; [|done]); unfold keyed; state_simpl.
      * apply find_live_accepts in Hprev as (Hpin & Hpb & Hph). split.
        -- apply (Forall_update (A:=BigmapValue)); [done|].
           unfold v_GetKeyHash. cbn. by rewrite Hhash.
        -- rewrite (update_fmap_same key_of _ prev); [done|apply Hv|done..|].
           unfold key_of, v_GetKeyHash in *. cbn. congruence.
      * split.
        -- cbn [Store.rows]. apply Forall_app. split; [done|].
           apply Forall_singleton. unfold v_GetKeyHash. cbn. by rewrite Hhash.
        -- cbn [Store.rows]. rewrite fmap_app. apply NoDup_app.
           split_and!; [done| |apply NoDup_singleton].
           intros k Hin Hin'. apply list_elem_of_singleton in Hin'.
           apply list_elem_of_fmap in Hin as (v & Hk & Hvin).
           unfold find_live in Hprev.
           apply (proj1 (first_where_None _ _) Hprev v).
           ++ apply elem_of_stream_desc. split; [|done].
              pose proof (proj1 (Forall_forall _ _) Hall v Hvin) as Hkid.
              simpl in Hkid. rewrite Hk in Hin'.
              unfold key_of, v_GetKeyHash in *. cbn in Hin'.
              injection Hin' as Hb Hh. rewrite Hkid, Hb, Hh, Hhash. done.
           ++ rewrite Hk in Hin'. unfold key_of, v_GetKeyHash in *.
              cbn in Hin'. injection Hin' as Hb Hh. by rewrite Hb, Hh, Hhash.
  - (* Remove *)
    unfold apply_Remove. destruct (negb (IsValid (e_KeyHash diff))).
    + destruct (e_Id diff <? 0).
      * destruct (tmp !! e_Id diff) as [bm|]; [|done]. intros [= <- <-].
        split; [done|]. by apply map_Forall_delete.
      * destruct (loadAlloc st (e_Id diff)) as [[alloc st1]| |] eqn:Hl;
          [|done..].
        apply loadAlloc_tables in Hl as (_ & _ & Hvt & _).
        apply (keyed_ext st st1) in Hkeyed; [|done].
        intros [= <- <-]. split; [|done].
        by eapply (keyed_deleted st1).
    + destruct (e_Id diff <? 0).
      * destruct (tmp !! e_Id diff) as [bm|] eqn:Hbm; [|done].
        pose proof (Htmp _ _ Hbm) as Hlive. unfold scratch_keyed in Hlive.
        destruct (list_find _ (bm_Live bm)) as [[pos v]|];
          destruct (list_find _ _) as [[pos' u]|]; intros [= <- <-];
          (split; [done|]); apply tmp_kept; try done;
          unfold scratch_keyed; cbn [bm_Live];
          (eapply sublist_NoDup; [exact Hlive|]);
          apply fmap_sublist, sublist_delete.
      * destruct (loadAlloc st (e_Id diff)) as [[alloc st1]| |] eqn:Hl;
          [|done..].
        apply loadAlloc_tables in Hl as (_ & _ & Hvt & _).
        apply (keyed_ext st st1) in Hkeyed; [|done].
        destruct (find_live st1 diff) as [prev|]; intros [= <- <-];
          (split; [|done]); [by eapply (keyed_deleted st1)|done].
  - (* Copy *)
    unfold apply_Copy.
    set (src := if e_SourceId diff <? 0 then _ else _).
    assert (∀ alloc updates live st1,
              src = Ok (alloc, updates, live, st1) →
              valueTable st1 = valueTable st
              ∧ ∃ source, live = (copy_live op (e_DestId diff) source).1
                          ∧ NoDup (v_GetKeyHash <$> source)) as Hsrc.
    { subst src. intros alloc updates live st1.
      destruct (e_SourceId diff <? 0).
      - destruct (tmp !! e_SourceId diff) as [bm|] eqn:Hbm; [|done].
        intros [= <- <- <- <-]. split; [done|]. eexists. split; [done|].
        apply (Htmp _ _ Hbm).
      - destruct (loadAlloc st (e_SourceId diff)) as [[srcAlloc st2]| |] eqn:Hl;
          [|done..].
        apply loadAlloc_tables in Hl as (_ & _ & Hvt & _).
        intros [= <- <- <- <-]. split; [done|]. eexists. split; [done|].
        apply source_keys. by apply (keyed_ext st st2). }
    destruct src as [[[[alloc updates] live] st1]| |]; [|done..].
    destruct (Hsrc _ _ _ _ eq_refl) as (Hvt & source & -> & Hsource).
    apply (keyed_ext st st1) in Hkeyed; [|done].
    assert (NoDup (v_GetKeyHash <$> (copy_live op (e_DestId diff) source).1))
      as Hcopies by (by rewrite copies_keys).
    cbn [mbind result_bind]. revert Hfresh. destruct (e_DestId diff <? 0).
    + intros _ [= <- <-]. split; [done|]. apply tmp_kept; [done|].
      exact Hcopies.
    + intros Hfresh. rewrite Forall_singleton in Hfresh.
      rewrite <- (live_rows_same st st1 _ Hvt) in Hfresh.
      intros [= <- <-]. split; [|done]. unfold keyed. state_simpl.
      destruct Hkeyed as [Hall Hnd].
      match goal with
      | |- context [Store.insert_all (valueTable st1) ?xs] =>
          destruct (insert_all_rows (A:=BigmapValue) (valueTable st1) xs)
            as (ys & -> & Hys);
          assert (v_GetKeyHash <$> xs = v_GetKeyHash <$> source) as Hxs
            by (rewrite <- list_fmap_compose; by apply list_fmap_ext);
          assert (Forall (λ x, v_BigmapId x = e_DestId diff
                               ∧ v_KeyId x
                                 = GetKeyId (v_BigmapId x) (v_GetKeyHash x)) xs)
            as Hxs' by (apply Forall_fmap, Forall_forall; by intros v _);
          revert Hys Hxs Hxs'; generalize xs
      end.
      intros xs Hys Hxs Hxs'.
      assert (v_GetKeyHash <$> ys = v_GetKeyHash <$> source
              ∧ Forall (λ y, v_BigmapId y = e_DestId diff
                             ∧ v_KeyId y
                               = GetKeyId (v_BigmapId y) (v_GetKeyHash y)) ys)
        as [Hhashes Hys'].
      { rewrite <- Hxs. clear -Hys Hxs'.
        induction Hys as [|y x ys xs [n ->] _ IH]; [done|].
        apply Forall_cons in Hxs' as [Hx Hxs'].
        destruct (IH Hxs') as [IH1 IH2]. split.
        - rewrite !fmap_cons. by f_equal.
        - apply Forall_cons. split; [|done]. done. }
      split.
      * apply Forall_app. split; [done|].
        eapply Forall_impl; [exact Hys'|]. by intros y [_ ?].
      * rewrite fmap_app. apply NoDup_app. split_and!; [done| |].
        -- intros k Hin Hin'.
           apply list_elem_of_fmap in Hin as (v & -> & Hvin).
           apply list_elem_of_fmap in Hin' as (y & Hk & Hyin).
           destruct (proj1 (Forall_forall _ _) Hys' y Hyin) as [Hyb _].
           assert (v ∈ live_rows st1 (e_DestId diff)) as Hv.
           { apply list_elem_of_filter. split; [|done].
             unfold key_of in Hk. injection Hk as -> _. done. }
           rewrite Hfresh in Hv. by apply elem_of_nil in Hv.
        -- assert (key_of <$> ys
                   = (λ h, (e_DestId diff, h)) <$> (v_GetKeyHash <$> source))
             as ->.
           { rewrite <- Hhashes, <- list_fmap_compose.
             apply list_fmap_ext. intros i y Hy.
             apply list_elem_of_lookup_2 in Hy.
             destruct (proj1 (Forall_forall _ _) Hys' y Hy) as [Hyb _].
             unfold key_of, compose. by rewrite Hyb. }
           apply NoDup_fmap_2; [|done]. by intros h1 h2 [= ->].
  - (* Alloc *)
    unfold apply_Alloc.
    destruct (reconcile_types block op st diff) as [[diff1 st1]| |] eqn:Hrec;
      [|done..].
    apply reconcile_types_state in Hrec as (_ & _ & _ & Hvt & _).
    apply (keyed_ext st st1) in Hkeyed; [|done].
    cbn [mbind result_bind]. destruct (e_Id diff1 <? 0); intros [= <- <-].
    + split; [done|]. apply tmp_kept; [done|].
      unfold scratch_keyed. cbn. apply NoDup_nil_2.
    + done.
Qed.

Lemma fresh_no_rows st id : fresh st id → live_rows st id = [].
Proof.
  intros [_ Hzero]. unfold live_count in Hzero. unfold live_rows.
  apply length_zero_iff_nil. lia.
Qed.

(** X19. [ConnectBlock] keeps one live row per key. When the tables are
    coherent and counted, every live row is stored under the key id of
    its key and no key of a big-map has two live rows, the [Update]
    diffs of the block carry the hash of their key, and the block
    creates only durable big-maps whose ids are unused, each once, then
    after [ConnectBlock] every live row is stored under the key id of
    its key and no key of a big-map has two live rows. *)
Theorem ConnectBlock_one_row_per_key st block st' :
  coherent st → counted st → keyed st → hashed block →
  NoDup (allocated block) → Forall (fresh st) (allocated block) →
  ConnectBlock st block = Ok st' →
  keyed st'.
Proof.
  intros Hco Hcnt Hkeyed Hhashed Hnd Hfresh. unfold ConnectBlock.
  destruct (apply_ops block st ∅ (b_Ops block)) as [[st1 tmp1]| |] eqn:Hops;
    [|done..].
  intros [= <-]. unfold apply_ops in Hops.
  apply (foldl_result_fresh
           (λ s t, (coherent s ∧ counted s)
                   ∧ keyed s ∧ map_Forall (λ _, scratch_keyed) t)
           fresh op_allocates (apply_op block)) in Hops
    as [(_ & ? & _) _];
    [done| |split; [by split|split; [done|apply map_Forall_empty]]|done..].
  clear -Hhashed. intros s t op s' t' Hop (Hinv & Hkeyed & Htmp) Hnd Hfresh.
  unfold apply_op.
  set (t0 := if negb (op_IsInternal op) && (0 <? Z.of_nat (size t))
             then ∅ else t).
  assert (map_Forall (λ _, scratch_keyed) t0) as Htmp0.
  { subst t0. destruct (_ && _); [apply map_Forall_empty|done]. }
  clearbody t0. clear Htmp.
  destruct (_ || _) eqn:Hskip; [by intros [= <- <-]|].
  apply orb_false_iff in Hskip as [_ Hok]. apply negb_false_iff in Hok.
  unfold op_allocates in *. rewrite Hok in *.
  unfold apply_diffs.
  apply (foldl_result_fresh
           (λ s t, (coherent s ∧ counted s)
                   ∧ keyed s ∧ map_Forall (λ _, scratch_keyed) t)
           fresh allocates (apply_diff block op));
    [|split; [done|by split]|done..].
  clear -Hhashed Hop.
  intros s t diff s' t' Hdiff (Hinv & Hkeyed & Htmp) Hnd Hfresh Happ.
  destruct (apply_diff_fresh _ _ _ _ _ _ _ Hinv Hnd Hfresh Happ)
    as [Hinv' Hkeep].
  split; [|done]. split; [done|].
  eapply apply_diff_keyed; [apply Hinv|done|done| | |done].
  - by apply (Hhashed op).
  - eapply Forall_impl; [exact Hfresh|]. apply fresh_no_rows.
Qed.

(** Under [keyed] the lookup of a key misses only when the key has no
    live row. *)
Lemma find_live_None st diff :
  keyed st → find_live st diff = None →
  ∀ r, r ∈ Store.rows (valueTable st) →
       key_of r ≠ (e_Id diff, e_KeyHash diff).
Proof.
  intros [Hall _] Hnone r Hr Hk. unfold find_live in Hnone.
  apply (proj1 (first_where_None _ _) Hnone r).
  - apply elem_of_stream_desc. split; [|done].
    pose proof (proj1 (Forall_forall _ _) Hall r Hr) as Hkid. simpl in Hkid.
    unfold key_of in Hk. injection Hk as Hb Hh. by rewrite Hkid, Hb, Hh.
  - unfold key_of in Hk. by injection Hk as Hb Hh.
Qed.

(** X20. After the durable [Remove] of a key the key is not live: when
    no row id occurs twice in the live-value table, every live row is
    stored under the key id of its key and no key has two live rows,
    then after the diff the lookup of the key finds nothing, and the
    live-value table holds the rows it held except the row of the
    key. *)
Theorem Remove_then_lookup block op st tmp diff st' tmp' :
  e_Action diff = DiffActionRemove → IsValid (e_KeyHash diff) = true →
  0 ≤ e_Id diff →
  NoDup (v_RowId <$> Store.rows (valueTable st)) → keyed st →
  apply_diff block op st tmp diff = Ok (st', tmp') →
  find_live st' diff = None
  ∧ ∀ r, r ∈ Store.rows (valueTable st')
         ↔ r ∈ Store.rows (valueTable st)
           ∧ key_of r ≠ (e_Id diff, e_KeyHash diff).
Proof.
  intros Hact Hvalid Hid Hnd Hkeyed. unfold apply_diff. rewrite Hact.
  unfold apply_Remove. rewrite Hvalid, (proj2 (Z.ltb_ge _ _) Hid).
  cbn [negb].
  destruct (loadAlloc st (e_Id diff)) as [[alloc st1]| |] eqn:Hl; [|done..].
  apply loadAlloc_tables in Hl as (_ & _ & Hvt & _).
  apply (keyed_ext st st1) in Hkeyed; [|done]. rewrite <- Hvt in Hnd |- *.
  assert (∀ s, (∀ r, r ∈ Store.rows (valueTable s)
                     → key_of r ≠ (e_Id diff, e_KeyHash diff)) →
               find_live s diff = None) as Hmiss.
  { intros s Hs. unfold find_live. apply first_where_None.
    intros r Hr [Hb Hh]. apply elem_of_stream_desc in Hr as [_ Hr].
    apply (Hs r Hr). unfold key_of. by rewrite Hb, Hh. }
  destruct (find_live st1 diff) as [prev|] eqn:Hprev; intros [= <- <-].
  - apply find_live_accepts in Hprev as (Hpin & Hpb & Hph).
    pose proof (delete_one (A:=BigmapValue) (valueTable st1) prev) as Hone.
    destruct (Hone Hnd Hpin) as (l1 & l2 & Hrows & Hdel). clear Hone.
    cbn [row_id BigmapValue_Row] in Hdel.
    assert (∀ r, r ∈ l1 ++ l2
                 ↔ r ∈ Store.rows (valueTable st1)
                   ∧ key_of r ≠ (e_Id diff, e_KeyHash diff)) as Hiff.
    { destruct Hkeyed as [_ Hk]. rewrite Hrows in Hk |- *.
      rewrite fmap_app, fmap_cons in Hk.
      apply NoDup_app in Hk as (_ & Hnot & Hk).
      apply NoDup_cons in Hk as [Hnot2 _].
      assert (key_of prev = (e_Id diff, e_KeyHash diff)) as Hkp
        by (unfold key_of; by rewrite Hpb, Hph).
      rewrite Hkp in Hnot, Hnot2.
      intros r. rewrite !elem_of_app, elem_of_cons. split.
      - intros [Hr|Hr].
        + split; [by left|]. intros Hkr. apply (Hnot (key_of r)).
          * by apply list_elem_of_fmap_2.
          * rewrite Hkr. apply elem_of_cons. by left.
        + split; [by right; right|]. intros Hkr. apply Hnot2.
          rewrite <- Hkr. by apply list_elem_of_fmap_2.
      - intros [[Hr|[->|Hr]] Hkr]; [by left|done|by right]. }
    state_simpl. rewrite Hdel. split; [|done].
    apply Hmiss. state_simpl. rewrite Hdel. intros r Hr. by apply Hiff.
  - state_simpl. split; [done|].
    intros r. split; [|tauto]. intros Hr. split; [done|].
    by apply (find_live_None st1 diff).
Qed.

End KeyedProps.

Section DiffProps.
Context `{Hashing} `{Typing}.

(** A field that the row id does not touch is the same in the rows a
    batch insert stores as in the rows it was given. *)
Lemma renumbered_fmap `{Row A} {B} (f : A → B) (ys xs : list A) :
  (∀ id x, f (set_row_id id x) = f x) →
  Forall2 (λ y x, ∃ id, y = set_row_id id x) ys xs → f <$> ys = f <$> xs.
Proof.
  intros Hf Hys. induction Hys as [|y x ys xs [n ->] _ IH]; [done|].
  rewrite !fmap_cons. by rewrite Hf, IH.
Qed.

(** X21. The [Remove] of a whole durable big-map empties it: when no
    row id occurs twice in the live-value table, the table holds after
    the diff the rows of the other big-maps, as they were; the update
    log gets the [Remove] row of the big-map followed by one [Remove]
    row per key that was live, in row order, all at the height of the
    operation; and the cached allocation has no live key and is marked
    updated and deleted at that height. *)
Theorem full_Remove_empties_bigmap block op st tmp diff st' tmp' :
  e_Action diff = DiffActionRemove → IsValid (e_KeyHash diff) = false →
  0 ≤ e_Id diff →
  NoDup (v_RowId <$> Store.rows (valueTable st)) →
  apply_diff block op st tmp diff = Ok (st', tmp') →
  Store.rows (valueTable st')
  = filter (λ v, v_BigmapId v ≠ e_Id diff) (Store.rows (valueTable st))
  ∧ (∃ added,
       Store.rows (updateTable st') = Store.rows (updateTable st) ++ added
       ∧ u_Key <$> added = [] :: (v_Key <$> live_rows st (e_Id diff))
       ∧ Forall (λ u, u_Action u = DiffActionRemove
                      ∧ u_Height u = op_Height op) added)
  ∧ ∃ alloc, allocCache st' !! e_Id diff = Some alloc
             ∧ a_NKeys alloc = 0 ∧ a_Updated alloc = op_Height op
             ∧ a_Deleted alloc = op_Height op.
Proof.
  intros Hact Hvalid Hid Hnd. unfold apply_diff. rewrite Hact.
  unfold apply_Remove. rewrite Hvalid, (proj2 (Z.ltb_ge _ _) Hid).
  cbn [negb].
  destruct (loadAlloc st (e_Id diff)) as [[alloc st1]| |] eqn:Hl; [|done..].
  apply loadAlloc_tables in Hl as (_ & Hut & Hvt & _).
  unfold live_rows. rewrite <- Hvt, <- Hut in *. intros [= <- <-].
  state_simpl. split_and!.
  - pose proof (delete_selected (A:=BigmapValue)
                  (λ v, v_BigmapId v = e_Id diff) (valueTable st1) Hnd) as Hsel.
    exact Hsel.
  - match goal with
    | |- context [Store.insert_all ?t ?xs] =>
        destruct (insert_all_rows (A:=BigmapUpdate) t xs) as (ys & -> & Hys)
    end.
    cbn [Store.rows]. eexists. split; [by rewrite <- app_assoc|].
    cbn [app]. split.
    + rewrite fmap_cons. cbn [u_Key]. f_equal.
      match type of Hys with
      | Forall2 _ _ ?xs =>
          assert (u_Key <$> ys = u_Key <$> xs) as ->
            by (by apply (renumbered_fmap (A:=BigmapUpdate) u_Key))
      end.
      rewrite <- list_fmap_compose. by apply list_fmap_ext.
    + apply Forall_cons. split; [done|].
      apply Forall_forall. intros u Hu.
      apply (list_elem_of_fmap_2 (λ u, (u_Action u, u_Height u))) in Hu.
      match type of Hys with
      | Forall2 _ _ ?xs =>
          assert ((λ u, (u_Action u, u_Height u)) <$> ys
                  = (λ u, (u_Action u, u_Height u)) <$> xs) as Hah
            by (by apply (renumbered_fmap (A:=BigmapUpdate)
                            (λ u, (u_Action u, u_Height u))))
      end.
      rewrite Hah in Hu.
      rewrite <- list_fmap_compose in Hu.
      apply list_elem_of_fmap in Hu as (v & Hv & _).
      by injection Hv as -> ->.
  - eexists. split; [apply lookup_insert_eq|done].
Qed.

(** X22. A [Copy] into a durable big-map duplicates the live pairs of
    its source, the live rows of a durable source or the scratch of a
    temporary one: the live-value table gets one row per pair, in the
    order of the source, with the key and the value of the pair, under
    the destination, the height of the operation and the key id of the
    key in the destination; the update log gets the [Copy] row of the
    big-map followed by one [Copy] row per pair; and the allocation of
    the destination is appended to the allocation table, and cached,
    with as many live keys and updates as there are pairs. *)
Theorem Copy_duplicates_live_pairs block op st tmp diff st' tmp' :
  e_Action diff = DiffActionCopy → 0 ≤ e_DestId diff →
  apply_diff block op st tmp diff = Ok (st', tmp') →
  let source :=
    if e_SourceId diff <? 0
    then from_option bm_Live [] (tmp !! e_SourceId diff)
    else live_rows st (e_SourceId diff) in
  (∃ copies,
     Store.rows (valueTable st') = Store.rows (valueTable st) ++ copies
     ∧ Cache.payload <$> copies = Cache.payload <$> source
     ∧ Forall (λ c, v_BigmapId c = e_DestId diff
                    ∧ v_Height c = op_Height op
                    ∧ v_KeyId c = GetKeyId (e_DestId diff) (KeyHash (v_Key c)))
              copies)
  ∧ (∃ added,
       Store.rows (updateTable st') = Store.rows (updateTable st) ++ added
       ∧ u_Key <$> added = [] :: (v_Key <$> source)
       ∧ Forall (λ u, u_Action u = DiffActionCopy
                      ∧ u_Height u = op_Height op
                      ∧ u_BigmapId u = e_DestId diff) added)
  ∧ ∃ alloc,
      allocCache st' !! e_DestId diff = Some alloc
      ∧ Store.rows (allocTable st') = Store.rows (allocTable st) ++ [alloc]
      ∧ a_NKeys alloc = Z.of_nat (length source)
      ∧ a_NUpdates alloc = Z.of_nat (length source)
      ∧ a_Height alloc = op_Height op.
Proof.
  intros Hact Hdst. unfold apply_diff. rewrite Hact. unfold apply_Copy.
  cbn zeta.
  set (source := if e_SourceId diff <? 0 then _ else live_rows st _).
  set (src := if e_SourceId diff <? 0 then _ else _).
  assert (∀ alloc updates live st1,
            src = Ok (alloc, updates, live, st1) →
            allocTable st1 = allocTable st ∧ updateTable st1 = updateTable st
            ∧ valueTable st1 = valueTable st
            ∧ live = (copy_live op (e_DestId diff) source).1
            ∧ updates = a_ToUpdateCopy alloc op (e_SourceId diff)
                        :: (copy_live op (e_DestId diff) source).2
            ∧ a_BigmapId alloc = e_DestId diff
            ∧ a_NKeys alloc = Z.of_nat (length source)
            ∧ a_NUpdates alloc = Z.of_nat (length source)
            ∧ a_Height alloc = op_Height op) as Hsrc.
  { subst src source. intros alloc updates live st1.
    destruct (e_SourceId diff <? 0).
    - destruct (tmp !! e_SourceId diff) as [bm|]; [|done].
      intros [= <- <- <- <-]. cbn [from_option].
      split_and!; try done; unfold copy_live; cbn; by rewrite length_fmap.
    - destruct (loadAlloc st (e_SourceId diff)) as [[srcAlloc st2]| |] eqn:Hl;
        [|done..].
      apply loadAlloc_tables in Hl as (Hat & Hut & Hvt & _).
      intros [= <- <- <- <-]. unfold live_rows, Store.stream. rewrite Hvt.
      split_and!; try done; unfold copy_live; cbn; by rewrite length_fmap. }
  destruct src as [[[[alloc updates] live] st1]| |]; [|done..].
  destruct (Hsrc _ _ _ _ eq_refl)
    as (Hat & Hut & Hvt & -> & -> & Hb & Hn & Hu & Hh).
  clear Hsrc. clearbody source.
  cbn [mbind result_bind]. rewrite (proj2 (Z.ltb_ge _ _) Hdst).
  rewrite <- Hat, <- Hut, <- Hvt. intros [= <- <-]. state_simpl.
  split_and!.
  - match goal with
    | |- context [Store.insert_all ?t ?xs] =>
        destruct (insert_all_rows (A:=BigmapValue) t xs) as (ys & -> & Hys);
        assert ((λ c, (Cache.payload c, v_BigmapId c, v_Height c, v_KeyId c))
                  <$> ys
                = (λ c, (Cache.payload c, v_BigmapId c, v_Height c, v_KeyId c))
                    <$> xs) as Hf
          by (by apply (renumbered_fmap (A:=BigmapValue)
                (λ c, (Cache.payload c, v_BigmapId c, v_Height c, v_KeyId c))))
    end.
    clear Hys. rewrite <- list_fmap_compose in Hf.
    exists ys. split; [done|]. split.
    + apply (f_equal (fmap (λ p : bytes * bytes * Z * Z * Z, p.1.1.1))) in Hf.
      rewrite <- !list_fmap_compose in Hf. exact Hf.
    + apply Forall_forall. intros c Hc.
      apply (list_elem_of_fmap_2
               (λ c, (Cache.payload c, v_BigmapId c, v_Height c, v_KeyId c)))
        in Hc.
      rewrite Hf in Hc. apply list_elem_of_fmap in Hc as (v & Hv & _).
      unfold compose, Cache.payload in Hv. cbn in Hv.
      injection Hv as Hk Hval -> -> ->. by rewrite Hk.
  - match goal with
    | |- context [Store.insert_all ?t ?xs] =>
        destruct (insert_all_rows (A:=BigmapUpdate) t xs) as (ys & -> & Hys)
    end.
    cbn [Store.rows]. eexists. split; [by rewrite <- app_assoc|].
    cbn [app].
    match type of Hys with
    | Forall2 _ _ ?xs =>
        assert ((λ u, (u_Key u, u_Action u, u_Height u, u_BigmapId u)) <$> ys
                = (λ u, (u_Key u, u_Action u, u_Height u, u_BigmapId u)) <$> xs)
          as Hf
          by (by apply (renumbered_fmap (A:=BigmapUpdate)
                (λ u, (u_Key u, u_Action u, u_Height u, u_BigmapId u))))
    end.
    clear Hys. rewrite <- !list_fmap_compose in Hf. split.
    + rewrite fmap_cons. cbn [u_Key]. f_equal.
      apply (f_equal (fmap (λ p : bytes * DiffAction * Z * Z, p.1.1.1))) in Hf.
      rewrite <- !list_fmap_compose in Hf. exact Hf.
    + apply Forall_cons. split; [by rewrite <- Hb|].
      apply Forall_forall. intros u Hu'.
      apply (list_elem_of_fmap_2
               (λ u, (u_Key u, u_Action u, u_Height u, u_BigmapId u))) in Hu'.
      rewrite Hf in Hu'. apply list_elem_of_fmap in Hu' as (v & Hv & _).
      unfold compose in Hv. cbn in Hv. by injection Hv as _ -> -> ->.
  - eexists. split; [|split; [reflexivity|done]].
    cbn [a_BigmapId]. rewrite Hb. apply lookup_insert_eq.
Qed.

(** X23. Operations that failed, or that carry no big-map event, leave
    the index as it is: a block with no other operation is connected
    without an error and without any change of the tables, of the
    cache or of the log. *)
Theorem ConnectBlock_skips_failed_ops st block :
  (∀ op, op ∈ b_Ops block →
         op_IsSuccess op = false ∨ op_BigmapEvents op = []) →
  ConnectBlock st block = Ok st.
Proof.
  intros Hops. unfold ConnectBlock.
  assert (∀ ops tmp, (∀ op, op ∈ ops →
                            op_IsSuccess op = false ∨ op_BigmapEvents op = []) →
                     ∃ tmp', apply_ops block st tmp ops = Ok (st, tmp'))
    as Hskip.
  { clear. unfold apply_ops. induction ops as [|op ops IH]; intros tmp Hops.
    - by eexists.
    - cbn [foldl mbind result_bind].
      assert (∃ tmp1, apply_op block st tmp op = Ok (st, tmp1)) as [tmp1 ->].
      { unfold apply_op.
        destruct (Hops op) as [Hfail|Hnone]; [by apply elem_of_cons; left|..].
        - rewrite Hfail. cbn [negb]. rewrite orb_true_r. by eexists.
        - rewrite Hnone. cbn [length Z.of_nat Z.eqb orb]. by eexists. }
      apply IH. intros op' Hop'. apply Hops. by apply elem_of_cons; right. }
  by destruct (Hskip (b_Ops block) ∅ Hops) as [tmp' ->].
Qed.

(** X24. A diff on a temporary big-map that the batch has not created
    is an error, not a crash, when it is an [Update], the [Remove] of a
    single key, or a [Copy] from the temporary: the diff returns an
    error, and so does the loop over the diffs of the operation,
    whatever diffs follow. *)
Theorem missing_scratch_is_an_error block op st tmp diff rest :
  (e_Action diff = DiffActionUpdate ∧ e_Id diff < 0 ∧ tmp !! e_Id diff = None)
  ∨ (e_Action diff = DiffActionRemove ∧ IsValid (e_KeyHash diff) = true
     ∧ e_Id diff < 0 ∧ tmp !! e_Id diff = None)
  ∨ (e_Action diff = DiffActionCopy ∧ e_SourceId diff < 0
     ∧ tmp !! e_SourceId diff = None) →
  ∃ msg, apply_diff block op st tmp diff = Err msg
         ∧ apply_diffs block op st tmp (diff :: rest) = Err msg.
Proof.
  intros Hmiss. destruct (missing_scratch_error block op st tmp diff Hmiss)
    as [msg Hmsg].
  exists msg. split; [done|]. unfold apply_diffs.
  cbn [foldl mbind result_bind]. rewrite Hmsg. by apply foldl_failed.
Qed.

(** X25. After protocol 13 the [Alloc] of a durable big-map with a
    positive id takes its types from the script of the contract: the
    allocation it appends to the allocation table, and caches, has the
    key and value type of the first pair of the script whose unfolded
    types equal the unfolded types of the diff, or the types of the
    diff (and a message in the log) when the script has no such pair;
    it starts without live key at the height of the operation, and its
    [Alloc] row is appended to the update log. *)
Theorem Alloc_takes_types_from_script block op st tmp diff types :
  e_Action diff = DiffActionAlloc → 13 ≤ b_Version block → 0 < e_Id diff →
  op_Script op = Some types →
  let found :=
    Store.first_where
      (λ btyp : Prim * Prim, Unfold btyp.1 = Unfold (e_KeyType diff)
                             ∧ Unfold btyp.2 = Unfold (e_ValueType diff))
      types in
  ∃ st' alloc u,
    apply_diff block op st tmp diff = Ok (st', tmp)
    ∧ Store.rows (allocTable st') = Store.rows (allocTable st) ++ [alloc]
    ∧ allocCache st' !! e_Id diff = Some alloc
    ∧ a_BigmapId alloc = e_Id diff ∧ a_Height alloc = op_Height op
    ∧ a_NKeys alloc = 0
    ∧ (a_KeyType alloc, a_ValueType alloc)
      = from_option id (e_KeyType diff, e_ValueType diff) found
    ∧ logs st'
      = logs st ++ match found with
                   | Some _ => []
                   | None => ["No type match found for bigmap"]
                   end
    ∧ Store.rows (updateTable st') = Store.rows (updateTable st) ++ [u]
    ∧ u_Action u = DiffActionAlloc ∧ u_BigmapId u = e_Id diff
    ∧ u_Height u = op_Height op
    ∧ valueTable st' = valueTable st.
Proof.
  intros Hact Hv Hid Hs found. unfold apply_diff. rewrite Hact.
  unfold apply_Alloc.
  assert ((e_Id diff <? 0) = false) as Hneg by (apply Z.ltb_ge; lia).
  destruct found as [btyp|] eqn:Hfound; subst found.
  - rewrite (reconcile_types_match block op st diff types btyp Hv Hid Hs Hfound).
    cbn [mbind result_bind set_types e_Id]. rewrite Hneg.
    do 3 eexists. split; [reflexivity|]. state_simpl. cbn [Store.rows].
    split_and!; try reflexivity.
    + apply lookup_insert_eq.
    + by destruct btyp.
    + by rewrite app_nil_r.
  - rewrite (reconcile_types_no_match block op st diff types Hv Hid Hs).
    + cbn [mbind result_bind]. rewrite Hneg.
      do 3 eexists. split; [reflexivity|]. state_simpl. cbn [Store.rows].
      split_and!; try reflexivity. apply lookup_insert_eq.
    + by apply (proj1 (first_where_None _ _)).
Qed.

End DiffProps.

Section ScratchProps.
Context `{Hashing} `{Typing}.

Lemma list_find_head {A} (P : A → Prop) `{∀ x, Decision (P x)} (l : list A) :
  snd <$> list_find P l = head (filter P l).
Proof.
  induction l as [|x l IH]; [done|]. cbn [list_find].
  rewrite filter_cons. destruct (decide (P x)); [done|].
  rewrite <- IH. by destruct (list_find P l) as [[i y]|].
Qed.

Lemma scratch_get_head bm h :
  scratch_get bm h = head (filter (λ v, v_GetKeyHash v = h) (bm_Live bm)).
Proof. apply list_find_head. Qed.

(** The first entry of a key hash splits the list: no entry of the hash
    before it. *)
Lemma list_find_split (l : list BigmapValue) h pos v :
  list_find (λ v, v_GetKeyHash v = h) l = Some (pos, v) →
  l = take pos l ++ v :: drop (S pos) l
  ∧ v_GetKeyHash v = h
  ∧ filter (λ v, v_GetKeyHash v = h) (take pos l) = []
  ∧ (pos < length l)%nat.
Proof.
  intros Hfind. apply list_find_Some in Hfind as (Hpos & Hv & Hbefore).
  split_and!; [by rewrite take_drop_middle|done| |by eapply lookup_lt_Some].
  apply filter_none, Forall_forall. intros y Hy.
  apply list_elem_of_lookup in Hy as [j Hj].
  pose proof (lookup_lt_Some _ _ _ Hj) as Hlt. rewrite length_take in Hlt.
  rewrite lookup_take_lt in Hj by lia. apply (Hbefore j y Hj). lia.
Qed.

(** X26. The scratch of a temporary big-map maps key hashes to pairs,
    and an [Update] writes it as a map is written: when the diff
    carries the hash of its key and the batch has a scratch for the
    temporary, the diff succeeds; afterwards the scratch holds for the
    key the pair of the diff, and for every other key what it held
    before; and its live-key counter has grown by one exactly when the
    key is new. *)
Theorem temporary_Update_writes_scratch block op st tmp diff bm :
  e_Action diff = DiffActionUpdate → e_Id diff < 0 →
  KeyHash (e_Key diff) = e_KeyHash diff →
  tmp !! e_Id diff = Some bm →
  ∃ st' bm',
    apply_diff block op st tmp diff = Ok (st', <[e_Id diff := bm']> tmp)
    ∧ scratch_get bm' (e_KeyHash diff)
      = Some (NewBigmapValue diff (op_Height op))
    ∧ (∀ h, h ≠ e_KeyHash diff → scratch_get bm' h = scratch_get bm h)
    ∧ a_NKeys (bm_Alloc bm')
      = a_NKeys (bm_Alloc bm)
        + match scratch_get bm (e_KeyHash diff) with
          | Some _ => 0
          | None => 1
          end.
Proof.
  intros Hact Hid Hhash Hbm. unfold apply_diff. rewrite Hact.
  unfold apply_Update. rewrite (proj2 (Z.ltb_lt _ _) Hid), Hbm.
  assert (v_GetKeyHash (NewBigmapValue diff (op_Height op)) = e_KeyHash diff)
    as Hnew by (unfold v_GetKeyHash; by cbn).
  destruct (list_find _ (bm_Live bm)) as [[pos v]|] eqn:Hfind.
  - assert (scratch_get bm (e_KeyHash diff) = Some v) as Hget
      by (unfold scratch_get; by rewrite Hfind).
    apply list_find_split in Hfind as (Hl & Hv & Hbefore & Hlt).
    do 2 eexists. split; [reflexivity|]. rewrite Hget.
    cbn [bm_Alloc bm_Live set_counters a_NKeys].
    rewrite !scratch_get_head. cbn [bm_Live].
    rewrite insert_take_drop by done. split_and!; [| |lia].
    + rewrite filter_app, Hbefore, filter_cons_True by done. done.
    + intros h Hh. rewrite !scratch_get_head. cbn [bm_Live].
      rewrite (f_equal (filter (λ v, v_GetKeyHash v = h)) Hl).
      rewrite !filter_app, !filter_cons_False; [done|congruence..].
  - assert (scratch_get bm (e_KeyHash diff) = None) as Hget
      by (unfold scratch_get; by rewrite Hfind).
    apply list_find_None in Hfind.
    do 2 eexists. split; [reflexivity|]. rewrite Hget.
    cbn [bm_Alloc bm_Live set_counters a_NKeys].
    rewrite !scratch_get_head. cbn [bm_Live]. split_and!; [| |done].
    + rewrite filter_app, (filter_none _ (bm_Live bm)) by done.
      by rewrite filter_cons_True.
    + intros h Hh. rewrite !scratch_get_head. cbn [bm_Live].
      rewrite filter_app, filter_cons_False by congruence.
      by rewrite filter_nil, app_nil_r.
Qed.

(** X27. The [Remove] of a key of a temporary big-map takes the key out
    of the scratch: when the scratch holds every key once, the diff
    succeeds; afterwards the scratch holds nothing for the key, and for
    every other key what it held before. *)
Theorem temporary_Remove_clears_key block op st tmp diff bm :
  e_Action diff = DiffActionRemove → IsValid (e_KeyHash diff) = true →
  e_Id diff < 0 → tmp !! e_Id diff = Some bm → scratch_keyed bm →
  ∃ st' bm',
    apply_diff block op st tmp diff = Ok (st', <[e_Id diff := bm']> tmp)
    ∧ scratch_get bm' (e_KeyHash diff) = None
    ∧ (∀ h, h ≠ e_KeyHash diff → scratch_get bm' h = scratch_get bm h)
    ∧ a_NKeys (bm_Alloc bm')
      = a_NKeys (bm_Alloc bm)
        - match scratch_get bm (e_KeyHash diff) with
          | Some _ => 1
          | None => 0
          end.
Proof.
  intros Hact Hvalid Hid Hbm Hkeyed. unfold apply_diff. rewrite Hact.
  unfold apply_Remove. rewrite Hvalid, (proj2 (Z.ltb_lt _ _) Hid), Hbm.
  cbn [negb].
  destruct (list_find _ (bm_Live bm)) as [[pos v]|] eqn:Hfind.
  - assert (scratch_get bm (e_KeyHash diff) = Some v) as Hget
      by (unfold scratch_get; by rewrite Hfind).
    apply list_find_split in Hfind as (Hl & Hv & Hbefore & Hlt).
    assert (filter (λ v, v_GetKeyHash v = e_KeyHash diff)
                   (drop (S pos) (bm_Live bm)) = []) as Hafter.
    { unfold scratch_keyed in Hkeyed. rewrite Hl in Hkeyed.
      rewrite fmap_app, fmap_cons in Hkeyed.
      apply NoDup_app in Hkeyed as (_ & _ & Hnd).
      apply NoDup_cons in Hnd as [Hnot _].
      apply filter_none, Forall_forall. intros y Hy Hyh. apply Hnot.
      rewrite Hv, <- Hyh. by apply list_elem_of_fmap_2. }
    cbn [bm_Alloc bm_Updates bm_Live].
    destruct (list_find _ (bm_Updates bm)) as [[pos' u]|];
      do 2 eexists; (split; [reflexivity|]); rewrite Hget;
      cbn [bm_Alloc bm_Live set_counters a_NKeys];
      rewrite !scratch_get_head; cbn [bm_Live]; rewrite delete_take_drop;
      (split_and!; [by rewrite filter_app, Hbefore, Hafter| |lia]);
      intros h Hh; rewrite !scratch_get_head; cbn [bm_Live];
      rewrite (f_equal (filter (λ v, v_GetKeyHash v = h)) Hl);
      rewrite !filter_app, filter_cons_False; congruence.
  - assert (scratch_get bm (e_KeyHash diff) = None) as Hget
      by (unfold scratch_get; by rewrite Hfind).
    pose proof (proj1 (list_find_None _ _) Hfind) as Hnone.
    destruct (list_find _ (bm_Updates bm)) as [[pos' u]|];
      do 2 eexists; (split; [reflexivity|]); rewrite ?Hget;
      cbn [bm_Alloc bm_Live];
      (split_and!;
       [first [done|unfold scratch_get; cbn [bm_Live]; by rewrite Hfind]
       |done|lia]).
Qed.

End ScratchProps.

Section CacheTransparency.
Context `{Hashing} `{Typing}.

(** On coherent states with the same tables [loadAlloc] returns the
    same record, from the cache or from the table. *)
Lemma loadAlloc_sim st1 st2 id alloc st1' :
  same_tables st1 st2 → coherent st1 → coherent st2 →
  loadAlloc st1 id = Ok (alloc, st1') →
  ∃ st2', loadAlloc st2 id = Ok (alloc, st2') ∧ same_tables st1' st2'.
Proof.
  intros (Hat & Hut & Hvt & Hlog) Hco1 Hco2 Hl.
  pose proof (loadAlloc_coherent _ _ _ _ Hco1 Hl)
    as (_ & Hin & Hid & Hat1 & Hut1 & Hvt1).
  apply loadAlloc_tables in Hl as (_ & _ & _ & Hlog1).
  rewrite Hat1, Hat in Hin. destruct Hco2 as (_ & Hnd & Hc).
  assert (∀ a, a ∈ Store.rows (allocTable st2) → a_BigmapId a = id →
               a = alloc) as Hone.
  { intros a Ha Haid. eapply (fmap_inj_elem a_BigmapId); [done..|congruence]. }
  unfold loadAlloc. destruct (allocCache st2 !! id) as [a|] eqn:Hhit.
  - destruct (Hc id a Hhit) as [Ha Haid]. rewrite (Hone a Ha Haid).
    eexists. split; [done|]. unfold same_tables. by rewrite Hat1, Hut1, Hvt1, Hlog1.
  - destruct (Store.first_where _ _) as [a|] eqn:Hrow.
    + apply first_where_Some in Hrow as [Ha Haid]. rewrite (Hone a Ha Haid).
      eexists. split; [done|]. unfold same_tables. state_simpl.
      by rewrite Hat1, Hut1, Hvt1, Hlog1.
    + exfalso. by apply (proj1 (first_where_None _ _) Hrow alloc).
Qed.

Ltac same_solve Hat Hut Hvt Hlog :=
  unfold same_tables; state_simpl; rewrite ?Hat, ?Hut, ?Hvt, ?Hlog; done.

Lemma apply_diff_sim block op st1 st2 tmp diff st1' tmp' :
  same_tables st1 st2 → coherent st1 → coherent st2 →
  apply_diff block op st1 tmp diff = Ok (st1', tmp') →
  ∃ st2', apply_diff block op st2 tmp diff = Ok (st2', tmp')
          ∧ same_tables st1' st2'.
Proof.
  intros Hsame Hco1 Hco2. unfold apply_diff. destruct (e_Action diff).
  - (* Update *)
    unfold apply_Update. destruct (e_Id diff <? 0).
    + destruct Hsame as (Hat & Hut & Hvt & Hlog).
      destruct (tmp !! e_Id diff) as [bm|]; [|done].
      destruct (list_find _ _) as [[pos v]|]; intros [= <- <-];
        rewrite <- Hut; (eexists; split; [reflexivity|]);
        same_solve Hat Hut Hvt Hlog.
    + destruct (loadAlloc st1 (e_Id diff)) as [[alloc st1a]| |] eqn:Hl;
        [|done..].
      destruct (loadAlloc_sim _ _ _ _ _ Hsame Hco1 Hco2 Hl)
        as (st2a & -> & Hat & Hut & Hvt & Hlog).
      rewrite (find_live_tables st1a st2a diff (eq_sym Hvt)).
      destruct (find_live st1a diff) as [prev|]; intros [= <- <-];
        (eexists; split; [reflexivity|]); same_solve Hat Hut Hvt Hlog.
  - (* Remove *)
    unfold apply_Remove. destruct (negb (IsValid (e_KeyHash diff))).
    + destruct (e_Id diff <? 0).
      * destruct Hsame as (Hat & Hut & Hvt & Hlog).
        destruct (tmp !! e_Id diff) as [bm|]; [|done]. intros [= <- <-].
        eexists; split; [reflexivity|]. same_solve Hat Hut Hvt Hlog.
      * destruct (loadAlloc st1 (e_Id diff)) as [[alloc st1a]| |] eqn:Hl;
          [|done..].
        destruct (loadAlloc_sim _ _ _ _ _ Hsame Hco1 Hco2 Hl)
          as (st2a & -> & Hat & Hut & Hvt & Hlog).
        intros [= <- <-]. eexists; split; [reflexivity|].
        same_solve Hat Hut Hvt Hlog.
    + destruct (e_Id diff <? 0).
      * destruct Hsame as (Hat & Hut & Hvt & Hlog).
        destruct (tmp !! e_Id diff) as [bm|]; [|done].
        destruct (list_find _ (bm_Live bm)) as [[pos v]|];
          destruct (list_find _ _) as [[pos' u]|]; intros [= <- <-];
          (eexists; split; [reflexivity|]); same_solve Hat Hut Hvt Hlog.
      * destruct (loadAlloc st1 (e_Id diff)) as [[alloc st1a]| |] eqn:Hl;
          [|done..].
        destruct (loadAlloc_sim _ _ _ _ _ Hsame Hco1 Hco2 Hl)
          as (st2a & -> & Hat & Hut & Hvt & Hlog).
        rewrite (find_live_tables st1a st2a diff (eq_sym Hvt)).
        destruct (find_live st1a diff) as [prev|]; intros [= <- <-];
          (eexists; split; [reflexivity|]); same_solve Hat Hut Hvt Hlog.
  - (* Copy *)
    unfold apply_Copy. destruct (e_SourceId diff <? 0).
    + destruct Hsame as (Hat & Hut & Hvt & Hlog).
      destruct (tmp !! e_SourceId diff) as [bm|]; [|done].
      cbn [mbind result_bind]. destruct (e_DestId diff <? 0);
        intros [= <- <-]; (eexists; split; [reflexivity|]);
        same_solve Hat Hut Hvt Hlog.
    + destruct (loadAlloc st1 (e_SourceId diff)) as [[alloc st1a]| |] eqn:Hl;
        [|done..].
      destruct (loadAlloc_sim _ _ _ _ _ Hsame Hco1 Hco2 Hl)
        as (st2a & -> & Hat & Hut & Hvt & Hlog).
      cbn [mbind result_bind]. rewrite <- Hvt.
      destruct (e_DestId diff <? 0);
        intros [= <- <-]; (eexists; split; [reflexivity|]);
        same_solve Hat Hut Hvt Hlog.
  - (* Alloc *)
    unfold apply_Alloc, reconcile_types.
    destruct Hsame as (Hat & Hut & Hvt & Hlog).
    destruct (_ && _).
    + destruct (op_Script op) as [types|]; [|done].
      destruct (Store.first_where _ _) as [btyp|]; cbn [mbind result_bind];
        cbn [set_types e_Id]; destruct (e_Id diff <? 0);
        intros [= <- <-]; (eexists; split; [reflexivity|]);
        same_solve Hat Hut Hvt Hlog.
    + cbn [mbind result_bind]. destruct (e_Id diff <? 0);
        intros [= <- <-]; (eexists; split; [reflexivity|]);
        same_solve Hat Hut Hvt Hlog.
Qed.

(** Two runs of a loop that creates big-maps, step by step in a
    relation [I] that every step keeps when the ids it creates are
    unused. *)
Lemma foldl_result_sim {S T X} (I : S → S → T → Prop) (fr : S → Z → Prop)
    (ids : X → list Z) (f : S → T → X → result (S * T)) (xs : list X) :
  (∀ s1 s2 t x s1' t',
     x ∈ xs → I s1 s2 t → NoDup (ids x) → Forall (fr s1) (ids x) →
     f s1 t x = Ok (s1', t') →
     ∃ s2', f s2 t x = Ok (s2', t') ∧ I s1' s2' t'
            ∧ ∀ id, fr s1 id → id ∉ ids x → fr s1' id) →
  ∀ s1 s2 t s1' t',
    I s1 s2 t → NoDup (xs ≫= ids) → Forall (fr s1) (xs ≫= ids) →
    foldl (λ acc x, '(s, t) ← acc; f s t x) (Ok (s1, t)) xs = Ok (s1', t') →
    ∃ s2', foldl (λ acc x, '(s, t) ← acc; f s t x) (Ok (s2, t)) xs
           = Ok (s2', t')
           ∧ I s1' s2' t' ∧ ∀ id, fr s1 id → id ∉ xs ≫= ids → fr s1' id.
Proof.
  induction xs as [|x xs IH]; intros Hf s1 s2 t s1' t' Hs Hnd Hfr.
  - intros [= <- <-]. by exists s2.
  - rewrite bind_cons in Hnd, Hfr |- *.
    apply NoDup_app in Hnd as (Hndx & Hdisj & Hndxs).
    apply Forall_app in Hfr as [Hfrx Hfrxs].
    cbn [foldl mbind result_bind]. destruct (f s1 t x) as [[s1a t1]| |] eqn:Hx;
      [|by rewrite foldl_failed..].
    destruct (Hf s1 s2 t x s1a t1) as (s2a & -> & Hsa & Hkeep);
      [by apply elem_of_cons; left|done..|].
    intros Hrest. apply (IH (λ s1 s2 t y s1' t' Hy, Hf s1 s2 t y s1' t'
                                (proj2 (elem_of_cons _ _ _) (or_intror Hy)))
                            s1a s2a) in Hrest
      as (s2' & Hrest & Hs' & Hkeep'); [|done|done|].
    + exists s2'. split_and!; [done..|]. intros id Hid Hnot. apply Hkeep'.
      * apply Hkeep; [done|]. intros Hin. apply Hnot, elem_of_app. by left.
      * intros Hin. apply Hnot, elem_of_app. by right.
    + apply Forall_forall. intros id Hid. apply Hkeep.
      * by apply (proj1 (Forall_forall _ _) Hfrxs).
      * intros Hin. by apply (Hdisj id).
Qed.

Lemma counted_same st1 st2 : same_tables st1 st2 → counted st1 → counted st2.
Proof. intros (Hat & _ & Hvt & _). by apply counted_ext. Qed.

Lemma fresh_same st1 st2 id : same_tables st1 st2 → fresh st1 id → fresh st2 id.
Proof. intros (Hat & _ & Hvt & _). by apply fresh_ext. Qed.

(** X28. The allocation cache is transparent to [ConnectBlock]: from
    two coherent states with the same tables, whatever their caches
    hold, a block that creates only durable big-maps of unused ids,
    each once, and that connects to the first state, connects to the
    second one as well and leaves the same tables and the same log. *)
Theorem allocation_cache_is_transparent st1 st2 block st1' :
  same_tables st1 st2 → coherent st1 → coherent st2 → counted st1 →
  NoDup (allocated block) → Forall (fresh st1) (allocated block) →
  ConnectBlock st1 block = Ok st1' →
  ∃ st2', ConnectBlock st2 block = Ok st2' ∧ same_tables st1' st2'.
Proof.
  intros Hsame Hco1 Hco2 Hcnt1 Hnd Hfresh.
  pose (I := λ s1 s2 (_ : gmap Z InMemoryBigmap),
               same_tables s1 s2 ∧ (coherent s1 ∧ counted s1)
               ∧ (coherent s2 ∧ counted s2)).
  assert (∀ s1 s2 t diff s1' t' op,
            I s1 s2 t → NoDup (allocates diff) →
            Forall (fresh s1) (allocates diff) →
            apply_diff block op s1 t diff = Ok (s1', t') →
            ∃ s2', apply_diff block op s2 t diff = Ok (s2', t') ∧ I s1' s2' t'
                   ∧ ∀ id, fresh s1 id → id ∉ allocates diff → fresh s1' id)
    as Hdiff.
  { clear. intros s1 s2 t diff s1' t' op (Hsame & Hinv1 & Hinv2) Hnd Hfresh Happ.
    destruct (apply_diff_sim _ _ _ _ _ _ _ _ Hsame (proj1 Hinv1) (proj1 Hinv2)
                Happ) as (s2' & Happ2 & Hsame').
    destruct (apply_diff_fresh _ _ _ _ _ _ _ Hinv1 Hnd Hfresh Happ)
      as [Hinv1' Hkeep].
    assert (Forall (fresh s2) (allocates diff)) as Hfresh2.
    { eapply Forall_impl; [exact Hfresh|]. intros id. by apply fresh_same. }
    destruct (apply_diff_fresh _ _ _ _ _ _ _ Hinv2 Hnd Hfresh2 Happ2)
      as [Hinv2' _].
    exists s2'. by split_and!. }
  assert (∀ s1 s2 t op s1' t',
            op ∈ b_Ops block →
            I s1 s2 t → NoDup (op_allocates op) →
            Forall (fresh s1) (op_allocates op) →
            apply_op block s1 t op = Ok (s1', t') →
            ∃ s2', apply_op block s2 t op = Ok (s2', t') ∧ I s1' s2' t'
                   ∧ ∀ id, fresh s1 id → id ∉ op_allocates op → fresh s1' id)
    as Hop.
  { clear -Hdiff. intros s1 s2 t op s1' t' _ HI Hnd Hfresh.
    unfold apply_op.
    set (t0 := if negb (op_IsInternal op) && (0 <? Z.of_nat (size t))
               then ∅ else t). clearbody t0.
    destruct (_ || _) eqn:Hskip.
    { intros [= <- <-]. exists s2. by split_and!. }
    apply orb_false_iff in Hskip as [_ Hok]. apply negb_false_iff in Hok.
    unfold op_allocates in *. rewrite Hok in *. unfold apply_diffs.
    apply (foldl_result_sim I fresh allocates (apply_diff block op));
      [|done..].
    intros s1a s2a ta diff s1b tb _. apply Hdiff. }
  assert (I st1 st2 ∅) as HI.
  { split_and!; try done. by apply (counted_same st1). }
  unfold ConnectBlock, apply_ops.
  destruct (foldl _ (Ok (st1, ∅)) (b_Ops block)) as [[st1a tmp1]| |] eqn:Hops;
    [|done..].
  intros [= <-].
  destruct (foldl_result_sim I fresh op_allocates (apply_op block)
              (b_Ops block) Hop st1 st2 ∅ st1a tmp1 HI Hnd Hfresh Hops)
    as (st2' & -> & (? & _) & _).
  by exists st2'.
Qed.

End CacheTransparency.

End IndexExtra.

(** ** The further properties on concrete inputs *)

Module ScenarioExtra.
Import Scenario.

(** Decidable facts about the concrete states, by evaluation. *)
Ltac decided := apply (bool_decide_unpack _); by vm_compute.

(** The members of a list that is written out. *)
Ltac elems H :=
  repeat (apply elem_of_cons in H as [->|H]); try (by apply elem_of_nil in H).

Ltac tables_ok := unfold Index.store_ok, Store.keys_ok; split_and!; decided.

Ltac coherent_ok :=
  unfold Index.coherent; split_and!;
  [tables_ok|decided|apply map_Forall_to_list; vm_compute; repeat constructor].

Ltac counted_ok := unfold Index.counted; apply Forall_forall; decided.

(** X1 on the snapshot of two pairs, asked for the key of hash 5. *)
Lemma History_Get_first_match_witness :
  (Cache.wf_hist two_pairs = true)
  ∧ (∃ r : option BigmapValue,
     Cache.History_Get two_pairs (KeyHash key5) = Some r
     ∧ match r with
       | Some v =>
           KeyHash (v_Key v) = KeyHash key5
           ∧ 0 < v_RowId v ≤ Cache.Len two_pairs
             ∧ Cache.Get_item two_pairs (v_RowId v - 1) = Some v
               ∧ ∀ (j : Z) (it : BigmapValue),
                   0 ≤ j < v_RowId v - 1
                   → Cache.Get_item two_pairs j = Some it
                     → KeyHash (v_Key it) ≠ KeyHash key5
       | None =>
           ∀ (j : Z) (it : BigmapValue),
             0 ≤ j < Cache.Len two_pairs
             → Cache.Get_item two_pairs j = Some it
               → KeyHash (v_Key it) ≠ KeyHash key5
       end).
Proof.
  assert (Cache.wf_hist two_pairs = true) as W1
    by (reflexivity).
  split; [exact W1|].
  exact (CacheExtra.History_Get_first_match two_pairs (KeyHash key5) W1).
Defined.

(** X2 on the two pairs of that snapshot. *)
Lemma History_Get_pack_witness :
  (Cache.data_size live_pairs < 2 ^ 32)
  ∧ (Cache.History_Get (Cache.pack 1 12 live_pairs) (KeyHash key5) =
     Some
       ((λ p : nat * BigmapValue, Cache.decoded 1 p.1 p.2) <$>
        list_find (λ v : BigmapValue, KeyHash (v_Key v) = KeyHash key5)
          live_pairs)).
Proof.
  assert (Cache.data_size live_pairs < 2 ^ 32) as W1
    by (by vm_compute).
  split; [exact W1|].
  exact (CacheExtra.History_Get_pack 1 12 live_pairs (KeyHash key5) W1).
Defined.

(** X3 on the log of the blocks 10 to 13. *)
Lemma Build_Update_well_formed_witness :
  (Cache.valid_order order_of_map)
  ∧ ((Z.of_nat
        (length
           (Cache.Data (Cache.Build order_of_map ∅ log_10_13 1 13).1)) <
      2 ^ 32
      → Cache.wf_hist (Cache.Build order_of_map ∅ log_10_13 1 13).1 =
        true
        ∧ Cache.BigmapId (Cache.Build order_of_map ∅ log_10_13 1 13).1 =
          1
          ∧ Cache.Height (Cache.Build order_of_map ∅ log_10_13 1 13).1 =
            13
            ∧ Cache.Len (Cache.Build order_of_map ∅ log_10_13 1 13).1 =
              Z.of_nat
                (size
                   (Cache.replay ∅
                      (Cache.Decode_fields <$>
                       Cache.Build_query log_10_13 1 13))))
     ∧ ∀ (hist hist2 : Cache.BigmapHistory) (c2 : 
                                            gmap Z Cache.BigmapHistory),
         Cache.Update order_of_map ∅ hist log_10_13 13 =
         Some (hist2, c2)
         → Z.of_nat (length (Cache.Data hist2)) < 2 ^ 32
           → Cache.wf_hist hist2 = true
             ∧ Cache.BigmapId hist2 = Cache.BigmapId hist
               ∧ Cache.Height hist2 = 13).
Proof.
  assert (Cache.valid_order order_of_map) as W1
    by (intros m; reflexivity).
  split; [exact W1|].
  exact (CacheExtra.Build_Update_well_formed order_of_map ∅ log_10_13 1 13 W1).
Defined.


(** X5 on the snapshot of two pairs: [Range(0, 1)]. *)
Lemma Range_window_witness :
  (Cache.wf_hist two_pairs = true)
  ∧ (0 ≤ 0)
  ∧ (let upper :=
       if (1 <? 0) || (Cache.Len two_pairs <=? 1)
       then Cache.Len two_pairs - 1
       else 1 in
     ∃ items : list BigmapValue,
       Cache.Range two_pairs 0 1 = Some items
       ∧ length items = Z.to_nat (upper - 0)
         ∧ (∀ j : Z,
              0 ≤ j < upper - 0
              → items !! Z.to_nat j =
                Cache.Get_item two_pairs (0 + j)
                ∧ is_Some (Cache.Get_item two_pairs (0 + j)))
           ∧ ∀ it : BigmapValue, it ∈ items → 0 < v_RowId it ≤ upper).
Proof.
  assert (Cache.wf_hist two_pairs = true) as W1
    by (reflexivity).
  assert (0 ≤ 0) as W2
    by (lia).
  split; [exact W1|].
  split; [exact W2|].
  exact (CacheExtra.Range_window two_pairs 0 1 W1 W2).
Defined.

(** X6 on the snapshot of two pairs: [Range(-1, 1)]. *)
Lemma Range_negative_from_panics_witness :
  (-1 < 0)
  ∧ (-1 <
     (if (1 <? 0) || (Cache.Len two_pairs <=? 1)
      then Cache.Len two_pairs - 1
      else 1))
  ∧ (Cache.Range two_pairs (-1) 1 = None).
Proof.
  assert (-1 < 0) as W1
    by (lia).
  assert (-1 <
          (if (1 <? 0) || (Cache.Len two_pairs <=? 1)
           then Cache.Len two_pairs - 1
           else 1)) as W2
    by (by vm_compute).
  split; [exact W1|].
  split; [exact W2|].
  exact (CacheExtra.Range_negative_from_panics two_pairs (-1) 1 W1 W2).
Defined.

(** X8 on the log of the blocks 10 to 13. *)
Lemma Build_content_witness :
  (Cache.valid_order order_of_map)
  ∧ (Z.of_nat
       (length
          (Cache.Data (Cache.Build order_of_map ∅ log_10_13 1 13).1)) <
     2 ^ 32)
  ∧ (∃ kvs : list (bytes * bytes),
     Cache.entries (Cache.Build order_of_map ∅ log_10_13 1 13).1 =
     Some kvs
     ∧ (∀ kv : bytes * bytes,
          kv ∈ kvs
          → ∃ u : BigmapUpdate,
              u ∈ log_10_13
              ∧ u_BigmapId u = 1
                ∧ u_Height u ≤ 13
                  ∧ u_Action u = DiffActionUpdate
                    ∧ (u_Key u, u_Value u) = kv)
       ∧ ∀ (before : list BigmapUpdate) (u : BigmapUpdate) 
           (after : list BigmapUpdate),
           Cache.Build_query log_10_13 1 13 = before ++ u :: after
           → Forall
               (λ u' : BigmapUpdate,
                  ¬ (u_KeyId u' = u_KeyId u
                     ∧ (u_Action u' = DiffActionUpdate
                        ∨ u_Action u' = DiffActionRemove)))
               after
             → (u_Action u = DiffActionUpdate
                → (u_Key u, u_Value u) ∈ kvs)
               ∧ (u_Action u = DiffActionRemove
                  → Cache.key_ids_ok 1 log_10_13 = true
                    → ∀ kv : bytes * bytes,
                        kv ∈ kvs
                        → GetKeyId 1 (KeyHash kv.1) ≠ u_KeyId u)).
Proof.
  assert (Cache.valid_order order_of_map) as W1
    by (intros m; reflexivity).
  assert (Z.of_nat
            (length
               (Cache.Data (Cache.Build order_of_map ∅ log_10_13 1 13).1)) <
          2 ^ 32) as W2
    by (by vm_compute).
  split; [exact W1|].
  split; [exact W2|].
  exact (CacheExtra.Build_content order_of_map ∅ log_10_13 1 13 W1 W2).
Defined.

(** X9 on the log of the blocks 10 to 13. *)
Lemma Build_key_ids_distinct_witness :
  (Cache.valid_order order_of_map)
  ∧ (Cache.key_ids_ok 1 log_10_13 = true)
  ∧ (Z.of_nat
       (length
          (Cache.Data (Cache.Build order_of_map ∅ log_10_13 1 13).1)) <
     2 ^ 32)
  ∧ (∃ items : list BigmapValue,
     mapM
       (Cache.Get_item
          (Cache.Build order_of_map ∅ log_10_13 1 13).1)
       (seqZ 0
          (Cache.Len
             (Cache.Build order_of_map ∅ log_10_13 1 13).1)) =
     Some items ∧ NoDup (v_KeyId <$> items)).
Proof.
  assert (Cache.valid_order order_of_map) as W1
    by (intros m; reflexivity).
  assert (Cache.key_ids_ok 1 log_10_13 = true) as W2
    by (reflexivity).
  assert (Z.of_nat
            (length
               (Cache.Data (Cache.Build order_of_map ∅ log_10_13 1 13).1)) <
          2 ^ 32) as W3
    by (by vm_compute).
  split; [exact W1|].
  split; [exact W2|].
  split; [exact W3|].
  exact (CacheExtra.Build_key_ids_distinct order_of_map ∅ log_10_13 1 13 W1 W2 W3).
Defined.

(** X10 on the state after the blocks 10 and 11. *)
Lemma engine_keeps_row_ids_unique_witness :
  (Index.store_ok st_11)
  ∧ ((∀ (block : Block) (st' : Index.State),
        Index.ConnectBlock st_11 block = Ok st' → Index.store_ok st')
     ∧ (∀ (height : Z) (st' : Index.State),
          Index.DeleteBlock st_11 height = Ok st' → Index.store_ok st')
       ∧ ∀ (block : Block) (st' : Index.State),
           Index.DisconnectBlock st_11 block = Ok st'
           → Index.store_ok st').
Proof.
  assert (Index.store_ok st_11) as W1
    by (tables_ok).
  split; [exact W1|].
  exact (IndexExtra.engine_keeps_row_ids_unique st_11 W1).
Defined.

(** X11 on block 12 connected to the state after the blocks 10 and 11. *)
Lemma ConnectBlock_appends_to_log_witness :
  (Index.ConnectBlock st_11 block12 = Ok st_12)
  ∧ (∃ added : list BigmapUpdate,
     Store.rows (Index.updateTable st_12) =
     Store.rows (Index.updateTable st_11) ++ added
     ∧ Forall (Index.added_in block12) added).
Proof.
  assert (Index.ConnectBlock st_11 block12 = Ok st_12) as W1
    by (by vm_compute).
  split; [exact W1|].
  exact (IndexExtra.ConnectBlock_appends_to_log st_11 block12 st_12 W1).
Defined.

(** X12 on block 12 disconnected from the state it left. *)
Lemma DeleteBlock_deletes_block_updates_witness :
  (Index.DeleteBlock st_12 12 = Ok st_12_rolled
   ∨ (∃ block : Block,
        b_Height block = 12
        ∧ Index.DisconnectBlock st_12 block = Ok st_12_rolled))
  ∧ (Store.rows (Index.updateTable st_12_rolled) =
     filter (λ u : BigmapUpdate, u_Height u ≠ 12)
       (Store.rows (Index.updateTable st_12))
     ∧ Forall (λ a : BigmapAlloc, a_Height a ≠ 12)
         (Store.rows (Index.allocTable st_12_rolled))).
Proof.
  assert (Index.DeleteBlock st_12 12 = Ok st_12_rolled
          ∨ (∃ block : Block,
               b_Height block = 12
               ∧ Index.DisconnectBlock st_12 block = Ok st_12_rolled)) as W1
    by (right; exists block12; split; by vm_compute).
  split; [exact W1|].
  exact (IndexExtra.DeleteBlock_deletes_block_updates st_12 12 st_12_rolled W1).
Defined.

(** X13 on block 12, connected to the state after the blocks 10 and 11 and disconnected again. *)
Lemma disconnect_restores_log_witness :
  ((∀ op : Op, op ∈ b_Ops block12 → op_Height op = b_Height block12))
  ∧ (Forall (λ u : BigmapUpdate, u_Height u ≠ b_Height block12)
     (Store.rows (Index.updateTable st_11)))
  ∧ (Index.ConnectBlock st_11 block12 = Ok st_12)
  ∧ (Index.DisconnectBlock st_12 block12 = Ok st_12_rolled)
  ∧ (Store.rows (Index.updateTable st_12_rolled) =
     Store.rows (Index.updateTable st_11)).
Proof.
  assert ((∀ op : Op, op ∈ b_Ops block12 → op_Height op = b_Height block12)) as W1
    by (apply Forall_forall; decided).
  assert (Forall (λ u : BigmapUpdate, u_Height u ≠ b_Height block12)
          (Store.rows (Index.updateTable st_11))) as W2
    by (decided).
  assert (Index.ConnectBlock st_11 block12 = Ok st_12) as W3
    by (by vm_compute).
  assert (Index.DisconnectBlock st_12 block12 = Ok st_12_rolled) as W4
    by (by vm_compute).
  split; [exact W1|].
  split; [exact W2|].
  split; [exact W3|].
  split; [exact W4|].
  exact (IndexExtra.disconnect_restores_log st_11 block12 st_12 st_12_rolled W1 W2 W3 W4).
Defined.

(** X14 on block 12 connected to the state after the blocks 10 and 11. *)
Lemma ConnectBlock_keeps_log_replayable_witness :
  ((∀ op : Op, op ∈ b_Ops block12 → op_Height op = b_Height block12))
  ∧ (Index.hashed block12)
  ∧ (Forall (λ u : BigmapUpdate, u_Height u ≤ b_Height block12)
     (Store.rows (Index.updateTable st_11)))
  ∧ (Index.ConnectBlock st_11 block12 = Ok st_12)
  ∧ (Forall (λ u : BigmapUpdate, u_Height u ≤ b_Height block12)
       (Store.rows (Index.updateTable st_12))
     ∧ ∀ id : Z,
         (Cache.log_ascending id
            (Store.rows (Index.updateTable st_11)) =
          true
          → Cache.log_ascending id
              (Store.rows (Index.updateTable st_12)) =
            true)
         ∧ (Cache.key_ids_ok id
              (Store.rows (Index.updateTable st_11)) =
            true
            → Cache.key_ids_ok id
                (Store.rows (Index.updateTable st_12)) =
              true)).
Proof.
  assert ((∀ op : Op, op ∈ b_Ops block12 → op_Height op = b_Height block12)) as W1
    by (apply Forall_forall; decided).
  assert (Index.hashed block12) as W2
    by (intros op diff Hop Hdiff _; elems Hop; elems Hdiff; reflexivity).
  assert (Forall (λ u : BigmapUpdate, u_Height u ≤ b_Height block12)
          (Store.rows (Index.updateTable st_11))) as W3
    by (decided).
  assert (Index.ConnectBlock st_11 block12 = Ok st_12) as W4
    by (by vm_compute).
  split; [exact W1|].
  split; [exact W2|].
  split; [exact W3|].
  split; [exact W4|].
  exact (IndexExtra.ConnectBlock_keeps_log_replayable st_11 block12 st_12 W1 W2 W3 W4).
Defined.

(** X15 on the block that allocates big-map 2, connected to the state after the blocks 10 and 11. *)
Lemma ConnectBlock_counts_live_keys_witness :
  (Index.coherent st_11)
  ∧ (Index.counted st_11)
  ∧ (NoDup (Index.allocated block12_alloc2))
  ∧ (Forall (Index.fresh st_11) (Index.allocated block12_alloc2))
  ∧ (Index.ConnectBlock st_11 block12_alloc2 = Ok st_two)
  ∧ (Index.coherent st_two ∧ Index.counted st_two).
Proof.
  assert (Index.coherent st_11) as W1
    by (coherent_ok).
  assert (Index.counted st_11) as W2
    by (counted_ok).
  assert (NoDup (Index.allocated block12_alloc2)) as W3
    by (decided).
  assert (Forall (Index.fresh st_11) (Index.allocated block12_alloc2)) as W4
    by (unfold Index.fresh; decided).
  assert (Index.ConnectBlock st_11 block12_alloc2 = Ok st_two) as W5
    by (by vm_compute).
  split; [exact W1|].
  split; [exact W2|].
  split; [exact W3|].
  split; [exact W4|].
  split; [exact W5|].
  exact (IndexExtra.ConnectBlock_counts_live_keys st_11 block12_alloc2 st_two W1 W2 W3 W4 W5).
Defined.

(** X16 on block 13, which removes a key of big-map 1, and the live rows of big-map 2. *)
Lemma ConnectBlock_leaves_other_bigmaps_witness :
  (Index.store_ok st_two)
  ∧ ((∀ (op : Op) (diff : BigmapEvent),
     op ∈ b_Ops block13
     → op_IsSuccess op = true
       → diff ∈ op_BigmapEvents op → Index.target diff ≠ 2))
  ∧ (Index.ConnectBlock st_two block13 = Ok st_two_13)
  ∧ (Index.live_rows st_two_13 2 = Index.live_rows st_two 2).
Proof.
  assert (Index.store_ok st_two) as W1
    by (tables_ok).
  assert ((∀ (op : Op) (diff : BigmapEvent),
          op ∈ b_Ops block13
          → op_IsSuccess op = true
            → diff ∈ op_BigmapEvents op → Index.target diff ≠ 2)) as W2
    by (intros op diff Hop _ Hdiff; elems Hop; elems Hdiff; by vm_compute).
  assert (Index.ConnectBlock st_two block13 = Ok st_two_13) as W3
    by (by vm_compute).
  split; [exact W1|].
  split; [exact W2|].
  split; [exact W3|].
  exact (IndexExtra.ConnectBlock_leaves_other_bigmaps st_two block13 st_two_13 2 W1 W2 W3).
Defined.

(** X17 on the rollback of block 13 and the live rows of big-map 2. *)
Lemma DeleteBlock_leaves_other_bigmaps_witness :
  (Index.store_ok st_two_13)
  ∧ ((∀ u : BigmapUpdate,
     u ∈ Store.rows (Index.updateTable st_two_13)
     → u_Height u = 13 → u_BigmapId u ≠ 2))
  ∧ (Index.DeleteBlock st_two_13 13 = Ok st_two_rolled)
  ∧ (Index.live_rows st_two_rolled 2 = Index.live_rows st_two_13 2).
Proof.
  assert (Index.store_ok st_two_13) as W1
    by (tables_ok).
  assert ((∀ u : BigmapUpdate,
          u ∈ Store.rows (Index.updateTable st_two_13)
          → u_Height u = 13 → u_BigmapId u ≠ 2)) as W2
    by (apply (proj1 (Forall_forall (λ u, u_Height u = 13 → u_BigmapId u ≠ 2) _)); decided).
  assert (Index.DeleteBlock st_two_13 13 = Ok st_two_rolled) as W3
    by (by vm_compute).
  split; [exact W1|].
  split; [exact W2|].
  split; [exact W3|].
  exact (IndexExtra.DeleteBlock_leaves_other_bigmaps st_two_13 13 st_two_rolled 2 W1 W2 W3).
Defined.

(** X18 on the [Update] of the key of hash 5 in the state after the blocks 10 and 11. *)
Lemma Update_then_lookup_witness :
  (e_Action diff_key5 = DiffActionUpdate)
  ∧ (0 ≤ e_Id diff_key5)
  ∧ (KeyHash (e_Key diff_key5) = e_KeyHash diff_key5)
  ∧ (NoDup (v_RowId <$> Store.rows (Index.valueTable st_11)))
  ∧ (Index.apply_diff block12 op12 st_11 ∅ diff_key5 =
     Ok (st_12, ∅))
  ∧ (∃ r : BigmapValue,
     Index.find_live st_12 diff_key5 = Some r
     ∧ v_BigmapId r = e_Id diff_key5
       ∧ v_Key r = e_Key diff_key5
         ∧ v_Value r = e_Value diff_key5
           ∧ v_Height r = op_Height op12
             ∧ match Index.find_live st_11 diff_key5 with
               | Some prev =>
                   v_RowId r = v_RowId prev
                   ∧ ∃ l1 l2 : list BigmapValue,
                       Store.rows (Index.valueTable st_11) =
                       l1 ++ prev :: l2
                       ∧ Store.rows (Index.valueTable st_12) =
                         l1 ++ r :: l2
               | None =>
                   v_RowId r =
                   Store.sequence (Index.valueTable st_11) +
                   1
                   ∧ Store.rows (Index.valueTable st_12) =
                     Store.rows (Index.valueTable st_11) ++
                     [r]
               end).
Proof.
  assert (e_Action diff_key5 = DiffActionUpdate) as W1
    by (reflexivity).
  assert (0 ≤ e_Id diff_key5) as W2
    by (by vm_compute).
  assert (KeyHash (e_Key diff_key5) = e_KeyHash diff_key5) as W3
    by (reflexivity).
  assert (NoDup (v_RowId <$> Store.rows (Index.valueTable st_11))) as W4
    by (decided).
  assert (Index.apply_diff block12 op12 st_11 ∅ diff_key5 =
          Ok (st_12, ∅)) as W5
    by (by vm_compute).
  split; [exact W1|].
  split; [exact W2|].
  split; [exact W3|].
  split; [exact W4|].
  split; [exact W5|].
  exact (IndexExtra.Update_then_lookup block12 op12 st_11 ∅ diff_key5 st_12 ∅ W1 W2 W3 W4 W5).
Defined.

(** X19 on the block that allocates big-map 2, connected to the state after the blocks 10 and 11. *)
Lemma ConnectBlock_one_row_per_key_witness :
  (Index.coherent st_11)
  ∧ (Index.counted st_11)
  ∧ (Index.keyed st_11)
  ∧ (Index.hashed block12_alloc2)
  ∧ (NoDup (Index.allocated block12_alloc2))
  ∧ (Forall (Index.fresh st_11)
     (Index.allocated block12_alloc2))
  ∧ (Index.ConnectBlock st_11 block12_alloc2 = Ok st_two)
  ∧ (Index.keyed st_two).
Proof.
  assert (Index.coherent st_11) as W1
    by (coherent_ok).
  assert (Index.counted st_11) as W2
    by (counted_ok).
  assert (Index.keyed st_11) as W3
    by (unfold Index.keyed; decided).
  assert (Index.hashed block12_alloc2) as W4
    by (intros op diff Hop Hdiff _; elems Hop; elems Hdiff; reflexivity).
  assert (NoDup (Index.allocated block12_alloc2)) as W5
    by (decided).
  assert (Forall (Index.fresh st_11)
          (Index.allocated block12_alloc2)) as W6
    by (unfold Index.fresh; decided).
  assert (Index.ConnectBlock st_11 block12_alloc2 = Ok st_two) as W7
    by (by vm_compute).
  split; [exact W1|].
  split; [exact W2|].
  split; [exact W3|].
  split; [exact W4|].
  split; [exact W5|].
  split; [exact W6|].
  split; [exact W7|].
  exact (IndexExtra.ConnectBlock_one_row_per_key st_11 block12_alloc2 st_two W1 W2 W3 W4 W5 W6 W7).
Defined.

(** X20 on the [Remove] of the key of hash 1 from big-map 1, which holds the keys of hash 1 and 2. *)
Lemma Remove_then_lookup_witness :
  (e_Action diff_remove_key1 = DiffActionRemove)
  ∧ (IsValid (e_KeyHash diff_remove_key1) = true)
  ∧ (0 ≤ e_Id diff_remove_key1)
  ∧ (NoDup (v_RowId <$> Store.rows (Index.valueTable st_12_key2)))
  ∧ (Index.keyed st_12_key2)
  ∧ (Index.apply_diff block13 op13 st_12_key2 ∅
       diff_remove_key1 =
     Ok (st_removed, ∅))
  ∧ (Index.find_live st_removed diff_remove_key1 = None
     ∧ ∀ r : BigmapValue,
         r ∈ Store.rows (Index.valueTable st_removed)
         ↔ r ∈ Store.rows (Index.valueTable st_12_key2)
           ∧ Index.key_of r
             ≠ (e_Id diff_remove_key1,
                e_KeyHash diff_remove_key1)).
Proof.
  assert (e_Action diff_remove_key1 = DiffActionRemove) as W1
    by (reflexivity).
  assert (IsValid (e_KeyHash diff_remove_key1) = true) as W2
    by (reflexivity).
  assert (0 ≤ e_Id diff_remove_key1) as W3
    by (by vm_compute).
  assert (NoDup (v_RowId <$> Store.rows (Index.valueTable st_12_key2))) as W4
    by (decided).
  assert (Index.keyed st_12_key2) as W5
    by (unfold Index.keyed; decided).
  assert (Index.apply_diff block13 op13 st_12_key2 ∅
            diff_remove_key1 =
          Ok (st_removed, ∅)) as W6
    by (by vm_compute).
  split; [exact W1|].
  split; [exact W2|].
  split; [exact W3|].
  split; [exact W4|].
  split; [exact W5|].
  split; [exact W6|].
  exact (IndexExtra.Remove_then_lookup block13 op13 st_12_key2 ∅ diff_remove_key1 st_removed ∅ W1 W2 W3 W4 W5 W6).
Defined.

(** X21 on the [Remove] of big-map 1 as a whole. *)
Lemma full_Remove_empties_bigmap_witness :
  (e_Action diff_clear1 = DiffActionRemove)
  ∧ (IsValid (e_KeyHash diff_clear1) = false)
  ∧ (0 ≤ e_Id diff_clear1)
  ∧ (NoDup (v_RowId <$> Store.rows (Index.valueTable st_12_key2)))
  ∧ (Index.apply_diff block13 op13 st_12_key2 ∅ diff_clear1 =
     Ok (st_cleared, ∅))
  ∧ (Store.rows (Index.valueTable st_cleared) =
     filter
       (λ v : BigmapValue, v_BigmapId v ≠ e_Id diff_clear1)
       (Store.rows (Index.valueTable st_12_key2))
     ∧ (∃ added : list BigmapUpdate,
          Store.rows (Index.updateTable st_cleared) =
          Store.rows (Index.updateTable st_12_key2) ++ added
          ∧ u_Key <$> added =
            []
            :: (v_Key <$>
                Index.live_rows st_12_key2 (e_Id diff_clear1))
            ∧ Forall
                (λ u : BigmapUpdate,
                   u_Action u = DiffActionRemove
                   ∧ u_Height u = op_Height op13)
                added)
       ∧ ∃ alloc : BigmapAlloc,
           Index.allocCache st_cleared !! e_Id diff_clear1 =
           Some alloc
           ∧ a_NKeys alloc = 0
             ∧ a_Updated alloc = op_Height op13
               ∧ a_Deleted alloc = op_Height op13).
Proof.
  assert (e_Action diff_clear1 = DiffActionRemove) as W1
    by (reflexivity).
  assert (IsValid (e_KeyHash diff_clear1) = false) as W2
    by (reflexivity).
  assert (0 ≤ e_Id diff_clear1) as W3
    by (by vm_compute).
  assert (NoDup (v_RowId <$> Store.rows (Index.valueTable st_12_key2))) as W4
    by (decided).
  assert (Index.apply_diff block13 op13 st_12_key2 ∅ diff_clear1 =
          Ok (st_cleared, ∅)) as W5
    by (by vm_compute).
  split; [exact W1|].
  split; [exact W2|].
  split; [exact W3|].
  split; [exact W4|].
  split; [exact W5|].
  exact (IndexExtra.full_Remove_empties_bigmap block13 op13 st_12_key2 ∅ diff_clear1 st_cleared ∅ W1 W2 W3 W4 W5).
Defined.

(** X22 on the [Copy] of big-map 1 into big-map 3. *)
Lemma Copy_duplicates_live_pairs_witness :
  (e_Action diff_copy_1_3 = DiffActionCopy)
  ∧ (0 ≤ e_DestId diff_copy_1_3)
  ∧ (Index.apply_diff block13 op13 st_12_key2 no_scratch
       diff_copy_1_3 =
     Ok (st_copied, no_scratch))
  ∧ (let source :=
       if e_SourceId diff_copy_1_3 <? 0
       then
        from_option Index.bm_Live []
          (no_scratch !! e_SourceId diff_copy_1_3)
       else Index.live_rows st_12_key2 (e_SourceId diff_copy_1_3)
       in
     (∃ copies : list BigmapValue,
        Store.rows (Index.valueTable st_copied) =
        Store.rows (Index.valueTable st_12_key2) ++ copies
        ∧ Cache.payload <$> copies = Cache.payload <$> source
          ∧ Forall
              (λ c : BigmapValue,
                 v_BigmapId c = e_DestId diff_copy_1_3
                 ∧ v_Height c = op_Height op13
                   ∧ v_KeyId c =
                     GetKeyId (e_DestId diff_copy_1_3)
                       (KeyHash (v_Key c)))
              copies)
     ∧ (∃ added : list BigmapUpdate,
          Store.rows (Index.updateTable st_copied) =
          Store.rows (Index.updateTable st_12_key2) ++ added
          ∧ u_Key <$> added = [] :: (v_Key <$> source)
            ∧ Forall
                (λ u : BigmapUpdate,
                   u_Action u = DiffActionCopy
                   ∧ u_Height u = op_Height op13
                     ∧ u_BigmapId u = e_DestId diff_copy_1_3)
                added)
       ∧ ∃ alloc : BigmapAlloc,
           Index.allocCache st_copied !! e_DestId diff_copy_1_3 =
           Some alloc
           ∧ Store.rows (Index.allocTable st_copied) =
             Store.rows (Index.allocTable st_12_key2) ++ [alloc]
             ∧ a_NKeys alloc = Z.of_nat (length source)
               ∧ a_NUpdates alloc = Z.of_nat (length source)
                 ∧ a_Height alloc = op_Height op13).
Proof.
  assert (e_Action diff_copy_1_3 = DiffActionCopy) as W1
    by (reflexivity).
  assert (0 ≤ e_DestId diff_copy_1_3) as W2
    by (by vm_compute).
  assert (Index.apply_diff block13 op13 st_12_key2 no_scratch
            diff_copy_1_3 =
          Ok (st_copied, no_scratch)) as W3
    by (by vm_compute).
  split; [exact W1|].
  split; [exact W2|].
  split; [exact W3|].
  exact (IndexExtra.Copy_duplicates_live_pairs block13 op13 st_12_key2 no_scratch diff_copy_1_3 st_copied no_scratch W1 W2 W3).
Defined.

(** X23 on a block of one failed operation and one operation without events. *)
Lemma ConnectBlock_skips_failed_ops_witness :
  ((∀ op : Op,
   op ∈ b_Ops block_failed
   → op_IsSuccess op = false ∨ op_BigmapEvents op = []))
  ∧ (Index.ConnectBlock st_11 block_failed = Ok st_11).
Proof.
  assert ((∀ op : Op,
          op ∈ b_Ops block_failed
          → op_IsSuccess op = false ∨ op_BigmapEvents op = [])) as W1
    by (intros op Hop; elems Hop; [by left|by right]).
  split; [exact W1|].
  exact (IndexExtra.ConnectBlock_skips_failed_ops st_11 block_failed W1).
Defined.

(** X24 on the [Update] of the temporary -1 with an empty scratch map. *)
Lemma missing_scratch_is_an_error_witness :
  (e_Action diff_temp_update = DiffActionUpdate
   ∧ e_Id diff_temp_update < 0
     ∧ no_scratch !! e_Id diff_temp_update = None
   ∨ e_Action diff_temp_update = DiffActionRemove
     ∧ IsValid (e_KeyHash diff_temp_update) = true
       ∧ e_Id diff_temp_update < 0
         ∧ no_scratch !! e_Id diff_temp_update = None
     ∨ e_Action diff_temp_update = DiffActionCopy
       ∧ e_SourceId diff_temp_update < 0
         ∧ no_scratch !! e_SourceId diff_temp_update = None)
  ∧ (∃ msg : string,
     Index.apply_diff block13 op13 st_11 no_scratch diff_temp_update =
     Err msg
     ∧ Index.apply_diffs block13 op13 st_11 no_scratch
         [diff_temp_update; diff_remove_key1] =
       Err msg).
Proof.
  assert (e_Action diff_temp_update = DiffActionUpdate
          ∧ e_Id diff_temp_update < 0
            ∧ no_scratch !! e_Id diff_temp_update = None
          ∨ e_Action diff_temp_update = DiffActionRemove
            ∧ IsValid (e_KeyHash diff_temp_update) = true
              ∧ e_Id diff_temp_update < 0
                ∧ no_scratch !! e_Id diff_temp_update = None
            ∨ e_Action diff_temp_update = DiffActionCopy
              ∧ e_SourceId diff_temp_update < 0
                ∧ no_scratch !! e_SourceId diff_temp_update = None) as W1
    by (left; split_and!; [reflexivity|by vm_compute|reflexivity]).
  split; [exact W1|].
  exact (IndexExtra.missing_scratch_is_an_error block13 op13 st_11 no_scratch diff_temp_update [diff_remove_key1] W1).
Defined.

(** X25 on the [Alloc] of big-map 1 under protocol 13, by a contract whose
    script declares annotated types. *)
Lemma Alloc_takes_types_from_script_witness :
  (e_Action diff_alloc1 = DiffActionAlloc)
  ∧ (13 ≤ b_Version (block_alloc13 1))
  ∧ (0 < e_Id diff_alloc1)
  ∧ (op_Script op_alloc13 = Some annotated_script)
  ∧ (let found :=
       Store.first_where
         (λ btyp : Prim * Prim,
            Unfold btyp.1 = Unfold (e_KeyType diff_alloc1)
            ∧ Unfold btyp.2 = Unfold (e_ValueType diff_alloc1))
         annotated_script
       in
     ∃ (st' : Index.State) (alloc : BigmapAlloc) 
       (u : BigmapUpdate),
       Index.apply_diff (block_alloc13 1) op_alloc13 Index.init ∅
         diff_alloc1 =
       Ok (st', ∅)
       ∧ Store.rows (Index.allocTable st') =
         Store.rows (Index.allocTable Index.init) ++ [alloc]
         ∧ Index.allocCache st' !! e_Id diff_alloc1 = Some alloc
           ∧ a_BigmapId alloc = e_Id diff_alloc1
             ∧ a_Height alloc = op_Height op_alloc13
               ∧ a_NKeys alloc = 0
                 ∧ (a_KeyType alloc, a_ValueType alloc) =
                   default
                     (e_KeyType diff_alloc1,
                      e_ValueType diff_alloc1)
                     found
                   ∧ Index.logs st' =
                     Index.logs Index.init ++
                     match found with
                     | Some _ => []
                     | None => ["No type match found for bigmap"]
                     end
                     ∧ Store.rows (Index.updateTable st') =
                       Store.rows (Index.updateTable Index.init) ++
                       [u]
                       ∧ u_Action u = DiffActionAlloc
                         ∧ u_BigmapId u = e_Id diff_alloc1
                           ∧ u_Height u = op_Height op_alloc13
                             ∧ Index.valueTable st' =
                               Index.valueTable Index.init).
Proof.
  assert (e_Action diff_alloc1 = DiffActionAlloc) as W1
    by (reflexivity).
  assert (13 ≤ b_Version (block_alloc13 1)) as W2
    by (by vm_compute).
  assert (0 < e_Id diff_alloc1) as W3
    by (by vm_compute).
  assert (op_Script op_alloc13 = Some annotated_script) as W4
    by (reflexivity).
  split; [exact W1|].
  split; [exact W2|].
  split; [exact W3|].
  split; [exact W4|].
  exact (IndexExtra.Alloc_takes_types_from_script (block_alloc13 1) op_alloc13 Index.init ∅ diff_alloc1 annotated_script W1 W2 W3 W4).
Defined.

(** X26 on the [Update] of the key of hash 1 in the new scratch of the
    temporary -1. *)
Lemma temporary_Update_writes_scratch_witness :
  (e_Action diff_temp_update = DiffActionUpdate)
  ∧ (e_Id diff_temp_update < 0)
  ∧ (KeyHash (e_Key diff_temp_update) = e_KeyHash diff_temp_update)
  ∧ (scratch_new !! e_Id diff_temp_update = Some scratch_alloc)
  ∧ (∃ (st' : Index.State) (bm' : Index.InMemoryBigmap),
     Index.apply_diff block_temp op20 Index.init scratch_new
       diff_temp_update =
     Ok (st', <[e_Id diff_temp_update:=bm']> scratch_new)
     ∧ Index.scratch_get bm' (e_KeyHash diff_temp_update) =
       Some (NewBigmapValue diff_temp_update (op_Height op20))
       ∧ (∀ h : ExprHash,
            h ≠ e_KeyHash diff_temp_update
            → Index.scratch_get bm' h =
              Index.scratch_get scratch_alloc h)
         ∧ a_NKeys (Index.bm_Alloc bm') =
           a_NKeys (Index.bm_Alloc scratch_alloc) +
           match
             Index.scratch_get scratch_alloc
               (e_KeyHash diff_temp_update)
           with
           | Some _ => 0
           | None => 1
           end).
Proof.
  assert (e_Action diff_temp_update = DiffActionUpdate) as W1
    by (reflexivity).
  assert (e_Id diff_temp_update < 0) as W2
    by (by vm_compute).
  assert (KeyHash (e_Key diff_temp_update) = e_KeyHash diff_temp_update) as W3
    by (reflexivity).
  assert (scratch_new !! e_Id diff_temp_update = Some scratch_alloc) as W4
    by (by vm_compute).
  split; [exact W1|].
  split; [exact W2|].
  split; [exact W3|].
  split; [exact W4|].
  exact (IndexExtra.temporary_Update_writes_scratch block_temp op20 Index.init scratch_new diff_temp_update scratch_alloc W1 W2 W3 W4).
Defined.

(** X27 on the [Remove] of the key of hash 1 from the scratch that holds it. *)
Lemma temporary_Remove_clears_key_witness :
  (e_Action diff_temp_remove = DiffActionRemove)
  ∧ (IsValid (e_KeyHash diff_temp_remove) = true)
  ∧ (e_Id diff_temp_remove < 0)
  ∧ (scratch_held !! e_Id diff_temp_remove = Some scratch_key1)
  ∧ (Index.scratch_keyed scratch_key1)
  ∧ (∃ (st' : Index.State) (bm' : Index.InMemoryBigmap),
     Index.apply_diff block_temp op20 Index.init scratch_held
       diff_temp_remove =
     Ok (st', <[e_Id diff_temp_remove:=bm']> scratch_held)
     ∧ Index.scratch_get bm' (e_KeyHash diff_temp_remove) =
       None
       ∧ (∀ h : ExprHash,
            h ≠ e_KeyHash diff_temp_remove
            → Index.scratch_get bm' h =
              Index.scratch_get scratch_key1 h)
         ∧ a_NKeys (Index.bm_Alloc bm') =
           a_NKeys (Index.bm_Alloc scratch_key1) -
           match
             Index.scratch_get scratch_key1
               (e_KeyHash diff_temp_remove)
           with
           | Some _ => 1
           | None => 0
           end).
Proof.
  assert (e_Action diff_temp_remove = DiffActionRemove) as W1
    by (reflexivity).
  assert (IsValid (e_KeyHash diff_temp_remove) = true) as W2
    by (reflexivity).
  assert (e_Id diff_temp_remove < 0) as W3
    by (by vm_compute).
  assert (scratch_held !! e_Id diff_temp_remove = Some scratch_key1) as W4
    by (by vm_compute).
  assert (Index.scratch_keyed scratch_key1) as W5
    by (unfold Index.scratch_keyed; decided).
  split; [exact W1|].
  split; [exact W2|].
  split; [exact W3|].
  split; [exact W4|].
  split; [exact W5|].
  exact (IndexExtra.temporary_Remove_clears_key block_temp op20 Index.init scratch_held diff_temp_remove scratch_key1 W1 W2 W3 W4 W5).
Defined.

(** X28 on the state after the blocks 10 and 11, with its cache and with a
    purged one, and the block that allocates big-map 2. *)
Lemma allocation_cache_is_transparent_witness :
  (Index.same_tables st_11 st_11_purged)
  ∧ (Index.coherent st_11)
  ∧ (Index.coherent st_11_purged)
  ∧ (Index.counted st_11)
  ∧ (NoDup (Index.allocated block12_alloc2))
  ∧ (Forall (Index.fresh st_11)
     (Index.allocated block12_alloc2))
  ∧ (Index.ConnectBlock st_11 block12_alloc2 = Ok st_two)
  ∧ (∃ st2' : Index.State,
     Index.ConnectBlock st_11_purged block12_alloc2 =
     Ok st2' ∧ Index.same_tables st_two st2').
Proof.
  assert (Index.same_tables st_11 st_11_purged) as W1
    by (by split_and!).
  assert (Index.coherent st_11) as W2
    by (coherent_ok).
  assert (Index.coherent st_11_purged) as W3
    by (coherent_ok).
  assert (Index.counted st_11) as W4
    by (counted_ok).
  assert (NoDup (Index.allocated block12_alloc2)) as W5
    by (decided).
  assert (Forall (Index.fresh st_11)
          (Index.allocated block12_alloc2)) as W6
    by (unfold Index.fresh; decided).
  assert (Index.ConnectBlock st_11 block12_alloc2 = Ok st_two) as W7
    by (by vm_compute).
  split; [exact W1|].
  split; [exact W2|].
  split; [exact W3|].
  split; [exact W4|].
  split; [exact W5|].
  split; [exact W6|].
  split; [exact W7|].
  exact (IndexExtra.allocation_cache_is_transparent st_11 st_11_purged block12_alloc2 st_two W1 W2 W3 W4 W5 W6 W7).
Defined.

End ScenarioExtra.
